(** * AI content-processing engine: cache-backed processing pipeline

    A shallow embedding of [src/services/ai.service.js],
    [src/services/cache.service.js], [src/utils/ai.utils.js] and the AI
    controller, together with the JavaScript built-ins they rely on
    ([JSON.stringify], [JSON.parse], template literals, [String.prototype.trim],
    MD5), and the properties of the pipeline proved over it.

    Conventions.
    - A JavaScript string is a [string] holding its UTF-8 bytes (the text is
      assumed to be well-formed Unicode).
    - A JavaScript number is a decimal numeral [Dec] (or [NaN], [Infinity]);
      the only floating-point operation of the program, the division in
      [summarizeText], is a parameter of the world ([fdiv]).
    - Asynchronous code is a program tree [prog] whose nodes are the effects
      of the code; [run] executes one call alone, [promiseAll] interleaves the
      calls of a batch window. *)

From Stdlib Require Import Bool Arith ZArith List Ascii String Lia DecimalN DecimalPos.

Set Warnings "-register-all".

Import ListNotations.

Open Scope string_scope.
Open Scope Z_scope.

(** ** Characters and strings *)

Definition chr (n : nat) : ascii := ascii_of_nat n.
Definition str1 (c : ascii) : string := String c EmptyString.

Definition nl : string := str1 (chr 10).
Definition dq : string := str1 (chr 34).
Definition dquote : ascii := chr 34.
Definition bslash : ascii := chr 92.

Definition code (c : ascii) : nat := nat_of_ascii c.

Fixpoint srev_app (s acc : string) : string :=
  match s with
  | EmptyString => acc
  | String c s' => srev_app s' (String c acc)
  end.

Definition srev (s : string) : string := srev_app s "".

Fixpoint repeat_str (c : ascii) (n : nat) : string :=
  match n with
  | O => ""
  | S n' => String c (repeat_str c n')
  end.

Fixpoint join (sep : string) (l : list string) : string :=
  match l with
  | [] => ""
  | [x] => x
  | x :: rest => x ++ sep ++ join sep rest
  end.

(** [s.startsWith(p)] followed by the removal of [p]. *)
Fixpoint strip_prefix (p s : string) : option string :=
  match p, s with
  | EmptyString, _ => Some s
  | String a p', String b s' => if Ascii.eqb a b then strip_prefix p' s' else None
  | String _ _, EmptyString => None
  end.

(** ** Numbers *)

Inductive digit := D0 | D1 | D2 | D3 | D4 | D5 | D6 | D7 | D8 | D9.

Definition digit_eqb (a b : digit) : bool :=
  match a, b with
  | D0, D0 | D1, D1 | D2, D2 | D3, D3 | D4, D4
  | D5, D5 | D6, D6 | D7, D7 | D8, D8 | D9, D9 => true
  | _, _ => false
  end.

Definition nat_of_digit (d : digit) : nat :=
  match d with
  | D0 => 0 | D1 => 1 | D2 => 2 | D3 => 3 | D4 => 4
  | D5 => 5 | D6 => 6 | D7 => 7 | D8 => 8 | D9 => 9
  end%nat.

Definition digit_of_nat (n : nat) : digit :=
  match n with
  | 0 => D0 | 1 => D1 | 2 => D2 | 3 => D3 | 4 => D4
  | 5 => D5 | 6 => D6 | 7 => D7 | 8 => D8 | _ => D9
  end%nat.

Definition char_of_digit (d : digit) : ascii := chr (48 + nat_of_digit d).

Definition digit_of_char (c : ascii) : option digit :=
  let n := code c in
  if ((48 <=? n) && (n <=? 57))%nat then Some (digit_of_nat (n - 48)) else None.

Fixpoint digits_str (ds : list digit) : string :=
  match ds with
  | [] => ""
  | d :: ds' => String (char_of_digit d) (digits_str ds')
  end.

Fixpoint uint_digits (u : Decimal.uint) : list digit :=
  match u with
  | Decimal.Nil => []
  | Decimal.D0 u' => D0 :: uint_digits u'
  | Decimal.D1 u' => D1 :: uint_digits u'
  | Decimal.D2 u' => D2 :: uint_digits u'
  | Decimal.D3 u' => D3 :: uint_digits u'
  | Decimal.D4 u' => D4 :: uint_digits u'
  | Decimal.D5 u' => D5 :: uint_digits u'
  | Decimal.D6 u' => D6 :: uint_digits u'
  | Decimal.D7 u' => D7 :: uint_digits u'
  | Decimal.D8 u' => D8 :: uint_digits u'
  | Decimal.D9 u' => D9 :: uint_digits u'
  end.

Fixpoint digits_uint (ds : list digit) : Decimal.uint :=
  match ds with
  | [] => Decimal.Nil
  | D0 :: ds' => Decimal.D0 (digits_uint ds')
  | D1 :: ds' => Decimal.D1 (digits_uint ds')
  | D2 :: ds' => Decimal.D2 (digits_uint ds')
  | D3 :: ds' => Decimal.D3 (digits_uint ds')
  | D4 :: ds' => Decimal.D4 (digits_uint ds')
  | D5 :: ds' => Decimal.D5 (digits_uint ds')
  | D6 :: ds' => Decimal.D6 (digits_uint ds')
  | D7 :: ds' => Decimal.D7 (digits_uint ds')
  | D8 :: ds' => Decimal.D8 (digits_uint ds')
  | D9 :: ds' => Decimal.D9 (digits_uint ds')
  end.

(** The value of a digit sequence read as a natural number. *)
Definition digits_value (ds : list digit) : N := N.of_uint (digits_uint ds).

(** Decimal digits of a natural number, most significant first. *)
Definition N_digits (n : N) : list digit := uint_digits (N.to_uint n).

(** A JavaScript number.  [Dec neg ds pt] is the numeral
    [(-1)^neg * 0.d1 d2 ... dk * 10^pt]; zero has no digits. *)
Inductive number :=
| NaN
| Infinity (neg : bool)
| Dec (neg : bool) (ds : list digit) (pt : Z).

Fixpoint strip_leading (ds : list digit) : list digit :=
  match ds with
  | D0 :: ds' => strip_leading ds'
  | _ => ds
  end.

Definition strip_trailing (ds : list digit) : list digit :=
  rev (strip_leading (rev ds)).

(** The canonical numeral of a number: no leading and no trailing zero
    digit.  The sign of zero is never observed by the program and is
    dropped. *)
Definition normalize (n : number) : number :=
  match n with
  | Dec neg ds pt =>
      let ds1 := strip_leading ds in
      let pt1 := pt - Z.of_nat (List.length ds - List.length ds1) in
      match strip_trailing ds1 with
      | [] => Dec false [] 0
      | ds2 => Dec neg ds2 pt1
      end
  | _ => n
  end.

Definition num_of_nat (n : nat) : number :=
  let ds := N_digits (N.of_nat n) in normalize (Dec false ds (Z.of_nat (List.length ds))).

Definition num_of_Z (z : Z) : number :=
  let ds := N_digits (Z.abs_N z) in
  normalize (Dec (z <? 0) ds (Z.of_nat (List.length ds))).

(** [Number::toString] (radix 10) of ECMA-262. *)
Definition number_to_string (n : number) : string :=
  match normalize n with
  | NaN => "NaN"
  | Infinity false => "Infinity"
  | Infinity true => "-Infinity"
  | Dec neg ds pt =>
      match ds with
      | [] => "0"
      | d :: rest =>
          let k := Z.of_nat (List.length ds) in
          (if neg then "-" else "") ++
          (if (k <=? pt) && (pt <=? 21) then
             digits_str ds ++ repeat_str "0" (Z.to_nat (pt - k))
           else if (0 <? pt) && (pt <=? 21) then
             digits_str (firstn (Z.to_nat pt) ds) ++ "." ++
             digits_str (skipn (Z.to_nat pt) ds)
           else if (-6 <? pt) && (pt <=? 0) then
             "0." ++ repeat_str "0" (Z.to_nat (- pt)) ++ digits_str ds
           else
             let e := pt - 1 in
             str1 (char_of_digit d) ++
             match rest with [] => "" | _ => "." ++ digits_str rest end ++
             "e" ++ (if e <? 0 then "-" else "+") ++
             digits_str (N_digits (Z.abs_N e)))
      end
  end.

Definition num_is_zero (n : number) : bool :=
  match normalize n with
  | Dec _ [] _ => true
  | _ => false
  end.

(** ** Values *)

(** JavaScript values of the program: [undefined] and the JSON values.
    An object is the list of its own properties in insertion order. *)
Inductive value :=
| VUndef
| VNull
| VBool (b : bool)
| VNum (n : number)
| VStr (s : string)
| VArr (l : list value)
| VObj (fields : list (string * value)).

(** A JavaScript exception: the [name] and the [message] of the [Error]. *)
Record error := mkError { err_name : string; err_message : string }.

Definition Error (msg : string) : error := mkError "Error" msg.
Definition TypeError (msg : string) : error := mkError "TypeError" msg.
Definition SyntaxError (msg : string) : error := mkError "SyntaxError" msg.

(** A completed computation: a returned value or a thrown exception
    (a fulfilled or a rejected promise). *)
Inductive outcome (A : Type) :=
| Ok (a : A)
| Throw (e : error).
Arguments Ok {A} a.
Arguments Throw {A} e.

Fixpoint lookup (p : string) (fields : list (string * value)) : option value :=
  match fields with
  | [] => None
  | (k, v) :: rest => if String.eqb k p then Some v else lookup p rest
  end.

(** [o[p] = v] on an object: an existing property keeps its place. *)
Fixpoint obj_set (fields : list (string * value)) (p : string) (v : value)
  : list (string * value) :=
  match fields with
  | [] => [(p, v)]
  | (k, x) :: rest =>
      if String.eqb k p then (k, v) :: rest else (k, x) :: obj_set rest p v
  end.

(** ToBoolean. *)
Definition truthy (v : value) : bool :=
  match v with
  | VUndef | VNull => false
  | VBool b => b
  | VNum NaN => false
  | VNum n => negb (num_is_zero n)
  | VStr s => negb (String.eqb s "")
  | VArr _ | VObj _ => true
  end.

(** [a || b]. *)
Definition js_or (a b : value) : value := if truthy a then a else b.

(** Number of UTF-16 code units of a string given by its UTF-8 bytes:
    a lead byte below 0xF0 starts one unit, a lead byte from 0xF0 on starts
    a surrogate pair, a continuation byte (0x80..0xBF) starts none. *)
Fixpoint utf16_length (s : string) : nat :=
  match s with
  | EmptyString => 0
  | String c s' =>
      let n := code c in
      ((if n <? 128 then 1 else if n <? 192 then 0 else if n <? 240 then 1 else 2)
       + utf16_length s')%nat
  end.

(** [o.p]: reading a property of [undefined] or [null] throws; only the
    properties the program reads are modelled ([length] of strings and
    arrays, own properties of objects). *)
Definition get (o : value) (p : string) : outcome value :=
  match o with
  | VUndef =>
      Throw (TypeError ("Cannot read properties of undefined (reading '" ++ p ++ "')"))
  | VNull =>
      Throw (TypeError ("Cannot read properties of null (reading '" ++ p ++ "')"))
  | VObj fields =>
      Ok (match lookup p fields with Some v => v | None => VUndef end)
  | VStr s =>
      Ok (if String.eqb p "length" then VNum (num_of_nat (utf16_length s)) else VUndef)
  | VArr l =>
      Ok (if String.eqb p "length" then VNum (num_of_nat (List.length l)) else VUndef)
  | VBool _ | VNum _ => Ok VUndef
  end.

(** [o?.p]. *)
Definition get_opt (o : value) (p : string) : value :=
  match get o p with
  | Ok v => v
  | Throw _ => VUndef
  end.

(** ToString, as applied by template literals. *)
Fixpoint to_str (v : value) : string :=
  match v with
  | VUndef => "undefined"
  | VNull => "null"
  | VBool true => "true"
  | VBool false => "false"
  | VNum n => number_to_string n
  | VStr s => s
  | VArr l =>
      join "," (map (fun e => match e with
                              | VUndef | VNull => ""
                              | _ => to_str e
                              end) l)
  | VObj _ => "[object Object]"
  end.

(** ** JSON.stringify *)

Definition hex_digit (n : nat) : ascii :=
  if (n <? 10)%nat then chr (48 + n) else chr (87 + n).

(** QuoteJSONString on one byte. *)
Definition quote_char (c : ascii) : string :=
  let n := code c in
  if (n =? 34)%nat then "\" ++ dq
  else if (n =? 92)%nat then "\\"
  else if (n =? 8)%nat then "\b"
  else if (n =? 9)%nat then "\t"
  else if (n =? 10)%nat then "\n"
  else if (n =? 12)%nat then "\f"
  else if (n =? 13)%nat then "\r"
  else if (n <? 32)%nat then
    "\u00" ++ str1 (hex_digit (n / 16)) ++ str1 (hex_digit (n mod 16))
  else str1 c.

Fixpoint quote_body (s : string) : string :=
  match s with
  | EmptyString => ""
  | String c s' => quote_char c ++ quote_body s'
  end.

Definition quote (s : string) : string := dq ++ quote_body s ++ dq.

Definition stringify_number (n : number) : string :=
  match n with
  | Dec _ _ _ => number_to_string n
  | NaN | Infinity _ => "null"
  end.

(** SerializeJSONProperty: [None] stands for [undefined] (the value is
    skipped in an object and written [null] in an array). *)
Fixpoint stringify (v : value) : option string :=
  match v with
  | VUndef => None
  | VNull => Some "null"
  | VBool true => Some "true"
  | VBool false => Some "false"
  | VNum n => Some (stringify_number n)
  | VStr s => Some (quote s)
  | VArr l =>
      Some ("[" ++
            join "," ((fix elems (l : list value) : list string :=
                         match l with
                         | [] => []
                         | e :: l' =>
                             match stringify e with
                             | Some s => s
                             | None => "null"
                             end :: elems l'
                         end) l) ++ "]")
  | VObj fields =>
      Some ("{" ++
            join "," ((fix members (fs : list (string * value)) : list string :=
                         match fs with
                         | [] => []
                         | (k, e) :: fs' =>
                             match stringify e with
                             | Some s => (quote k ++ ":" ++ s) :: members fs'
                             | None => members fs'
                             end
                         end) fields) ++ "}")
  end.

(** ** MD5 (RFC 1321), as computed by
    [crypto.createHash("md5").update(s).digest("hex")] *)

Module MD5.

Definition mask32 : Z := 0xffffffff.
Definition add32 (a b : Z) : Z := Z.land (a + b) mask32.
Definition not32 (a : Z) : Z := Z.lxor a mask32.
Definition rotl32 (x s : Z) : Z :=
  Z.land (Z.lor (Z.shiftl x s) (Z.shiftr x (32 - s))) mask32.

Definition K : list Z :=
  [ 0xd76aa478; 0xe8c7b756; 0x242070db; 0xc1bdceee;
    0xf57c0faf; 0x4787c62a; 0xa8304613; 0xfd469501;
    0x698098d8; 0x8b44f7af; 0xffff5bb1; 0x895cd7be;
    0x6b901122; 0xfd987193; 0xa679438e; 0x49b40821;
    0xf61e2562; 0xc040b340; 0x265e5a51; 0xe9b6c7aa;
    0xd62f105d; 0x02441453; 0xd8a1e681; 0xe7d3fbc8;
    0x21e1cde6; 0xc33707d6; 0xf4d50d87; 0x455a14ed;
    0xa9e3e905; 0xfcefa3f8; 0x676f02d9; 0x8d2a4c8a;
    0xfffa3942; 0x8771f681; 0x6d9d6122; 0xfde5380c;
    0xa4beea44; 0x4bdecfa9; 0xf6bb4b60; 0xbebfbc70;
    0x289b7ec6; 0xeaa127fa; 0xd4ef3085; 0x04881d05;
    0xd9d4d039; 0xe6db99e5; 0x1fa27cf8; 0xc4ac5665;
    0xf4292244; 0x432aff97; 0xab9423a7; 0xfc93a039;
    0x655b59c3; 0x8f0ccc92; 0xffeff47d; 0x85845dd1;
    0x6fa87e4f; 0xfe2ce6e0; 0xa3014314; 0x4e0811a1;
    0xf7537e82; 0xbd3af235; 0x2ad7d2bb; 0xeb86d391 ].

Definition shifts : list Z :=
  [ 7; 12; 17; 22; 7; 12; 17; 22; 7; 12; 17; 22; 7; 12; 17; 22;
    5; 9; 14; 20; 5; 9; 14; 20; 5; 9; 14; 20; 5; 9; 14; 20;
    4; 11; 16; 23; 4; 11; 16; 23; 4; 11; 16; 23; 4; 11; 16; 23;
    6; 10; 15; 21; 6; 10; 15; 21; 6; 10; 15; 21; 6; 10; 15; 21 ].

Definition regs : Type := Z * Z * Z * Z.

Definition init : regs := (0x67452301, 0xefcdab89, 0x98badcfe, 0x10325476).

(** One of the 64 operations on the words [m] of a block. *)
Definition operation (m : list Z) (r : regs) (i : nat) : regs :=
  let '(a, b, c, d) := r in
  let '(f, g) :=
    if (i <? 16)%nat then (Z.lor (Z.land b c) (Z.land (not32 b) d), i)
    else if (i <? 32)%nat then
      (Z.lor (Z.land d b) (Z.land (not32 d) c), ((5 * i + 1) mod 16)%nat)
    else if (i <? 48)%nat then (Z.lxor b (Z.lxor c d), ((3 * i + 5) mod 16)%nat)
    else (Z.lxor c (Z.lor b (not32 d)), ((7 * i) mod 16)%nat) in
  let f' := add32 (add32 (add32 f a) (nth i K 0)) (nth g m 0) in
  (d, add32 b (rotl32 f' (nth i shifts 0)), b, c).

(** Little-endian 32-bit words of a byte sequence. *)
Fixpoint words (bytes : list Z) : list Z :=
  match bytes with
  | b0 :: b1 :: b2 :: b3 :: rest =>
      (b0 + Z.shiftl b1 8 + Z.shiftl b2 16 + Z.shiftl b3 24) :: words rest
  | _ => []
  end.

Definition block (r : regs) (m : list Z) : regs :=
  let '(a, b, c, d) := r in
  let '(a', b', c', d') := fold_left (operation m) (seq 0 64) r in
  (add32 a a', add32 b b', add32 c c', add32 d d').

Fixpoint blocks (n : nat) (r : regs) (ws : list Z) : regs :=
  match n with
  | O => r
  | S n' => blocks n' (block r (firstn 16 ws)) (skipn 16 ws)
  end.

Definition le_bytes (n : nat) (x : Z) : list Z :=
  map (fun i => Z.land (Z.shiftr x (8 * Z.of_nat i)) 0xff) (seq 0 n).

(** The message followed by the bit 1, zero bits up to 56 modulo 64 bytes,
    and the length in bits on 64 bits. *)
Definition pad (bytes : list Z) : list Z :=
  let len := List.length bytes in
  let zeros := ((119 - len mod 64) mod 64)%nat in
  bytes ++ [0x80] ++ repeat 0 zeros ++ le_bytes 8 (8 * Z.of_nat len).

Definition hex_byte (b : Z) : string :=
  str1 (hex_digit (Z.to_nat (Z.shiftr b 4))) ++ str1 (hex_digit (Z.to_nat (Z.land b 15))).

Fixpoint bytes_of_string (s : string) : list Z :=
  match s with
  | EmptyString => []
  | String c s' => Z.of_nat (code c) :: bytes_of_string s'
  end.

(** The digest of the bytes of [s], in lower-case hexadecimal. *)
Definition hex (s : string) : string :=
  let padded := pad (bytes_of_string s) in
  let '(a, b, c, d) := blocks (List.length padded / 64) init (words padded) in
  String.concat "" (map hex_byte (le_bytes 4 a ++ le_bytes 4 b ++ le_bytes 4 c ++ le_bytes 4 d)).

End MD5.

(** ** JSON.parse *)

Definition is_ws (c : ascii) : bool :=
  let n := code c in
  ((n =? 32) || (n =? 9) || (n =? 10) || (n =? 13))%nat.

Fixpoint skip_ws (s : string) : string :=
  match s with
  | String c s' => if is_ws c then skip_ws s' else s
  | EmptyString => s
  end.

Definition hex_val (c : ascii) : option N :=
  let n := code c in
  if ((48 <=? n) && (n <=? 57))%nat then Some (N.of_nat (n - 48))
  else if ((97 <=? n) && (n <=? 102))%nat then Some (N.of_nat (n - 87))
  else if ((65 <=? n) && (n <=? 70))%nat then Some (N.of_nat (n - 55))
  else None.

Definition hex4 (a b c d : ascii) : option N :=
  match hex_val a, hex_val b, hex_val c, hex_val d with
  | Some x, Some y, Some z, Some w => Some (((x * 16 + y) * 16 + z) * 16 + w)%N
  | _, _, _, _ => None
  end.

(** UTF-8 bytes of a code point (a lone surrogate is encoded like any other
    code point of its range). *)
Definition utf8_encode (cp : N) : string :=
  (if cp <? 128 then str1 (ascii_of_N cp)
   else if cp <? 2048 then
     String (ascii_of_N (192 + cp / 64)) (str1 (ascii_of_N (128 + cp mod 64)))
   else if cp <? 65536 then
     String (ascii_of_N (224 + cp / 4096))
       (String (ascii_of_N (128 + (cp / 64) mod 64))
          (str1 (ascii_of_N (128 + cp mod 64))))
   else
     String (ascii_of_N (240 + cp / 262144))
       (String (ascii_of_N (128 + (cp / 4096) mod 64))
          (String (ascii_of_N (128 + (cp / 64) mod 64))
             (str1 (ascii_of_N (128 + cp mod 64))))))%N.

Definition prepend (p : string) (r : option (string * string)) : option (string * string) :=
  match r with
  | Some (s, rest) => Some (p ++ s, rest)
  | None => None
  end.

(** The escape [\X] for a single character [X]. *)
Definition simple_escape (e : ascii) : option ascii :=
  let n := code e in
  (if n =? 34 then Some (chr 34)
   else if n =? 92 then Some (chr 92)
   else if n =? 47 then Some (chr 47)
   else if n =? 98 then Some (chr 8)
   else if n =? 102 then Some (chr 12)
   else if n =? 110 then Some (chr 10)
   else if n =? 114 then Some (chr 13)
   else if n =? 116 then Some (chr 9)
   else None)%nat.

(** The low half of a surrogate pair written [\uXXXX] at the head of [s]. *)
Definition low_surrogate (s : string) : option (N * string) :=
  match s with
  | String b (String u (String h1 (String h2 (String h3 (String h4 rest))))) =>
      if ((code b =? 92) && (code u =? 117))%nat then
        match hex4 h1 h2 h3 h4 with
        | Some lo => if ((56320 <=? lo) && (lo <? 57344))%N then Some (lo, rest) else None
        | None => None
        end
      else None
  | _ => None
  end.

(** The characters of a string literal after its opening quote, up to and
    including the closing quote. *)
Fixpoint parse_chars (s : string) : option (string * string) :=
  match s with
  | EmptyString => None
  | String c s1 =>
      if (code c =? 34)%nat then Some ("", s1)
      else if (code c =? 92)%nat then
        match s1 with
        | EmptyString => None
        | String e s2 =>
            match simple_escape e with
            | Some x => prepend (str1 x) (parse_chars s2)
            | None =>
                if (code e =? 117)%nat then
                  match s2 with
                  | String h1 (String h2 (String h3 (String h4 s3))) =>
                      match hex4 h1 h2 h3 h4 with
                      | None => None
                      | Some hi =>
                          if ((55296 <=? hi) && (hi <? 56320))%N then
                            match s3 with
                            | String _ (String _ (String _ (String _ (String _ (String _ s4))))) =>
                                match low_surrogate s3 with
                                | Some (lo, _) =>
                                    prepend
                                      (utf8_encode (65536 + (hi - 55296) * 1024 + (lo - 56320))%N)
                                      (parse_chars s4)
                                | None => prepend (utf8_encode hi) (parse_chars s3)
                                end
                            | _ => prepend (utf8_encode hi) (parse_chars s3)
                            end
                          else prepend (utf8_encode hi) (parse_chars s3)
                      end
                  | _ => None
                  end
                else None
            end
        end
      else if (code c <? 32)%nat then None
      else prepend (str1 c) (parse_chars s1)
  end.

Fixpoint take_digits (s : string) : list digit * string :=
  match s with
  | String c s' =>
      match digit_of_char c with
      | Some d => let (ds, r) := take_digits s' in (d :: ds, r)
      | None => ([], s)
      end
  | EmptyString => ([], s)
  end.

(** The integer part: [0], or a non-zero digit followed by digits. *)
Definition parse_int (s : string) : option (list digit * string) :=
  match s with
  | String c s' =>
      match digit_of_char c with
      | Some D0 => Some ([D0], s')
      | Some d => let (ds, r) := take_digits s' in Some (d :: ds, r)
      | None => None
      end
  | EmptyString => None
  end.

Definition parse_frac (s : string) : option (list digit * string) :=
  match s with
  | String c s' =>
      if (code c =? 46)%nat then
        match take_digits s' with
        | ([], _) => None
        | (ds, r) => Some (ds, r)
        end
      else Some ([], s)
  | EmptyString => Some ([], s)
  end.

Definition parse_exp (s : string) : option (Z * string) :=
  match s with
  | String c s' =>
      if ((code c =? 101) || (code c =? 69))%nat then
        let '(neg, s'') :=
          match s' with
          | String g t =>
              if (code g =? 45)%nat then (true, t)
              else if (code g =? 43)%nat then (false, t)
              else (false, s')
          | EmptyString => (false, s')
          end in
        match take_digits s'' with
        | ([], _) => None
        | (ds, r) =>
            let e := Z.of_N (digits_value ds) in
            Some (if neg then - e else e, r)
        end
      else Some (0, s)
  | EmptyString => Some (0, s)
  end.

Definition parse_number (s : string) : option (number * string) :=
  let '(neg, s1) :=
    match s with
    | String c s' => if (code c =? 45)%nat then (true, s') else (false, s)
    | EmptyString => (false, s)
    end in
  match parse_int s1 with
  | None => None
  | Some (ip, s2) =>
      match parse_frac s2 with
      | None => None
      | Some (fp, s3) =>
          match parse_exp s3 with
          | None => None
          | Some (e, s4) =>
              Some (normalize (Dec neg (ip ++ fp) (Z.of_nat (List.length ip) + e)), s4)
          end
      end
  end.

Definition keyword (k : string) (v : value) (s : string) : option (value * string) :=
  match strip_prefix k s with
  | Some rest => Some (v, rest)
  | None => None
  end.

Fixpoint parse_value (fuel : nat) (s : string) {struct fuel} : option (value * string) :=
  match fuel with
  | O => None
  | S f =>
      match skip_ws s with
      | EmptyString => None
      | String c s1 =>
          let n := code c in
          if (n =? 123)%nat then
            match skip_ws s1 with
            | String c' s2 =>
                if (code c' =? 125)%nat then Some (VObj [], s2) else parse_members f s1 []
            | EmptyString => None
            end
          else if (n =? 91)%nat then
            match skip_ws s1 with
            | String c' s2 =>
                if (code c' =? 93)%nat then Some (VArr [], s2) else parse_elements f s1 []
            | EmptyString => None
            end
          else if (n =? 34)%nat then
            match parse_chars s1 with
            | Some (str, r) => Some (VStr str, r)
            | None => None
            end
          else if (n =? 110)%nat then keyword "null" VNull (String c s1)
          else if (n =? 116)%nat then keyword "true" (VBool true) (String c s1)
          else if (n =? 102)%nat then keyword "false" (VBool false) (String c s1)
          else
            match parse_number (String c s1) with
            | Some (x, r) => Some (VNum x, r)
            | None => None
            end
      end
  end

with parse_elements (fuel : nat) (s : string) (acc : list value) {struct fuel}
  : option (value * string) :=
  match fuel with
  | O => None
  | S f =>
      match parse_value f s with
      | None => None
      | Some (v, r) =>
          match skip_ws r with
          | String c r1 =>
              if (code c =? 44)%nat then parse_elements f r1 (v :: acc)
              else if (code c =? 93)%nat then Some (VArr (rev (v :: acc)), r1)
              else None
          | EmptyString => None
          end
      end
  end

with parse_members (fuel : nat) (s : string) (acc : list (string * value)) {struct fuel}
  : option (value * string) :=
  match fuel with
  | O => None
  | S f =>
      match skip_ws s with
      | String q s1 =>
          if (code q =? 34)%nat then
            match parse_chars s1 with
            | None => None
            | Some (k, r) =>
                match skip_ws r with
                | String colon r1 =>
                    if (code colon =? 58)%nat then
                      match parse_value f r1 with
                      | None => None
                      | Some (v, r2) =>
                          match skip_ws r2 with
                          | String c r3 =>
                              if (code c =? 44)%nat then parse_members f r3 (obj_set acc k v)
                              else if (code c =? 125)%nat then Some (VObj (obj_set acc k v), r3)
                              else None
                          | EmptyString => None
                          end
                      end
                    else None
                | EmptyString => None
                end
            end
          else None
      | EmptyString => None
      end
  end.

(** [JSON.parse(s)]; [None] stands for the [SyntaxError] it throws. *)
Definition JSON_parse (s : string) : option value :=
  match parse_value (S (String.length s)) s with
  | Some (v, rest) =>
      match skip_ws rest with
      | EmptyString => Some v
      | String _ _ => None
      end
  | None => None
  end.

(** ** White space of [trim] and of the regular expression class [\s] *)

(** Number of bytes of the white-space or line-terminator character at the
    head of [s], 0 when there is none: U+0009..U+000D, U+0020, U+00A0,
    U+1680, U+2000..U+200A, U+2028, U+2029, U+202F, U+205F, U+3000, U+FEFF. *)
Definition ws_width (s : string) : nat :=
  match s with
  | EmptyString => 0
  | String a s1 =>
      let x := code a in
      if (((9 <=? x) && (x <=? 13)) || (x =? 32))%nat then 1%nat
      else
        match s1 with
        | EmptyString => 0
        | String b s2 =>
            let y := code b in
            if ((x =? 194) && (y =? 160))%nat then 2%nat
            else
              match s2 with
              | EmptyString => 0
              | String c _ =>
                  let z := code c in
                  if (((x =? 225) && (y =? 154) && (z =? 128))
                      || ((x =? 226) && (y =? 128)
                          && (((128 <=? z) && (z <=? 138)) || (z =? 168) || (z =? 169)
                              || (z =? 175)))
                      || ((x =? 226) && (y =? 129) && (z =? 159))
                      || ((x =? 227) && (y =? 128) && (z =? 128))
                      || ((x =? 239) && (y =? 187) && (z =? 191)))%nat
                  then 3%nat else 0%nat
              end
        end
  end.

Fixpoint drop (n : nat) (s : string) : string :=
  match n, s with
  | S n', String _ s' => drop n' s'
  | _, _ => s
  end.

Fixpoint trim_start_aux (fuel : nat) (s : string) : string :=
  match fuel with
  | O => s
  | S f =>
      match ws_width s with
      | O => s
      | n => trim_start_aux f (drop n s)
      end
  end.

Definition trim_start (s : string) : string := trim_start_aux (String.length s) s.

(** Width of the white-space character at the end of [s], given [s]
    reversed. *)
Definition ws_width_rev (r : string) : nat :=
  match r with
  | String c (String b (String a _)) =>
      if (ws_width (String c "") =? 1)%nat then 1%nat
      else if (ws_width (String b (String c "")) =? 2)%nat then 2%nat
      else ws_width (String a (String b (String c "")))
  | String c (String b EmptyString) =>
      if (ws_width (String c "") =? 1)%nat then 1%nat
      else ws_width (String b (String c ""))
  | String c EmptyString => ws_width (String c "")
  | EmptyString => 0
  end.

Fixpoint trim_end_aux (fuel : nat) (r : string) : string :=
  match fuel with
  | O => r
  | S f =>
      match ws_width_rev r with
      | O => r
      | n => trim_end_aux f (drop n r)
      end
  end.

Definition trim_end (s : string) : string :=
  srev (trim_end_aux (String.length s) (srev s)).

(** [s.trim()]. *)
Definition trim (s : string) : string := trim_end (trim_start s).

(** [s.split(/\s+/).length]: one more than the number of maximal runs of
    white space. *)
Fixpoint count_pieces (fuel : nat) (in_ws : bool) (s : string) : nat :=
  match fuel with
  | O => 1
  | S f =>
      match s with
      | EmptyString => 1
      | String _ s' =>
          match ws_width s with
          | O => count_pieces f false s'
          | n => ((if in_ws then 0 else 1) + count_pieces f true (drop n s))%nat
          end
      end
  end.

Definition split_ws_length (s : string) : nat :=
  count_pieces (String.length s) false s.

(** ** [formatResponse] of [src/utils/ai.utils.js] *)

(** [s.replace(/^p/, "")] for a literal [p]. *)
Definition remove_prefix (p s : string) : string :=
  match strip_prefix p s with
  | Some rest => rest
  | None => s
  end.

(** [s.replace(/p$/, "")] for a literal [p]. *)
Definition remove_suffix (p s : string) : string :=
  srev (remove_prefix (srev p) (srev s)).

Definition fence_open : string := "```json" ++ nl.
Definition fence_close : string := "```".

Definition cleaned (rawResult : string) : string :=
  trim (remove_suffix fence_close (remove_prefix fence_open rawResult)).

Definition invalid_result : value := VObj [("error", VStr "Invalid result format")].

(** The [console.error] of the [catch] branch writes to the console only
    and is not part of the model. *)
Definition formatResponse (rawResult : string) : value :=
  match JSON_parse (cleaned rawResult) with
  | Some parsedResult => parsedResult
  | None => invalid_result
  end.

(** ** Effects, programs and the world *)

(** What the outside can observe of a run, most recent event first. *)
Inductive event :=
| EvRedisGet (key : string)
| EvRedisSet (key val : string) (ttl : Z)
| EvGenerate (request : value)
| EvImport
| EvLog (level message : string) (meta : value)
| EvDelay (ms : Z).

(** The effects of the code, indexed by the type of their answer.  The
    fields of the two singleton services are read and written through
    effects as well, since concurrent calls share them. *)
Inductive eff : Type -> Type :=
| RedisGet (key : string) : eff (outcome (option string))
| RedisSet (key val : string) (ttl : Z) : eff (outcome string)
| Generate (request : value) : eff (outcome string)
| ImportGenAI : eff bool
| Log (level message : string) (meta : value) : eff unit
| Now : eff Z
| CacheState : eff (bool * bool)
| Initialized : eff bool
| SetInitialized (b : bool) : eff unit
| Delay (ms : Z) : eff unit.

(** An asynchronous function body: it returns, throws, or performs an effect
    and continues with its answer. *)
Inductive prog (A : Type) : Type :=
| Ret (a : A)
| Fail (e : error)
| Do {X : Type} (op : eff X) (k : X -> prog A).
Arguments Ret {A} a.
Arguments Fail {A} e.
Arguments Do {A X} op k.

Fixpoint bind {A B : Type} (p : prog A) (f : A -> prog B) : prog B :=
  match p with
  | Ret a => f a
  | Fail e => Fail e
  | Do op k => Do op (fun x => bind (k x) f)
  end.

(** [try { p } catch (error) { h error }]. *)
Fixpoint try_catch {A : Type} (p : prog A) (h : error -> prog A) : prog A :=
  match p with
  | Ret a => Ret a
  | Fail e => h e
  | Do op k => Do op (fun x => try_catch (k x) h)
  end.

Declare Scope prog_scope.
Delimit Scope prog_scope with prog.
Notation "x <- p ;; q" := (bind p (fun x => q))
  (at level 61, p at next level, right associativity) : prog_scope.
Notation "p ;; q" := (bind p (fun _ => q))
  (at level 61, right associativity) : prog_scope.
Open Scope prog_scope.

Definition perform_ {X : Type} (op : eff X) : prog X := Do op Ret.

(** [await] of a promise that is fulfilled or rejected by the outside. *)
Definition await {X : Type} (op : eff (outcome X)) : prog X :=
  Do op (fun o => match o with Ok x => Ret x | Throw e => Fail e end).

(** The result of a pure computation that may throw. *)
Definition lift {A : Type} (o : outcome A) : prog A :=
  match o with
  | Ok a => Ret a
  | Throw e => Fail e
  end.

(** The state of the process and of its two external services.
    - [cache_client], [cache_connected]: the fields [client] (set or [null])
      and [isConnected] of the cache service;
    - [redis]: the entries of the Redis server, each with the instant (in
      milliseconds) at which it expires; [redis_faults]: for the coming
      commands in turn, whether the command fails;
    - [ai_initialized]: the field [initialized] of the AI service (the field
      [model] is set exactly when it holds); [import_ok]: whether the dynamic
      import of the client library succeeds;
    - [model]: the answer of the model capability to its [n]-th invocation;
    - [clock]: the current instant, in milliseconds. *)
Record World := mkWorld {
  cache_client : bool;
  cache_connected : bool;
  redis : string -> option (string * Z);
  redis_faults : list bool;
  ai_initialized : bool;
  import_ok : bool;
  model : nat -> value -> outcome string;
  clock : Z;
  trace : list event
}.

Definition emit (ev : event) (w : World) : World :=
  mkWorld (cache_client w) (cache_connected w) (redis w) (redis_faults w)
    (ai_initialized w) (import_ok w) (model w) (clock w) (ev :: trace w).

Definition set_redis (r : string -> option (string * Z)) (w : World) : World :=
  mkWorld (cache_client w) (cache_connected w) r (redis_faults w)
    (ai_initialized w) (import_ok w) (model w) (clock w) (trace w).

Definition set_faults (f : list bool) (w : World) : World :=
  mkWorld (cache_client w) (cache_connected w) (redis w) f
    (ai_initialized w) (import_ok w) (model w) (clock w) (trace w).

Definition set_initialized (b : bool) (w : World) : World :=
  mkWorld (cache_client w) (cache_connected w) (redis w) (redis_faults w)
    b (import_ok w) (model w) (clock w) (trace w).

(** Time passing. *)
Definition elapse (ms : Z) (w : World) : World :=
  mkWorld (cache_client w) (cache_connected w) (redis w) (redis_faults w)
    (ai_initialized w) (import_ok w) (model w) (clock w + ms) (trace w).

(** Does the next Redis command fail, and the faults left after it. *)
Definition next_fault (w : World) : bool * World :=
  match redis_faults w with
  | [] => (false, w)
  | b :: rest => (b, set_faults rest w)
  end.

(** The live entry of a key. *)
Definition redis_lookup (w : World) (key : string) : option string :=
  match redis w key with
  | Some (v, expiry) => if clock w <? expiry then Some v else None
  | None => None
  end.

Definition redis_error : error := Error "The client is closed".

Definition is_generate (ev : event) : bool :=
  match ev with EvGenerate _ => true | _ => false end.

(** Number of invocations of the model capability so far. *)
Definition model_calls (w : World) : nat :=
  List.length (filter is_generate (trace w)).

Definition perform {X : Type} (op : eff X) (w : World) : X * World :=
  match op in eff X return X * World with
  | RedisGet key =>
      let w1 := emit (EvRedisGet key) w in
      let (fault, w2) := next_fault w1 in
      if fault then (Throw redis_error, w2) else (Ok (redis_lookup w2 key), w2)
  | RedisSet key val ttl =>
      let w1 := emit (EvRedisSet key val ttl) w in
      let (fault, w2) := next_fault w1 in
      if fault then (Throw redis_error, w2)
      else
        (Ok "OK",
         set_redis (fun k => if String.eqb k key then Some (val, clock w2 + 1000 * ttl)
                             else redis w2 k) w2)
  | Generate request =>
      (model w (model_calls w) request, emit (EvGenerate request) w)
  | ImportGenAI => (import_ok w, emit EvImport w)
  | Log level message meta => (tt, emit (EvLog level message meta) w)
  | Now => (clock w, w)
  | CacheState => ((cache_client w, cache_connected w), w)
  | Initialized => (ai_initialized w, w)
  | SetInitialized b => (tt, set_initialized b w)
  | Delay ms => (tt, emit (EvDelay ms) (elapse ms w))
  end.

(** The run of one call with nothing else running. *)
Fixpoint run {A : Type} (p : prog A) (w : World) : outcome A * World :=
  match p with
  | Ret a => (Ok a, w)
  | Fail e => (Throw e, w)
  | Do op k => let (x, w') := perform op w in run (k x) w'
  end.

(** ** The cache service, [src/services/cache.service.js] *)

Module CacheService.

Definition error_meta (key : string) (e : error) : value :=
  VObj [("key", VStr key); ("error", VStr (err_message e))].

Definition get (key : string) : prog (option string) :=
  try_catch
    (st <- perform_ CacheState ;;
     if negb (fst st) || negb (snd st) then Ret None
     else
       value <- await (RedisGet key) ;;
       Ret value)
    (fun error =>
       perform_ (Log "error" "Error getting value from cache" (error_meta key error)) ;;
       Ret None).

Definition defaultTTL : Z := 3600.

Definition set (key val : string) (ttl : Z) : prog bool :=
  try_catch
    (st <- perform_ CacheState ;;
     if negb (fst st) || negb (snd st) then Ret false
     else
       result <- await (RedisSet key val ttl) ;;
       Ret (String.eqb result "OK"))
    (fun error =>
       perform_ (Log "error" "Error setting value in cache" (error_meta key error)) ;;
       Ret false).

End CacheService.

(** ** The AI service, [src/services/ai.service.js] *)

Module AIService.

Section WithDivision.

(** The operator [/] of JavaScript on two values (conversion to numbers and
    IEEE-754 division). *)
Variable fdiv : value -> value -> number.

Definition cacheTimeout : Z := 3600.

Definition num (n : nat) : value := VNum (num_of_nat n).

Definition init : prog unit :=
  ok <- perform_ ImportGenAI ;;
  if ok then
    perform_ (SetInitialized true) ;;
    perform_ (Log "info" "Google GenAI client initialized successfully" VUndef)
  else
    perform_ (Log "error" "Failed to initialize Google GenAI client"
                (VObj [("error", VStr "Cannot find package '@google/genai'")])) ;;
    perform_ (SetInitialized false).

Definition ensureInitialized : prog unit :=
  i <- perform_ Initialized ;;
  if negb i then
    init ;;
    i' <- perform_ Initialized ;;
    if negb i' then Fail (Error "Failed to initialize Google GenAI client")
    else Ret tt
  else Ret tt.

(** [(await this.model.generateContent(request)).text]; [this.model] is
    [undefined] until [init] has succeeded. *)
Definition model_generateContent (request : value) : prog string :=
  i <- perform_ Initialized ;;
  if i then await (Generate request)
  else Fail (TypeError "Cannot read properties of undefined (reading 'generateContent')").

Definition flash (contents : value) : value :=
  VObj [("model", VStr "gemini-2.0-flash"); ("contents", contents)].

Definition now_value : prog value :=
  t <- perform_ Now ;; Ret (VNum (num_of_Z t)).

Definition summarizePrompt (style maxLength content : value) : string :=
  "You are an expert content summarizer. Create " ++ to_str style ++
  " summaries that capture the key points and main ideas. Keep summaries under " ++
  to_str maxLength ++ " words." ++ nl ++ nl ++
  "     Content to summarize:" ++ nl ++
  "     " ++ to_str content.

Definition summarizeText (content options : value) : prog value :=
  let options := match options with VUndef => VObj [] | _ => options end in
  m <- lift (get options "maxLength") ;;
  let maxLength := js_or m (num 150) in
  s <- lift (get options "style") ;;
  let style := js_or s (VStr "concise") in
  summary <- model_generateContent (flash (VStr (summarizePrompt style maxLength content))) ;;
  originalLength <- lift (get content "length") ;;
  let summaryLength := num (utf16_length summary) in
  processingTime <- now_value ;;
  Ret (VObj [("type", VStr "summarize");
             ("result", VObj [("summary", VStr summary);
                              ("originalLength", originalLength);
                              ("summaryLength", summaryLength);
                              ("compressionRatio", VNum (fdiv originalLength summaryLength))]);
             ("processingTime", processingTime)]).

Definition sentimentPrompt (content : value) : string :=
  "You are a sentiment analysis expert. Analyze the sentiment of the given text and provide:" ++ nl ++
  "  1. Overall sentiment (positive, negative, neutral)" ++ nl ++
  "  2. Confidence score (0-10)" ++ nl ++
  "  3. Key emotional indicators" ++ nl ++
  "  4. Brief explanation" ++ nl ++ nl ++
  "  Respond in JSON format only" ++ nl ++ nl ++
  "  Text to analyze:" ++ nl ++
  "  " ++ to_str content ++ ".".

Definition analyzeSentiment (content : value) : prog value :=
  ensureInitialized ;;
  try_catch
    (text <- model_generateContent (flash (VStr (sentimentPrompt content))) ;;
     let result := formatResponse text in
     processingTime <- now_value ;;
     Ret (VObj [("type", VStr "analyze-sentiment");
                ("result", result);
                ("processingTime", processingTime)]))
    (fun error =>
       perform_ (Log "error" "Sentiment analysis failed"
                   (VObj [("error", VStr (err_message error))])) ;;
       Fail error).

Definition keywordsPrompt (content : value) : string :=
  "Extract the most important keywords and key phrases from the given text. Return a JSON array of keywords with their relevance scores (0-10). Focus on nouns, important adjectives, and key concepts." ++ nl ++
  "    Text to analyze:" ++ nl ++
  "    " ++ to_str content.

(** The local variable [keywords] of [extractKeywords]: [JSON.parse]
    converts its argument, here the value returned by [formatResponse], to a
    string first. *)
Definition keywords_of (response : value) : value :=
  match JSON_parse (to_str response) with
  | Some keywords => keywords
  | None => VArr []
  end.

Definition extractKeywords (content : value) : prog value :=
  text <- model_generateContent (flash (VStr (keywordsPrompt content))) ;;
  let response := formatResponse text in
  let keywords := keywords_of response in
  processingTime <- now_value ;;
  Ret (VObj [("type", VStr "extract-keywords");
             ("result", VObj [("response", response)]);
             ("processingTime", processingTime)]).

Definition contentPrompt (style prompt : value) : string :=
  "You are a professional content creator. Generate high-quality, " ++ to_str style ++
  " content based on the user's request. Ensure the content is engaging, well-structured, and appropriate for the intended audience." ++ nl ++ nl ++
  "     User request:" ++ nl ++
  "     " ++ to_str prompt.

Definition generateContent (prompt options : value) : prog value :=
  let style := js_or (get_opt options "style") (VStr "professional") in
  let systemPrompt := contentPrompt style prompt in
  let generationConfig :=
    VObj [("temperature", js_or (get_opt options "temperature") (VNum (Dec false [D7] 0)));
          ("maxOutputTokens", js_or (get_opt options "maxTokens") (num 1024))] in
  generatedContent <-
    model_generateContent
      (VObj [("model", VStr "gemini-2.0-flash");
             ("contents", VArr [VObj [("role", VStr "user");
                                      ("parts", VArr [VObj [("text", VStr systemPrompt)]])]]);
             ("generationConfig", generationConfig)]) ;;
  processingTime <- now_value ;;
  Ret (VObj [("type", VStr "generate-content");
             ("result", VObj [("content", VStr generatedContent);
                              ("wordCount", num (split_ws_length generatedContent))]);
             ("processingTime", processingTime)]).

Definition formatting_instruction : string :=
  "Preserve the original formatting and structure.".

Definition translatePrompt (targetLanguage preserveFormatting content : value) : string :=
  "You are a professional translator. Translate the given text to " ++
  to_str targetLanguage ++ ". " ++
  (if truthy preserveFormatting then formatting_instruction else "") ++
  " Ensure accuracy and natural flow in the target language." ++ nl ++ nl ++
  "    Text to translate:" ++ nl ++
  "    " ++ to_str content.

Definition translateText (content options : value) : prog value :=
  let targetLanguage := js_or (get_opt options "targetLanguage") (VStr "Spanish") in
  let preserveFormatting := js_or (get_opt options "preserveFormatting") (VBool true) in
  translatedText <-
    model_generateContent
      (flash (VStr (translatePrompt targetLanguage preserveFormatting content))) ;;
  processingTime <- now_value ;;
  Ret (VObj [("type", VStr "translate");
             ("result", VObj [("originalText", content);
                              ("translatedText", VStr translatedText);
                              ("sourceLanguage", VStr "auto-detected");
                              ("targetLanguage", targetLanguage)]);
             ("processingTime", processingTime)]).

(** [JSON.stringify] at top level; [hash.update] rejects [undefined]. *)
Definition generateCacheKey (request : value) : outcome string :=
  match stringify request with
  | None =>
      Throw (TypeError ("The " ++ dq ++ "data" ++ dq ++ " argument must be of type string or an instance of Buffer, TypedArray, or DataView. Received undefined"))
  | Some serialized =>
      let hash := MD5.hex serialized in
      match get request "type" with
      | Throw e => Throw e
      | Ok type => Ok ("ai:" ++ to_str type ++ ":" ++ hash)
      end
  end.

(** [JSON.stringify(result)] for a result, which is always an object. *)
Definition JSON_stringify (v : value) : string :=
  match stringify v with
  | Some serialized => serialized
  | None => "undefined"
  end.

(** [if (cachedResult)]: neither [null] nor the empty string. *)
Definition hit (cachedResult : option string) : bool :=
  match cachedResult with
  | Some serialized => negb (String.eqb serialized "")
  | None => false
  end.

(** [request.content.length]. *)
Definition contentLength (request : value) : prog value :=
  content <- lift (get request "content") ;;
  lift (get content "length").

Definition unsupported (type : value) : error :=
  Error ("Unsupported AI processing type: " ++ to_str type).

(** The [switch] of [processContent]. *)
Definition dispatch (request : value) : prog value :=
  type <- lift (get request "type") ;;
  match type with
  | VStr t =>
      if String.eqb t "summarize" then
        content <- lift (get request "content") ;;
        options <- lift (get request "options") ;;
        summarizeText content options
      else if String.eqb t "analyze-sentiment" then
        content <- lift (get request "content") ;;
        analyzeSentiment content
      else if String.eqb t "extract-keywords" then
        content <- lift (get request "content") ;;
        extractKeywords content
      else if String.eqb t "generate-content" then
        content <- lift (get request "content") ;;
        options <- lift (get request "options") ;;
        generateContent content options
      else if String.eqb t "translate" then
        content <- lift (get request "content") ;;
        options <- lift (get request "options") ;;
        translateText content options
      else Fail (unsupported type)
  | _ => Fail (unsupported type)
  end.

Definition processContent (request : value) : prog value :=
  startTime <- perform_ Now ;;
  cacheKey <- lift (generateCacheKey request) ;;
  try_catch
    (cachedResult <- CacheService.get cacheKey ;;
     if hit cachedResult then
       processingType <- lift (get request "type") ;;
       len <- contentLength request ;;
       perform_ (Log "info" "AI processing result served from cache"
                   (VObj [("processingType", processingType);
                          ("contentLength", len);
                          ("cacheHit", VBool true)])) ;;
       match JSON_parse (match cachedResult with Some c => c | None => "" end) with
       | Some parsed => Ret parsed
       | None => Fail (SyntaxError "Unexpected token in JSON")
       end
     else
       result <- dispatch request ;;
       CacheService.set cacheKey (JSON_stringify result) cacheTimeout ;;
       endTime <- perform_ Now ;;
       processingType <- lift (get request "type") ;;
       len <- contentLength request ;;
       tokensUsed <- lift (get result "tokensUsed") ;;
       perform_ (Log "info" "AI processing completed"
                   (VObj [("processingType", processingType);
                          ("contentLength", len);
                          ("processingTime", VNum (num_of_Z (endTime - startTime)));
                          ("tokensUsed", tokensUsed)])) ;;
       Ret result)
    (fun error =>
       processingType <- lift (get request "type") ;;
       len <- contentLength request ;;
       perform_ (Log "error" "AI processing failed"
                   (VObj [("error", VStr (err_message error));
                          ("processingType", processingType);
                          ("contentLength", len)])) ;;
       Fail error).

(** *** [Promise.all] over the calls of a window

    The calls of a window run interleaved: at each step the event loop
    resumes one of them, which performs its next effect.  The order is given
    by [sched], the indices of the calls to resume in turn (a settled call
    ignores its turn); once [sched] is exhausted the calls still pending are
    completed one after the other.  The promise is rejected as soon as one
    call is, with the error of that call, and fulfilled with the values of
    all calls, in the order of the calls, once all are. *)

Definition step {A : Type} (p : prog A) (w : World) : prog A * World :=
  match p with
  | Do op k => let (x, w') := perform op w in (k x, w')
  | _ => (p, w)
  end.

Fixpoint step_at {A : Type} (i : nat) (pool : list (prog A)) (w : World) {struct pool}
  : list (prog A) * World :=
  match pool with
  | [] => ([], w)
  | p :: rest =>
      match i with
      | O => let (p', w') := step p w in (p' :: rest, w')
      | S i' => let (rest', w') := step_at i' rest w in (p :: rest', w')
      end
  end.

Fixpoint first_rejection {A : Type} (pool : list (prog A)) : option error :=
  match pool with
  | [] => None
  | Fail e :: _ => Some e
  | _ :: rest => first_rejection rest
  end.

Fixpoint finish {A : Type} (pool : list (prog A)) (w : World) : outcome (list A) * World :=
  match pool with
  | [] => (Ok [], w)
  | p :: rest =>
      match run p w with
      | (Throw e, w') => (Throw e, w')
      | (Ok v, w') =>
          match finish rest w' with
          | (Throw e, w'') => (Throw e, w'')
          | (Ok vs, w'') => (Ok (v :: vs), w'')
          end
      end
  end.

Fixpoint promiseAll {A : Type} (sched : list nat) (pool : list (prog A)) (w : World)
  : outcome (list A) * World :=
  match first_rejection pool with
  | Some e => (Throw e, w)
  | None =>
      match sched with
      | [] => finish pool w
      | i :: sched' => let (pool', w') := step_at i pool w in promiseAll sched' pool' w'
      end
  end.

(** *** [batchProcess] *)

Definition batchSize : nat := 5.

(** The [for] loop of [batchProcess], at index [i] with the results
    collected so far; [scheds k] is the interleaving of window [k]. *)
Fixpoint batchLoop (fuel : nat) (scheds : nat -> list nat) (requests : list value)
  (i : nat) (results : list value) (w : World) : outcome (list value) * World :=
  match fuel with
  | O => (Ok results, w)
  | S fuel' =>
      if (i <? List.length requests)%nat then
        let batch := firstn batchSize (skipn i requests) in
        let batchPromises := map processContent batch in
        match promiseAll (scheds (i / batchSize)%nat) batchPromises w with
        | (Throw error, w1) =>
            let (_, w2) :=
              perform (Log "error" "Batch processing failed"
                         (VObj [("batchIndex", num (i / batchSize));
                                ("error", VStr (err_message error))])) w1 in
            (Throw error, w2)
        | (Ok batchResults, w1) =>
            let results' := (results ++ batchResults)%list in
            let w2 :=
              if (i + batchSize <? List.length requests)%nat
              then snd (perform (Delay 1000) w1) else w1 in
            batchLoop fuel' scheds requests (i + batchSize) results' w2
        end
      else (Ok results, w)
  end.

Definition batchProcess (scheds : nat -> list nat) (requests : list value) (w : World)
  : outcome (list value) * World :=
  batchLoop (List.length requests) scheds requests 0 [] w.

End WithDivision.

End AIService.

(** ** The AI controller *)

Module AIController.

Section WithDivision.

Variable fdiv : value -> value -> number.

Record response := mkResponse { status : Z; body : value }.

Definition BAD_REQUEST : Z := 400.
Definition OK : Z := 200.
Definition INTERNAL_SERVER_ERROR : Z := 500.

(** [s.includes(p)]. *)
Fixpoint includes (p s : string) : bool :=
  match strip_prefix p s with
  | Some _ => true
  | None =>
      match s with
      | EmptyString => false
      | String _ s' => includes p s'
      end
  end.

Definition message (m : string) : value := VObj [("message", VStr m)].

Definition processContent (req_body : value) : prog response :=
  try_catch
    (type <- lift (get req_body "type") ;;
     content <- lift (get req_body "content") ;;
     options <- lift (get req_body "options") ;;
     if negb (truthy type) || negb (truthy content) then
       Ret (mkResponse BAD_REQUEST (message "Type and content are required fields"))
     else
       result <- AIService.processContent fdiv
                   (VObj [("type", type); ("content", content);
                          ("options", js_or options (VObj []))]) ;;
       Ret (mkResponse OK result))
    (fun error =>
       perform_ (Log "error" "Error in AI content processing"
                   (VObj [("error", VStr (err_message error))])) ;;
       if includes "Unsupported AI processing type" (err_message error) then
         Ret (mkResponse BAD_REQUEST (message (err_message error)))
       else
         Ret (mkResponse INTERNAL_SERVER_ERROR
                (VObj [("message", VStr "AI processing failed");
                       ("error", VStr (err_message error))]))).

(** The validation loop of [batchProcess]: [Ok false] when a request lacks
    its type or its content. *)
Fixpoint validate (requests : list value) : outcome bool :=
  match requests with
  | [] => Ok true
  | request :: rest =>
      match get request "type" with
      | Throw e => Throw e
      | Ok type =>
          if negb (truthy type) then Ok false
          else
            match get request "content" with
            | Throw e => Throw e
            | Ok content => if negb (truthy content) then Ok false else validate rest
            end
      end
  end.

Definition batch_failure (error : error) (w : World) : response * World :=
  let (_, w') :=
    perform (Log "error" "Error in AI batch processing"
               (VObj [("error", VStr (err_message error))])) w in
  (mkResponse INTERNAL_SERVER_ERROR
     (VObj [("message", VStr "AI batch processing failed");
            ("error", VStr (err_message error))]), w').

Definition batchProcess (scheds : nat -> list nat) (req_body : value) (w : World)
  : response * World :=
  match get req_body "requests" with
  | Throw error => batch_failure error w
  | Ok (VArr (first :: others)) =>
      let requests := first :: others in
      match validate requests with
      | Throw error => batch_failure error w
      | Ok false =>
          (mkResponse BAD_REQUEST (message "Each request must include type and content"), w)
      | Ok true =>
          match AIService.batchProcess fdiv scheds requests w with
          | (Throw error, w') => batch_failure error w'
          | (Ok results, w') =>
              (mkResponse OK (VObj [("results", VArr results);
                                    ("count", VNum (num_of_nat (List.length results)))]), w')
          end
      end
  | Ok _ => (mkResponse BAD_REQUEST (message "Valid requests array is required"), w)
  end.

End WithDivision.

End AIController.

(** ** The image of a value under [JSON.parse(JSON.stringify(v))] *)

Definition is_undef (v : value) : bool :=
  match v with VUndef => true | _ => false end.

(** The properties that [JSON.stringify] writes. *)
Definition defined_fields (fields : list (string * value)) : list (string * value) :=
  filter (fun kv => negb (is_undef (snd kv))) fields.

(** What comes back from the serialization: [undefined] properties are
    gone, [undefined] elements, [NaN] and the infinities are [null], numbers
    are in canonical form, and a property that occurs twice keeps its first
    place and its last value. *)
Fixpoint sanitize (v : value) : value :=
  match v with
  | VUndef => VNull
  | VNull => VNull
  | VBool b => VBool b
  | VNum (Dec neg ds pt) => VNum (normalize (Dec neg ds pt))
  | VNum _ => VNull
  | VStr s => VStr s
  | VArr l => VArr (map sanitize l)
  | VObj fields =>
      VObj ((fix members (fs : list (string * value)) (acc : list (string * value))
               : list (string * value) :=
               match fs with
               | [] => acc
               | (k, e) :: fs' =>
                   match e with
                   | VUndef => members fs' acc
                   | _ => members fs' (obj_set acc k (sanitize e))
                   end
               end) fields [])
  end.

(** The text of a value as an element of an array. *)
Definition elem_str (v : value) : string :=
  match stringify v with
  | Some s => s
  | None => "null"
  end.

(** A bound on the depth of the recursion of [parse_value] on the text of a
    value. *)
Fixpoint size (v : value) : nat :=
  match v with
  | VArr l => S (fold_right (fun e n => S (size e) + n)%nat O l)
  | VObj fields =>
      S ((fix members (fs : list (string * value)) : nat :=
            match fs with
            | [] => O
            | (_, VUndef) :: fs' => members fs'
            | (_, e) :: fs' => (S (size e) + members fs')%nat
            end) fields)
  | _ => 1%nat
  end.

(** What may follow a value in a JSON text: nothing, a comma, a closing
    bracket or a closing brace. *)
Definition follow (rest : string) : bool :=
  match rest with
  | EmptyString => true
  | String c _ => ((code c =? 44) || (code c =? 93) || (code c =? 125))%nat
  end.

(** ** Vocabulary of the round trip *)

(** A numeral in canonical form: its first and its last digit are not zero. *)
Definition canonical (ds : list digit) : Prop :=
  ds <> [] /\ strip_leading ds = ds /\ strip_leading (rev ds) = rev ds.

(** The characters at which a run of digits written by [number_to_string]
    stops. *)
Definition stops (s : string) : Prop := take_digits s = ([], s).

(** The exponent part of a numeral in scientific notation. *)
Definition exponent_str (e : Z) : string :=
  "e" ++ (if e <? 0 then "-" else "+") ++ digits_str (N_digits (Z.abs_N e)).

(** [parse_number] after the sign. *)
Definition number_tail (neg : bool) (s : string) : option (number * string) :=
  match parse_int s with
  | None => None
  | Some (ip, s2) =>
      match parse_frac s2 with
      | None => None
      | Some (fp, s3) =>
          match parse_exp s3 with
          | None => None
          | Some (e, s4) =>
              Some (normalize (Dec neg (ip ++ fp) (Z.of_nat (List.length ip) + e)), s4)
          end
      end
  end.

(** The digits and the exponent of a canonical numeral, as
    [number_to_string] writes them after the sign. *)
Definition number_body (d : digit) (rest : list digit) (pt : Z) : string :=
  let ds := d :: rest in
  let k := Z.of_nat (List.length ds) in
  if (k <=? pt) && (pt <=? 21) then
    digits_str ds ++ repeat_str "0" (Z.to_nat (pt - k))
  else if (0 <? pt) && (pt <=? 21) then
    digits_str (firstn (Z.to_nat pt) ds) ++ "." ++ digits_str (skipn (Z.to_nat pt) ds)
  else if (-6 <? pt) && (pt <=? 0) then
    "0." ++ repeat_str "0" (Z.to_nat (- pt)) ++ digits_str ds
  else
    str1 (char_of_digit d) ++
    match rest with [] => "" | _ => "." ++ digits_str rest end ++
    exponent_str (pt - 1).

(** The text of a property of an object. *)
Definition member_str (kv : string * value) : string :=
  quote (fst kv) ++ ":" ++ elem_str (snd kv).

(** The properties read so far, extended by one. *)
Definition collect (acc : list (string * value)) (kv : string * value) :=
  obj_set acc (fst kv) (sanitize (snd kv)).

(** The size of the elements of an array, or of the properties of an
    object, counted with their separators. *)
Definition weight (l : list value) : nat :=
  fold_right (fun e n => S (size e) + n)%nat O l.

(** The first character of the text of a value. *)
Definition starter (c : ascii) : bool :=
  let n := code c in
  ((n =? 110) || (n =? 116) || (n =? 102) || (n =? 34) || (n =? 91) || (n =? 123)
   || (n =? 45) || ((48 <=? n) && (n <=? 57)))%nat.

(** The first character of a numeral. *)
Definition number_start (c : ascii) : bool :=
  let n := code c in ((n =? 45) || ((48 <=? n) && (n <=? 57)))%nat.

(** [parse_value] reads the text of [v] back, whatever follows it. *)
Definition reads_back (v : value) : Prop :=
  forall (fuel : nat) (tl : string),
    (size v <= fuel)%nat -> follow tl = true ->
    parse_value fuel (elem_str v ++ tl) = Some (sanitize v, tl).

(** A value as [JSON.parse] builds them. *)
Inductive clean : value -> Prop :=
| clean_null : clean VNull
| clean_bool (b : bool) : clean (VBool b)
| clean_num (neg : bool) (ds : list digit) (pt : Z) :
    normalize (Dec neg ds pt) = Dec neg ds pt -> clean (VNum (Dec neg ds pt))
| clean_str (s : string) : clean (VStr s)
| clean_arr (l : list value) : Forall clean l -> clean (VArr l)
| clean_obj (fields : list (string * value)) :
    Forall (fun kv => clean (snd kv)) fields -> NoDup (map fst fields) ->
    clean (VObj fields).

Definition clean_fields (fields : list (string * value)) : Prop :=
  Forall (fun kv => clean (snd kv)) fields /\ NoDup (map fst fields).

(** ** Vocabulary of the properties *)

(** The cache backend can be reached: the client exists and is connected. *)
Definition available (w : World) : bool := cache_client w && cache_connected w.

(** The next Redis command fails. *)
Definition faulty (w : World) : bool :=
  match redis_faults w with
  | [] => false
  | b :: _ => b
  end.

(** What a lookup of [key] answers in [w]. *)
Definition cache_answer (w : World) (key : string) : option string :=
  if available w && negb (faulty w) then redis_lookup w key else None.

(** The key under which the result of a request object is cached. *)
Definition fingerprint (request : value) : string :=
  "ai:" ++ to_str (get_opt request "type") ++ ":" ++
  MD5.hex (AIService.JSON_stringify request).

Definition is_redis_get (ev : event) : bool :=
  match ev with EvRedisGet _ => true | _ => false end.

Definition is_redis_set (ev : event) : bool :=
  match ev with EvRedisSet _ _ _ => true | _ => false end.

Definition count (f : event -> bool) (w : World) : nat :=
  List.length (filter f (trace w)).

(** A request as the controller lets it through: an object whose type and
    content are present. *)
Definition valid_request (request : value) : bool :=
  match request with
  | VObj fields => truthy (get_opt request "type") && truthy (get_opt request "content")
  | _ => false
  end.

(** The five operations of the [switch]. *)
Definition supported (type : value) : bool :=
  match type with
  | VStr t =>
      String.eqb t "summarize" || String.eqb t "analyze-sentiment"
      || String.eqb t "extract-keywords" || String.eqb t "generate-content"
      || String.eqb t "translate"
  | _ => false
  end.

Definition is_nullish (v : value) : bool :=
  match v with
  | VUndef | VNull => true
  | _ => false
  end.

(** A request without its type or without its content. *)
Definition lacks_field (request : value) : bool :=
  negb (truthy (get_opt request "type")) || negb (truthy (get_opt request "content")).

(** [ends W p o]: the call [p] can end with [o] when each of its effects
    is answered as some world satisfying [W] answers it. *)
Inductive ends {A : Type} (W : World -> Prop) : prog A -> outcome A -> Prop :=
| ends_ret (a : A) : ends W (Ret a) (Ok a)
| ends_fail (e : error) : ends W (Fail e) (Throw e)
| ends_do {X : Type} (op : eff X) (k : X -> prog A) (w : World) (o : outcome A) :
    W w -> ends W (k (fst (perform op w))) o -> ends W (Do op k) o.

(** A property of the world that no effect destroys. *)
Definition stable (W : World -> Prop) : Prop :=
  forall (X : Type) (op : eff X) (w : World), W w -> W (snd (perform op w)).

(** The calls of [pool] can end with the values [vs], in this order. *)
Definition fulfilled_by {A : Type} (W : World -> Prop) (pool : list (prog A)) (vs : list A)
  : Prop :=
  Forall2 (fun p v => ends W p (Ok v)) pool vs.

(** One of the calls of [pool] can end with the error [e]. *)
Definition rejected_by {A : Type} (W : World -> Prop) (pool : list (prog A)) (e : error)
  : Prop :=
  Exists (fun p => ends W p (Throw e)) pool.

Definition settles {A : Type} (W : World -> Prop) (pool : list (prog A))
  (o : outcome (list A)) : Prop :=
  match o with
  | Ok vs => fulfilled_by W pool vs
  | Throw e => rejected_by W pool e
  end.

Section Windows.

Variable fdiv : value -> value -> number.
Variable scheds : nat -> list nat.
Variable requests : list value.

(** The requests of window [k]. *)
Definition window_requests (k : nat) : list value :=
  firstn AIService.batchSize (skipn (k * AIService.batchSize) requests).

(** The [Promise.all] of window [k], started in [w]. *)
Definition window (k : nat) (w : World) : outcome (list value) * World :=
  AIService.promiseAll (scheds k)
    (map (AIService.processContent fdiv) (window_requests k)) w.

(** The pause after window [k], unless it is the last one. *)
Definition cooldown (k : nat) (w : World) : World :=
  if (k * AIService.batchSize + AIService.batchSize <? List.length requests)%nat
  then snd (perform (Delay 1000) w) else w.

(** [reaches k results w wk]: started in [w], the windows before [k] have
    all been fulfilled, with [results] in all, and window [k] is about to
    start in [wk]. *)
Inductive reaches : nat -> list value -> World -> World -> Prop :=
| reaches_first (w : World) : reaches 0 [] w w
| reaches_next (k : nat) (results batchResults : list value) (w wk wk' : World) :
    reaches k results w wk ->
    (k * AIService.batchSize < List.length requests)%nat ->
    window k wk = (Ok batchResults, wk') ->
    reaches (S k) (results ++ batchResults)%list w (cooldown k wk').

End Windows.

(** An effect that neither reaches the cache backend nor the model, and
    takes no time. *)
Definition quiet {X : Type} (op : eff X) : bool :=
  match op with
  | RedisGet _ | RedisSet _ _ _ | Generate _ | Delay _ => false
  | _ => true
  end.

(** [footprint P n p]: the call [p] sends no command to the cache, does not
    pause, invokes the model at most [n] times, and returns only values that
    satisfy [P]. *)
Inductive footprint {A : Type} (P : A -> Prop) : nat -> prog A -> Prop :=
| fp_ret (n : nat) (a : A) : P a -> footprint P n (Ret a)
| fp_fail (n : nat) (e : error) : footprint P n (Fail e)
| fp_quiet (n : nat) {X : Type} (op : eff X) (k : X -> prog A) :
    quiet op = true -> (forall x, footprint P n (k x)) -> footprint P n (Do op k)
| fp_generate (n : nat) (request : value) (k : outcome string -> prog A) :
    (forall x, footprint P n (k x)) -> footprint P (S n) (Do (Generate request) k).

(** The cache and the clock are the same in both worlds. *)
Definition same_cache (w w' : World) : Prop :=
  cache_client w' = cache_client w /\ cache_connected w' = cache_connected w
  /\ redis w' = redis w /\ redis_faults w' = redis_faults w /\ clock w' = clock w.

Definition is_object (v : value) : Prop := exists fields, v = VObj fields.

(** The second call comes [d] milliseconds after the first, within the time
    to live: of the entry that the first call writes, and of an entry that
    the first call finds. *)
Definition within_ttl (w : World) (key : string) (d : Z) : Prop :=
  0 <= d < 1000 * AIService.cacheTimeout
  /\ forall s expiry, redis w key = Some (s, expiry) -> clock w < expiry -> clock w + d < expiry.

(** The entries that [processContent] and [batchProcess] write to the log. *)
Definition served_from_cache (request : value) : event :=
  EvLog "info" "AI processing result served from cache"
    (VObj [("processingType", get_opt request "type");
           ("contentLength", get_opt (get_opt request "content") "length");
           ("cacheHit", VBool true)]).

Definition processing_failed (request : value) (e : error) : event :=
  EvLog "error" "AI processing failed"
    (VObj [("error", VStr (err_message e));
           ("processingType", get_opt request "type");
           ("contentLength", get_opt (get_opt request "content") "length")]).

Definition processing_completed (request result : value) (processingTime : Z) : event :=
  EvLog "info" "AI processing completed"
    (VObj [("processingType", get_opt request "type");
           ("contentLength", get_opt (get_opt request "content") "length");
           ("processingTime", VNum (num_of_Z processingTime));
           ("tokensUsed", get_opt result "tokensUsed")]).

Definition batch_failed (k : nat) (e : error) : event :=
  EvLog "error" "Batch processing failed"
    (VObj [("batchIndex", AIService.num k); ("error", VStr (err_message e))]).

(** Sample data for the examples. *)
Module Sample.

Definition fdiv (a b : value) : number := NaN.

Definition answers (n : nat) (request : value) : outcome string :=
  Ok ("answer " ++ number_to_string (num_of_nat n)).

(** No cache backend; the model client is ready. *)
Definition offline : World :=
  mkWorld false false (fun _ => None) [] true true answers 1000 [].

(** An empty cache that can be reached. *)
Definition online : World :=
  mkWorld true true (fun _ => None) [] true true answers 1000 [].

Definition request (type content : string) (options : list (string * value)) : value :=
  VObj [("type", VStr type); ("content", VStr content); ("options", VObj options)].

(** Seven requests in two windows, the second request of unknown type. *)
Definition second_fails : list value :=
  [request "translate" "one" []; request "unknown" "two" []; request "translate" "three" [];
   request "translate" "four" []; request "translate" "five" []; request "translate" "six" [];
   request "translate" "seven" []].

(** Seven requests in two windows, the last request of unknown type. *)
Definition last_fails : list value :=
  [request "translate" "one" []; request "translate" "two" []; request "translate" "three" [];
   request "translate" "four" []; request "translate" "five" []; request "translate" "six" [];
   request "unknown" "two" []].

Definition three : list value :=
  [request "translate" "one" []; request "summarize" "two" []; request "translate" "three" []].

(** The calls of a window resumed in the order 2, 0, 1, 1, 0, 2, ... *)
Definition shuffled (k : nat) : list nat := [2; 0; 1; 1; 0; 2; 2; 2; 1; 0; 0]%nat.

(** A model that does not answer in JSON. *)
Definition prose : World :=
  mkWorld false false (fun _ => None) [] true true (fun _ _ => Ok "not json") 1000 [].




End Sample.

(** ** The other methods of the cache service, [src/services/cache.service.js] *)

Module CacheStore.

(** The error with which the client rejects a command whose argument is
    neither a string nor a buffer, before anything is sent: the argument of
    [SET] when [JSON.stringify] has returned [undefined]. *)
Definition invalid_argument : error :=
  TypeError (dq ++ "arguments[2]" ++ dq ++ " must be of type " ++ dq ++ "string | Buffer" ++ dq
             ++ ", got undefined instead.").

(** [this.set(key, serialized, ttl)] where [serialized] is the result of
    [JSON.stringify], [None] for [undefined]. *)
Definition set_serialized (key : string) (serialized : option string) (ttl : Z) : prog bool :=
  match serialized with
  | Some val => CacheService.set key val ttl
  | None =>
      try_catch
        (st <- perform_ CacheState ;;
         if negb (fst st) || negb (snd st) then Ret false
         else Fail invalid_argument)
        (fun error =>
           perform_ (Log "error" "Error setting value in cache"
                       (CacheService.error_meta key error)) ;;
           Ret false)
  end.

Definition setJSON (key : string) (value : value) (ttl : Z) : prog bool :=
  try_catch
    (set_serialized key (stringify value) ttl)
    (fun error =>
       perform_ (Log "error" "Error setting JSON in cache"
                   (CacheService.error_meta key error)) ;;
       Ret false).

(** [if (!value) return null]: [value] is [null] or the empty string. *)
Definition absent (value : option string) : bool :=
  match value with
  | Some serialized => String.eqb serialized ""
  | None => true
  end.

Definition getJSON (key : string) : prog value :=
  try_catch
    (value <- CacheService.get key ;;
     if absent value then Ret VNull
     else
       match JSON_parse (match value with Some serialized => serialized | None => "" end) with
       | Some parsed => Ret parsed
       | None => Fail (SyntaxError "Unexpected token in JSON")
       end)
    (fun error =>
       perform_ (Log "error" "Error getting JSON from cache"
                   (CacheService.error_meta key error)) ;;
       Ret VNull).

(** *** Commands that [processContent] never sends

    The methods below run one at a time; they are written in state-passing
    style.  A command is answered by the server, or fails as [GET] and
    [SET] do, on the next fault of the connection. *)

Definition command {A : Type} (reply : World -> A * World) (w : World)
  : outcome A * World :=
  let (fault, w1) := next_fault w in
  if fault then (Throw redis_error, w1)
  else let (a, w2) := reply w1 in (Ok a, w2).

(** [DEL key]: the number of keys removed. *)
Definition DEL (key : string) (w : World) : Z * World :=
  match redis_lookup w key with
  | Some _ => (1, set_redis (fun k => if String.eqb k key then None else redis w k) w)
  | None => (0, w)
  end.

(** [EXISTS key]: the number of keys that exist. *)
Definition EXISTS (key : string) (w : World) : Z * World :=
  match redis_lookup w key with
  | Some _ => (1, w)
  | None => (0, w)
  end.

(** [EXPIRE key ttl]: 1 when the key exists and its time to live is set, 0
    when there is no such key. *)
Definition EXPIRE (key : string) (ttl : Z) (w : World) : Z * World :=
  match redis_lookup w key with
  | Some val =>
      (1, set_redis (fun k => if String.eqb k key then Some (val, clock w + 1000 * ttl)
                              else redis w k) w)
  | None => (0, w)
  end.

Definition FLUSHDB (w : World) : string * World :=
  ("OK", set_redis (fun _ => None) w).

Definition QUIT (w : World) : string * World := ("OK", w).

Definition log_error (message : string) (meta : value) (w : World) : World :=
  emit (EvLog "error" message meta) w.

Definition unavailable (w : World) : bool :=
  negb (cache_client w) || negb (cache_connected w).

Definition delete (key : string) (w : World) : outcome bool * World :=
  if unavailable w then (Ok false, w)
  else
    match command (DEL key) w with
    | (Ok result, w') => (Ok (0 <? result), w')
    | (Throw error, w') =>
        (Ok false,
         log_error "Error deleting key from cache" (CacheService.error_meta key error) w')
    end.

Definition exists_ (key : string) (w : World) : outcome bool * World :=
  if unavailable w then (Ok false, w)
  else
    match command (EXISTS key) w with
    | (Ok result, w') => (Ok (result =? 1), w')
    | (Throw error, w') =>
        (Ok false,
         log_error "Error checking key existence in cache"
           (CacheService.error_meta key error) w')
    end.

Definition expire (key : string) (ttl : Z) (w : World) : outcome bool * World :=
  if unavailable w then (Ok false, w)
  else
    match command (EXPIRE key ttl) w with
    | (Ok result, w') => (Ok (result =? 1), w')
    | (Throw error, w') =>
        (Ok false,
         log_error "Error setting expiration on key"
           (VObj [("key", VStr key); ("ttl", VNum (num_of_Z ttl));
                  ("error", VStr (err_message error))]) w')
    end.

Definition clear (w : World) : outcome bool * World :=
  if unavailable w then (Ok false, w)
  else
    match command FLUSHDB w with
    | (Ok _, w') => (Ok true, w')
    | (Throw error, w') =>
        (Ok false,
         log_error "Error clearing cache" (VObj [("error", VStr (err_message error))]) w')
    end.

Definition set_connected (b : bool) (w : World) : World :=
  mkWorld (cache_client w) b (redis w) (redis_faults w)
    (ai_initialized w) (import_ok w) (model w) (clock w) (trace w).

(** [close] has no [catch]: a failure of [quit] is thrown to the caller.
    The listener of the event [end], which [init] installs, is not part of
    the model. *)
Definition close (w : World) : outcome unit * World :=
  if cache_client w then
    match command QUIT w with
    | (Ok _, w') =>
        (Ok tt, emit (EvLog "info" "Redis client connection closed" VUndef)
                  (set_connected false w'))
    | (Throw error, w') => (Throw error, w')
    end
  else (Ok tt, w).

End CacheStore.

(** ** Vocabulary of the further properties *)

(** The cache can be reached and none of the coming commands fails. *)
Definition healthy (w : World) : Prop := available w = true /\ redis_faults w = [].

Definition is_import (ev : event) : bool :=
  match ev with EvImport => true | _ => false end.

Definition not_initialized : error := Error "Failed to initialize Google GenAI client".

Definition no_model : error :=
  TypeError "Cannot read properties of undefined (reading 'generateContent')".

(** The request that the controller passes to the service. *)
Definition service_request (body : value) : value :=
  VObj [("type", get_opt body "type"); ("content", get_opt body "content");
        ("options", js_or (get_opt body "options") (VObj []))].

(** The response of the controller to an error of the service. *)
Definition processing_error_response (e : error) : AIController.response :=
  if AIController.includes "Unsupported AI processing type" (err_message e) then
    AIController.mkResponse 400 (VObj [("message", VStr (err_message e))])
  else
    AIController.mkResponse 500
      (VObj [("message", VStr "AI processing failed"); ("error", VStr (err_message e))]).

Definition no_length : error :=
  TypeError "Cannot read properties of undefined (reading 'length')".

(** A call that never pauses: none of its effects is a [Delay]. *)
Definition is_pause {X : Type} (op : eff X) : bool :=
  match op with
  | Delay _ => true
  | _ => false
  end.

Inductive calm {A : Type} : prog A -> Prop :=
| calm_ret (a : A) : calm (Ret a)
| calm_fail (e : error) : calm (Fail e)
| calm_do {X : Type} (op : eff X) (k : X -> prog A) :
    is_pause op = false -> (forall x, calm (k x)) -> calm (Do op k).

Definition is_delay (ev : event) : bool :=
  match ev with EvDelay _ => true | _ => false end.

(** The pauses so far, most recent first. *)
Definition delays (w : World) : list event := filter is_delay (trace w).

(** No pause between [w] and [w']. *)
Definition no_pause (w w' : World) : Prop := delays w' = delays w.

(** The number of pauses of a batch of [n] requests: one less than the
    number of its windows, and none for the empty batch. *)
Definition intervals (n : nat) : nat := ((n - 1) / AIService.batchSize)%nat.

(** Further sample data. *)
Module Scenario.

(** A cache that can be reached, and a model that rejects every request. *)
Definition failing : World :=
  mkWorld true true (fun _ => None) [] true true
    (fun _ _ => Throw (Error "quota exceeded")) 1000 [].

(** No cache; the model client is not initialized yet and can be. *)
Definition cold : World :=
  mkWorld false false (fun _ => None) [] false true Sample.answers 1000 [].

(** A cache holding one entry, which expires at the instant 5000. *)
Definition stocked : World :=
  mkWorld true true
    (fun k => if String.eqb k "greeting" then Some ("hello", 5000) else None)
    [] true true Sample.answers 1000 [].

(** A cache in which every key holds a text that is not JSON. *)
Definition poisoned : World :=
  mkWorld true true (fun _ => Some ("not json", 5000)) [] true true Sample.answers 1000 [].

Definition translate : value := Sample.request "translate" "x" [].

Definition zero : value := VNum (num_of_nat 0).

End Scenario.

(** * Properties *)

(** ** Running programs *)

Lemma run_bind {A B : Type} (p : prog A) (f : A -> prog B) (w : World) :
  run (bind p f) w =
  match run p w with
  | (Ok a, w') => run (f a) w'
  | (Throw e, w') => (Throw e, w')
  end.
Proof.
  revert w; induction p as [a|e|X op k IH]; intros w; simpl; auto.
  destruct (perform op w) as [x w']. apply IH.
Qed.

Lemma run_try_catch {A : Type} (p : prog A) (h : error -> prog A) (w : World) :
  run (try_catch p h) w =
  match run p w with
  | (Ok a, w') => (Ok a, w')
  | (Throw e, w') => run (h e) w'
  end.
Proof.
  revert w; induction p as [a|e|X op k IH]; intros w; simpl; auto.
  destruct (perform op w) as [x w']. apply IH.
Qed.

Lemma now_run (w : World) : run (perform_ Now) w = (Ok (clock w), w).
Proof. reflexivity. Qed.

Lemma run_lift {A : Type} (o : outcome A) (w : World) : run (lift o) w = (o, w).
Proof. destruct o; reflexivity. Qed.

(** ** The cache service never throws *)

Lemma next_fault_spec (w : World) :
  fst (next_fault w) = faulty w /\ trace (snd (next_fault w)) = trace w.
Proof. unfold next_fault, faulty. destruct (redis_faults w); simpl; auto. Qed.

Lemma cache_get_run (key : string) (w : World) :
  run (CacheService.get key) w =
  if available w then
    let w1 := emit (EvRedisGet key) w in
    let w2 := snd (next_fault w1) in
    if faulty w then
      (Ok None,
       emit (EvLog "error" "Error getting value from cache"
               (CacheService.error_meta key redis_error)) w2)
    else (Ok (redis_lookup w2 key), w2)
  else (Ok None, w).
Proof.
  unfold CacheService.get, available. rewrite run_try_catch. simpl.
  destruct (cache_client w), (cache_connected w); simpl; auto.
  unfold next_fault, faulty; simpl.
  destruct (redis_faults w) as [|[] fs]; simpl; auto.
Qed.

Lemma cache_set_run (key val : string) (ttl : Z) (w : World) :
  run (CacheService.set key val ttl) w =
  if available w then
    let w1 := emit (EvRedisSet key val ttl) w in
    let w2 := snd (next_fault w1) in
    if faulty w then
      (Ok false,
       emit (EvLog "error" "Error setting value in cache"
               (CacheService.error_meta key redis_error)) w2)
    else
      (Ok true,
       set_redis (fun k => if String.eqb k key then Some (val, clock w2 + 1000 * ttl)
                           else redis w2 k) w2)
  else (Ok false, w).
Proof.
  unfold CacheService.set, available. rewrite run_try_catch. simpl.
  destruct (cache_client w), (cache_connected w); simpl; auto.
  unfold next_fault, faulty; simpl.
  destruct (redis_faults w) as [|[] fs]; simpl; auto.
Qed.

(** C7. [get] returns the stored text, or absent ([None]) on a miss, when
    the backend is unavailable and when the backend fails, and never throws;
    [set] returns a boolean, [false] when the backend is unavailable or
    fails, and never throws. *)
Theorem cache_get_set_never_throw (key val : string) (ttl : Z) (w : World) :
  fst (run (CacheService.get key) w) = Ok (cache_answer w key)
  /\ fst (run (CacheService.set key val ttl) w) = Ok (available w && negb (faulty w)).
Proof.
  rewrite cache_get_run, cache_set_run. unfold cache_answer.
  destruct (available w), (faulty w) eqn:F; simpl; auto.
  split; auto. f_equal.
  unfold redis_lookup, next_fault. simpl.
  destruct (redis_faults w); reflexivity.
Qed.

(** ** Fence stripping *)

Lemma append_nil_r (s : string) : s ++ "" = s.
Proof. induction s; simpl; congruence. Qed.

Lemma append_assoc (a b c : string) : (a ++ b) ++ c = a ++ b ++ c.
Proof. induction a; simpl; congruence. Qed.




Lemma strip_prefix_append (p s : string) : strip_prefix p (p ++ s) = Some s.
Proof.
  induction p as [|c p IH]; simpl; [now destruct s|].
  now rewrite Ascii.eqb_refl.
Qed.




(** ** [JSON.parse] after [JSON.stringify] *)

Lemma parse_chars_quote_char (c : ascii) (tl : string) :
  parse_chars (quote_char c ++ tl) = prepend (str1 c) (parse_chars tl).
Proof.
  destruct c as [b0 b1 b2 b3 b4 b5 b6 b7].
  destruct b0, b1, b2, b3, b4, b5, b6, b7; reflexivity.
Qed.

Lemma parse_chars_quote_body (s rest : string) :
  parse_chars (quote_body s ++ dq ++ rest) = Some (s, rest).
Proof.
  induction s as [|c s IH]; [reflexivity|].
  cbn [quote_body]. rewrite append_assoc, parse_chars_quote_char, IH. reflexivity.
Qed.

Lemma digit_of_char_of_digit (d : digit) : digit_of_char (char_of_digit d) = Some d.
Proof. destruct d; reflexivity. Qed.

Lemma take_digits_digits (ds : list digit) (s : string) :
  take_digits (digits_str ds ++ s) =
  (ds ++ fst (take_digits s), snd (take_digits s))%list.
Proof.
  induction ds as [|d ds IH]; cbn [digits_str append take_digits List.app].
  - now destruct (take_digits s).
  - rewrite digit_of_char_of_digit, IH. reflexivity.
Qed.

Lemma follow_not_digit (rest : string) :
  follow rest = true -> take_digits rest = ([], rest).
Proof.
  destruct rest as [|c rest]; [reflexivity|]. cbn [follow take_digits]. intros H.
  unfold digit_of_char.
  apply orb_prop in H. destruct H as [H|H]; [apply orb_prop in H; destruct H as [H|H]|];
    apply Nat.eqb_eq in H; rewrite H; reflexivity.
Qed.

(** ** Canonical numerals *)

Lemma strip_leading_zeros (n : nat) (ds : list digit) :
  strip_leading (repeat D0 n ++ ds) = strip_leading ds.
Proof. induction n as [|n IH]; simpl; auto. Qed.

Lemma strip_leading_idem (ds : list digit) :
  strip_leading (strip_leading ds) = strip_leading ds.
Proof. induction ds as [|d ds IH]; [reflexivity|]. destruct d; simpl; auto. Qed.

Lemma strip_leading_snoc (ds : list digit) (d : digit) :
  d <> D0 -> strip_leading (ds ++ [d]) = (strip_leading ds ++ [d])%list.
Proof.
  intros Hd. induction ds as [|x ds IH]; simpl.
  - destruct d; try reflexivity. now elim Hd.
  - destruct x; auto.
Qed.

Lemma strip_leading_length (ds : list digit) :
  (List.length (strip_leading ds) <= List.length ds)%nat.
Proof. induction ds as [|d ds IH]; simpl; [lia|]. destruct d; simpl; lia. Qed.

Lemma repeat_rev (n : nat) : rev (repeat D0 n) = repeat D0 n.
Proof.
  induction n as [|n IH]; [reflexivity|].
  simpl. rewrite IH. clear IH. induction n as [|n IH]; simpl; congruence.
Qed.

Lemma canonical_head (ds : list digit) :
  canonical ds -> exists d rest, ds = d :: rest /\ d <> D0.
Proof.
  intros (Hne & Hl & _). destruct ds as [|d rest]; [now elim Hne|].
  exists d, rest. split; [reflexivity|]. intros ->. simpl in Hl.
  pose proof (strip_leading_length rest) as H. rewrite Hl in H. simpl in H. lia.
Qed.

Lemma normalize_padded (neg : bool) (ds : list digit) (pt : Z) (a b : nat) :
  canonical ds ->
  normalize (Dec neg (repeat D0 a ++ ds ++ repeat D0 b) (pt + Z.of_nat a)) = Dec neg ds pt.
Proof.
  intros (Hne & Hl & Hr). unfold normalize.
  rewrite strip_leading_zeros.
  assert (H1 : strip_leading (ds ++ repeat D0 b) = (ds ++ repeat D0 b)%list).
  { destruct ds as [|d rest]; [now elim Hne|]. destruct d; try reflexivity.
    exfalso. simpl in Hl. pose proof (strip_leading_length rest) as H.
    rewrite Hl in H. simpl in H. lia. }
  rewrite H1. unfold strip_trailing.
  rewrite rev_app_distr, repeat_rev, strip_leading_zeros, Hr, rev_involutive.
  rewrite !length_app, repeat_length.
  destruct ds as [|d rest]; [now elim Hne|]. f_equal. lia.
Qed.

Lemma normalize_canonical (neg : bool) (ds : list digit) (pt : Z) :
  canonical ds -> normalize (Dec neg ds pt) = Dec neg ds pt.
Proof.
  intros H. pose proof (normalize_padded neg ds pt 0 0 H) as E.
  simpl in E. rewrite app_nil_r, Z.add_0_r in E. exact E.
Qed.

(** The result of [normalize] is zero or canonical. *)
Lemma normalize_cases (neg : bool) (ds : list digit) (pt : Z) :
  normalize (Dec neg ds pt) = Dec false [] 0
  \/ exists ds' pt', normalize (Dec neg ds pt) = Dec neg ds' pt' /\ canonical ds'.
Proof.
  unfold normalize.
  destruct (strip_trailing (strip_leading ds)) as [|d rest] eqn:E; [now left|].
  right. exists (d :: rest), (pt - Z.of_nat (List.length ds - List.length (strip_leading ds))).
  split; [reflexivity|]. rewrite <- E. unfold strip_trailing in *.
  set (ds1 := strip_leading ds) in *.
  assert (Hr : strip_leading (rev (rev (strip_leading (rev ds1)))) =
               rev (rev (strip_leading (rev ds1)))).
  { now rewrite rev_involutive, strip_leading_idem. }
  split; [rewrite E; discriminate|]. split; [|exact Hr].
  destruct ds1 as [|x ds1'] eqn:E1; [discriminate|].
  assert (Hx : x <> D0).
  { intros ->. pose proof (strip_leading_idem ds) as H. fold ds1 in H. rewrite E1 in H.
    simpl in H. pose proof (strip_leading_length ds1') as H2. rewrite H in H2. simpl in H2. lia. }
  simpl rev. rewrite strip_leading_snoc by assumption.
  rewrite rev_app_distr. simpl. destruct x; try reflexivity. now elim Hx.
Qed.

Lemma normalize_idem (n : number) : normalize (normalize n) = normalize n.
Proof.
  destruct n as [| |neg ds pt]; try reflexivity.
  destruct (normalize_cases neg ds pt) as [->|(ds' & pt' & -> & H)]; [reflexivity|].
  now apply normalize_canonical.
Qed.

(** ** Round trip of numbers *)

Lemma digits_str_app (a b : list digit) :
  digits_str (a ++ b) = digits_str a ++ digits_str b.
Proof.
  induction a as [|d a IH]; [reflexivity|].
  cbn [digits_str List.app append]. now rewrite IH.
Qed.

Lemma digits_str_zeros (n : nat) : digits_str (repeat D0 n) = repeat_str "0" n.
Proof.
  induction n as [|n IH]; [reflexivity|].
  cbn [repeat digits_str repeat_str]. now rewrite IH.
Qed.

Lemma digits_uint_digits (u : Decimal.uint) : digits_uint (uint_digits u) = u.
Proof. induction u; simpl; congruence. Qed.

Lemma digits_value_N_digits (n : N) : digits_value (N_digits n) = n.
Proof. unfold digits_value, N_digits. rewrite digits_uint_digits. apply DecimalN.Unsigned.of_to. Qed.

Lemma N_digits_nonempty (n : N) : N_digits n <> [].
Proof.
  unfold N_digits. destruct n as [|p]; [discriminate|].
  simpl. pose proof (DecimalPos.Unsigned.to_uint_nonnil p) as H.
  destruct (Pos.to_uint p); [now elim H|discriminate..].
Qed.

Lemma follow_stops (rest : string) : follow rest = true -> stops rest.
Proof. apply follow_not_digit. Qed.

Lemma take_digits_stop (ds : list digit) (s : string) :
  stops s -> take_digits (digits_str ds ++ s) = (ds, s).
Proof.
  intros H. rewrite take_digits_digits, H. simpl. now rewrite app_nil_r.
Qed.

Lemma parse_int_nonzero (d : digit) (ds : list digit) (s : string) :
  d <> D0 -> stops s -> parse_int (digits_str (d :: ds) ++ s) = Some (d :: ds, s).
Proof.
  intros Hd Hs. cbn [digits_str append parse_int].
  rewrite digit_of_char_of_digit, take_digits_stop by assumption.
  destruct d; try reflexivity. now elim Hd.
Qed.

Lemma parse_int_zero (s : string) : parse_int ("0" ++ s) = Some ([D0], s).
Proof. reflexivity. Qed.

Lemma parse_frac_digits (ds : list digit) (s : string) :
  ds <> [] -> stops s -> parse_frac ("." ++ digits_str ds ++ s) = Some (ds, s).
Proof.
  intros Hne Hs. change ("." ++ digits_str ds ++ s) with (String "." (digits_str ds ++ s)).
  cbn [parse_frac]. change (code "." =? 46)%nat with true. cbv iota.
  rewrite take_digits_stop by assumption.
  destruct ds; [now elim Hne|reflexivity].
Qed.

Lemma parse_frac_follow (rest : string) :
  follow rest = true -> parse_frac rest = Some ([], rest).
Proof.
  destruct rest as [|c rest]; [reflexivity|]. cbn [follow parse_frac]. intros H.
  apply orb_prop in H. destruct H as [H|H]; [apply orb_prop in H; destruct H as [H|H]|];
    apply Nat.eqb_eq in H; rewrite H; reflexivity.
Qed.

Lemma parse_exp_follow (rest : string) :
  follow rest = true -> parse_exp rest = Some (0, rest).
Proof.
  destruct rest as [|c rest]; [reflexivity|]. cbn [follow parse_exp]. intros H.
  apply orb_prop in H. destruct H as [H|H]; [apply orb_prop in H; destruct H as [H|H]|];
    apply Nat.eqb_eq in H; rewrite H; reflexivity.
Qed.

Lemma parse_exp_exponent (e : Z) (rest : string) :
  follow rest = true -> parse_exp (exponent_str e ++ rest) = Some (e, rest).
Proof.
  intros H. unfold exponent_str. rewrite !append_assoc.
  destruct (e <? 0) eqn:E;
    cbn [append parse_exp];
    match goal with |- context [if ?c then _ else _] => change c with true end;
    cbv iota beta.
  - change (code "-" =? 45)%nat with true. cbv iota.
    rewrite take_digits_stop by now apply follow_stops.
    destruct (N_digits (Z.abs_N e)) eqn:D; [now elim (N_digits_nonempty (Z.abs_N e))|].
    rewrite <- D, digits_value_N_digits. f_equal. f_equal.
    apply Z.ltb_lt in E. rewrite N2Z.inj_abs_N. lia.
  - change (code "+" =? 45)%nat with false. change (code "+" =? 43)%nat with true. cbv iota.
    rewrite take_digits_stop by now apply follow_stops.
    destruct (N_digits (Z.abs_N e)) eqn:D; [now elim (N_digits_nonempty (Z.abs_N e))|].
    rewrite <- D, digits_value_N_digits. f_equal. f_equal.
    apply Z.ltb_ge in E. rewrite N2Z.inj_abs_N. lia.
Qed.

Lemma stops_dot (s : string) : stops ("." ++ s).
Proof. reflexivity. Qed.

Lemma stops_exponent (e : Z) (s : string) : stops (exponent_str e ++ s).
Proof. reflexivity. Qed.

Lemma parse_frac_exponent (e : Z) (s : string) :
  parse_frac (exponent_str e ++ s) = Some ([], exponent_str e ++ s).
Proof. reflexivity. Qed.

Lemma parse_number_signed (neg : bool) (c : ascii) (s : string) :
  (code c =? 45)%nat = false ->
  parse_number ((if neg then "-" else "") ++ String c s) = number_tail neg (String c s).
Proof.
  intros H. destruct neg.
  - reflexivity.
  - cbn [append]. unfold parse_number. rewrite H. reflexivity.
Qed.

Lemma char_of_digit_not_minus (d : digit) : (code (char_of_digit d) =? 45)%nat = false.
Proof. destruct d; reflexivity. Qed.

Lemma number_to_string_canonical (neg : bool) (d : digit) (rest : list digit) (pt : Z) :
  canonical (d :: rest) ->
  number_to_string (Dec neg (d :: rest) pt) =
  (if neg then "-" else "") ++ number_body d rest pt.
Proof.
  intros H. unfold number_to_string. rewrite normalize_canonical by assumption.
  unfold number_body, exponent_str. cbv zeta.
  destruct ((_ <=? pt) && (pt <=? 21)); [reflexivity|].
  destruct ((0 <? pt) && (pt <=? 21)); [reflexivity|].
  destruct ((-6 <? pt) && (pt <=? 0)); [reflexivity|].
  destruct rest; reflexivity.
Qed.

Lemma number_body_head (d : digit) (rest : list digit) (pt : Z) :
  d <> D0 ->
  exists c s, number_body d rest pt = String c s
    /\ (code c =? 45)%nat = false
    /\ exists x, c = char_of_digit x.
Proof.
  intros Hd. unfold number_body. cbv zeta.
  destruct ((_ <=? pt) && (pt <=? 21)).
  { cbn [digits_str append]. eexists _, _. split; [reflexivity|].
    split; [apply char_of_digit_not_minus|eauto]. }
  destruct ((0 <? pt) && (pt <=? 21)) eqn:C.
  { apply andb_prop in C. destruct C as [C _]. apply Z.ltb_lt in C.
    destruct (Z.to_nat pt) as [|p] eqn:P; [lia|].
    cbn [firstn digits_str append]. eexists _, _. split; [reflexivity|].
    split; [apply char_of_digit_not_minus|eauto]. }
  destruct ((-6 <? pt) && (pt <=? 0)).
  { exists "0"%char. eexists. split; [reflexivity|]. split; [reflexivity|]. now exists D0. }
  cbn [str1 append]. eexists _, _. split; [reflexivity|].
  split; [apply char_of_digit_not_minus|eauto].
Qed.

Lemma number_tail_body (neg : bool) (d : digit) (rest : list digit) (pt : Z) (tl : string) :
  canonical (d :: rest) -> follow tl = true ->
  number_tail neg (number_body d rest pt ++ tl) = Some (Dec neg (d :: rest) pt, tl).
Proof.
  intros Hc Hf.
  destruct (canonical_head _ Hc) as (d' & rest'' & E & Hd). inversion E; subst d' rest''.
  pose proof (follow_stops _ Hf) as Hs.
  unfold number_body, number_tail. cbv zeta.
  set (ds := d :: rest). set (k := Z.of_nat (List.length ds)).
  destruct ((k <=? pt) && (pt <=? 21)) eqn:C1.
  { apply andb_prop in C1. destruct C1 as [C1 _]. apply Z.leb_le in C1.
    rewrite <- digits_str_zeros, <- digits_str_app. unfold ds at 1.
    cbn [List.app]. rewrite parse_int_nonzero by assumption.
    rewrite parse_frac_follow, parse_exp_follow by assumption.
    rewrite app_nil_r, Z.add_0_r. f_equal. f_equal.
    rewrite <- (normalize_padded neg ds pt 0 (Z.to_nat (pt - k)) Hc).
    cbn [repeat List.app].
    change (d :: rest ++ repeat D0 (Z.to_nat (pt - k)))%list
      with (ds ++ repeat D0 (Z.to_nat (pt - k)))%list.
    f_equal. f_equal. rewrite length_app, repeat_length. unfold k in *. lia. }
  destruct ((0 <? pt) && (pt <=? 21)) eqn:C2.
  { apply andb_prop in C2. destruct C2 as [C2 C2']. apply Z.ltb_lt in C2.
    apply Z.leb_le in C2'.
    assert (Hlt : pt < k).
    { apply andb_false_iff in C1. destruct C1 as [C1|C1]; apply Z.leb_gt in C1; lia. }
    destruct (Z.to_nat pt) as [|p] eqn:P; [lia|].
    unfold ds at 1. cbn [firstn]. rewrite !append_assoc.
    rewrite parse_int_nonzero by (first [assumption|reflexivity]).
    rewrite parse_frac_digits; [|intros Hnil|assumption].
    - rewrite parse_exp_follow by assumption. f_equal. f_equal.
      change (d :: firstn p rest) with (firstn (S p) ds).
      rewrite firstn_skipn, Z.add_0_r, length_firstn.
      rewrite (normalize_canonical neg ds _ Hc). f_equal.
      unfold k in Hlt. lia.
    - apply (f_equal (@List.length digit)) in Hnil. rewrite length_skipn in Hnil.
      unfold k in Hlt. change (List.length (@nil digit)) with 0%nat in Hnil. lia. }
  destruct ((-6 <? pt) && (pt <=? 0)) eqn:C3.
  { apply andb_prop in C3. destruct C3 as [_ C3]. apply Z.leb_le in C3.
    change ("0." ++ repeat_str "0" (Z.to_nat (- pt)) ++ digits_str ds)
      with ("0" ++ "." ++ repeat_str "0" (Z.to_nat (- pt)) ++ digits_str ds).
    rewrite !append_assoc, parse_int_zero.
    rewrite <- digits_str_zeros.
    rewrite <- (append_assoc (digits_str _) (digits_str _) tl), <- digits_str_app.
    rewrite parse_frac_digits; [|intros Hnil|assumption].
    - rewrite parse_exp_follow by assumption. f_equal. f_equal.
      rewrite <- (normalize_padded neg ds pt (S (Z.to_nat (- pt))) 0 Hc).
      cbn [repeat List.app List.length]. rewrite app_nil_r. f_equal. f_equal. lia.
    - apply app_eq_nil in Hnil. destruct Hnil as [_ Hnil]. discriminate. }
  change (str1 (char_of_digit d)) with (digits_str [d]).
  rewrite !append_assoc.
  destruct rest as [|r rest].
  - cbn [append]. rewrite parse_int_nonzero by (first [assumption|reflexivity]).
    rewrite parse_frac_exponent, parse_exp_exponent by assumption.
    f_equal. f_equal. rewrite <- (normalize_canonical neg ds pt Hc).
    cbn [List.app List.length]. unfold ds. f_equal. f_equal. lia.
  - rewrite (append_assoc ".").
    rewrite parse_int_nonzero by (first [assumption|reflexivity]).
    rewrite parse_frac_digits by (first [discriminate|reflexivity]).
    rewrite parse_exp_exponent by assumption.
    f_equal. f_equal. rewrite <- (normalize_canonical neg ds pt Hc).
    cbn [List.app List.length]. unfold ds. f_equal. f_equal. lia.
Qed.

(** [parse_number] reads back what [number_to_string] writes. *)
Lemma parse_number_to_string (neg : bool) (ds : list digit) (pt : Z) (tl : string) :
  follow tl = true ->
  parse_number (number_to_string (Dec neg ds pt) ++ tl) =
  Some (normalize (Dec neg ds pt), tl).
Proof.
  intros Hf.
  assert (E : number_to_string (Dec neg ds pt) = number_to_string (normalize (Dec neg ds pt))).
  { unfold number_to_string. now rewrite normalize_idem. }
  rewrite E. clear E.
  destruct (normalize_cases neg ds pt) as [->|(ds' & pt' & -> & Hc)].
  - change (number_to_string (Dec false [] 0)) with "0".
    unfold parse_number. cbn [append]. change (code "0" =? 45)%nat with false. cbv iota.
    change (String "0" tl) with ("0" ++ tl). rewrite parse_int_zero.
    rewrite parse_frac_follow, parse_exp_follow by assumption. reflexivity.
  - destruct (canonical_head _ Hc) as (d & rest & -> & Hd).
    rewrite number_to_string_canonical by assumption.
    destruct (number_body_head d rest pt' Hd) as (c & s & Eb & Hm & _).
    rewrite append_assoc. rewrite Eb at 1. cbn [append].
    rewrite parse_number_signed by assumption.
    change (String c (s ++ tl)) with (String c s ++ tl). rewrite <- Eb.
    now apply number_tail_body.
Qed.

(** ** Round trip of values *)

Lemma value_induction (P : value -> Prop) :
  P VUndef -> P VNull -> (forall b, P (VBool b)) -> (forall n, P (VNum n)) ->
  (forall s, P (VStr s)) ->
  (forall l, Forall P l -> P (VArr l)) ->
  (forall fields, Forall (fun kv => P (snd kv)) fields -> P (VObj fields)) ->
  forall v, P v.
Proof.
  intros Hu Hn Hb Hnum Hs Ha Ho.
  exact (fix go (v : value) : P v :=
           match v with
           | VUndef => Hu
           | VNull => Hn
           | VBool b => Hb b
           | VNum n => Hnum n
           | VStr s => Hs s
           | VArr l =>
               Ha l ((fix all (l : list value) : Forall P l :=
                        match l with
                        | [] => Forall_nil P
                        | e :: l' => Forall_cons e (go e) (all l')
                        end) l)
           | VObj fields =>
               Ho fields
                 ((fix all (fs : list (string * value)) : Forall (fun kv => P (snd kv)) fs :=
                     match fs with
                     | [] => Forall_nil _
                     | kv :: fs' => Forall_cons kv (go (snd kv)) (all fs')
                     end) fields)
           end).
Qed.

Lemma stringify_array (l : list value) :
  stringify (VArr l) = Some ("[" ++ join "," (map elem_str l) ++ "]").
Proof.
  reflexivity.
Qed.

Lemma stringify_undef (v : value) : stringify v = None -> v = VUndef.
Proof. destruct v as [| |[]| | | |]; simpl; intros H; try discriminate; reflexivity. Qed.

Lemma stringify_object (fields : list (string * value)) :
  stringify (VObj fields) =
  Some ("{" ++ join "," (map member_str (defined_fields fields)) ++ "}").
Proof.
  cbn [stringify]. f_equal. f_equal. f_equal. f_equal.
  induction fields as [|[k e] fs IH]; [reflexivity|].
  rewrite IH. unfold defined_fields. cbn [filter snd].
  destruct (stringify e) as [s|] eqn:E.
  - destruct e; try discriminate; cbn [is_undef negb map];
      unfold member_str, elem_str; cbn [fst snd]; rewrite E; reflexivity.
  - apply stringify_undef in E. subst e. reflexivity.
Qed.

Lemma sanitize_object (fields : list (string * value)) :
  sanitize (VObj fields) = VObj (fold_left collect (defined_fields fields) []).
Proof.
  cbn [sanitize]. f_equal. generalize (@nil (string * value)) as acc.
  induction fields as [|[k e] fs IH]; intros acc; [reflexivity|].
  unfold defined_fields. cbn [filter snd].
  destruct e; cbn [is_undef negb fold_left]; rewrite IH; reflexivity.
Qed.

Lemma size_object (fields : list (string * value)) :
  size (VObj fields) = S (weight (map snd (defined_fields fields))).
Proof.
  cbn [size]. f_equal.
  induction fields as [|[k e] fs IH]; [reflexivity|].
  unfold defined_fields. cbn [filter snd].
  destruct e; cbn [is_undef negb map snd weight fold_right]; rewrite IH; reflexivity.
Qed.

Lemma number_to_string_head (neg : bool) (ds : list digit) (pt : Z) :
  exists c s, number_to_string (Dec neg ds pt) = String c s /\ number_start c = true.
Proof.
  assert (E : number_to_string (Dec neg ds pt) = number_to_string (normalize (Dec neg ds pt))).
  { unfold number_to_string. now rewrite normalize_idem. }
  rewrite E. clear E.
  destruct (normalize_cases neg ds pt) as [->|(ds' & pt' & -> & Hc)].
  - exists "0"%char, "". split; reflexivity.
  - destruct (canonical_head _ Hc) as (d & rest & -> & Hd).
    rewrite number_to_string_canonical by assumption.
    destruct (number_body_head d rest pt' Hd) as (c & s & -> & _ & x & ->).
    destruct neg.
    + eexists _, _. split; reflexivity.
    + eexists _, _. split; [reflexivity|]. destruct x; reflexivity.
Qed.

Lemma elem_str_head (v : value) : exists c s, elem_str v = String c s /\ starter c = true.
Proof.
  destruct v as [| |[]|n|s|l|fs]; try (eexists _, _; split; reflexivity).
  destruct n as [| |neg ds pt]; try (eexists _, _; split; reflexivity).
  destruct (number_to_string_head neg ds pt) as (c & s & E & H).
  exists c, s. split; [exact E|].
  unfold starter, number_start in *. cbv zeta in *.
  apply orb_prop in H. destruct H as [H|H]; rewrite H; rewrite ?orb_true_r; reflexivity.
Qed.

Lemma length_append (a b : string) :
  String.length (a ++ b) = (String.length a + String.length b)%nat.
Proof. induction a as [|c a IH]; simpl; congruence. Qed.

Lemma starter_facts (c : ascii) :
  starter c = true ->
  is_ws c = false /\ (code c =? 93)%nat = false /\ (code c =? 125)%nat = false.
Proof.
  destruct c as [b0 b1 b2 b3 b4 b5 b6 b7].
  destruct b0, b1, b2, b3, b4, b5, b6, b7; intros H; try discriminate H; repeat split.
Qed.

Lemma skip_ws_starter (c : ascii) (s : string) :
  is_ws c = false -> skip_ws (String c s) = String c s.
Proof. intros H. cbn [skip_ws]. now rewrite H. Qed.

Lemma parse_value_number (f : nat) (c : ascii) (s : string) :
  number_start c = true ->
  parse_value (S f) (String c s) =
  match parse_number (String c s) with
  | Some (x, r) => Some (VNum x, r)
  | None => None
  end.
Proof.
  destruct c as [b0 b1 b2 b3 b4 b5 b6 b7].
  destruct b0, b1, b2, b3, b4, b5, b6, b7; intros H; try discriminate H; reflexivity.
Qed.

Lemma parse_value_array (f : nat) (c : ascii) (s : string) :
  starter c = true ->
  parse_value (S f) ("[" ++ String c s) = parse_elements f (String c s) [].
Proof.
  destruct c as [b0 b1 b2 b3 b4 b5 b6 b7].
  destruct b0, b1, b2, b3, b4, b5, b6, b7; intros H; try discriminate H; reflexivity.
Qed.

Lemma parse_value_object (f : nat) (s : string) :
  parse_value (S f) ("{" ++ dq ++ s) = parse_members f (dq ++ s) [].
Proof. reflexivity. Qed.

Lemma elements_after_comma (f : nat) (acc : list value) (v : value) (r : string) :
  match skip_ws ("," ++ r) with
  | String c r1 =>
      if (code c =? 44)%nat then parse_elements f r1 (v :: acc)
      else if (code c =? 93)%nat then Some (VArr (rev (v :: acc)), r1)
      else None
  | EmptyString => None
  end = parse_elements f r (v :: acc).
Proof. reflexivity. Qed.

Lemma elements_after_bracket (f : nat) (acc : list value) (v : value) (r : string) :
  match skip_ws ("]" ++ r) with
  | String c r1 =>
      if (code c =? 44)%nat then parse_elements f r1 (v :: acc)
      else if (code c =? 93)%nat then Some (VArr (rev (v :: acc)), r1)
      else None
  | EmptyString => None
  end = Some (VArr (rev (v :: acc)), r).
Proof. reflexivity. Qed.

Lemma members_after_comma (f : nat) (acc : list (string * value)) (k : string)
  (v : value) (r : string) :
  match skip_ws ("," ++ r) with
  | String c r3 =>
      if (code c =? 44)%nat then parse_members f r3 (obj_set acc k v)
      else if (code c =? 125)%nat then Some (VObj (obj_set acc k v), r3)
      else None
  | EmptyString => None
  end = parse_members f r (obj_set acc k v).
Proof. reflexivity. Qed.

Lemma members_after_brace (f : nat) (acc : list (string * value)) (k : string)
  (v : value) (r : string) :
  match skip_ws ("}" ++ r) with
  | String c r3 =>
      if (code c =? 44)%nat then parse_members f r3 (obj_set acc k v)
      else if (code c =? 125)%nat then Some (VObj (obj_set acc k v), r3)
      else None
  | EmptyString => None
  end = Some (VObj (obj_set acc k v), r).
Proof. reflexivity. Qed.

Lemma parse_elements_join (l : list value) :
  Forall reads_back l -> l <> [] ->
  forall (fuel : nat) (acc : list value) (tl : string),
    (weight l <= fuel)%nat -> follow tl = true ->
    parse_elements fuel (join "," (map elem_str l) ++ "]" ++ tl) acc =
    Some (VArr (rev acc ++ map sanitize l), tl).
Proof.
  induction 1 as [|e l He Hl IH]; intros Hne fuel acc tl Hfuel Hf; [now elim Hne|].
  cbn [weight fold_right] in Hfuel. fold (weight l) in Hfuel.
  destruct fuel as [|f]; [lia|]. cbn [parse_elements].
  destruct l as [|e' l'].
  - cbn [map join]. rewrite (He f ("]" ++ tl)) by (try reflexivity; lia).
    rewrite elements_after_bracket. reflexivity.
  - change (join "," (map elem_str (e :: e' :: l')))
      with (elem_str e ++ "," ++ join "," (map elem_str (e' :: l'))).
    rewrite !append_assoc.
    rewrite (He f ("," ++ join "," (map elem_str (e' :: l')) ++ "]" ++ tl))
      by (try reflexivity; lia).
    rewrite elements_after_comma.
    rewrite IH by (try discriminate; try assumption; lia).
    cbn [rev map]. now rewrite <- app_assoc.
Qed.

Lemma parse_members_join (ms : list (string * value)) :
  Forall (fun kv => reads_back (snd kv)) ms -> ms <> [] ->
  forall (fuel : nat) (acc : list (string * value)) (tl : string),
    (weight (map snd ms) <= fuel)%nat -> follow tl = true ->
    parse_members fuel (join "," (map member_str ms) ++ "}" ++ tl) acc =
    Some (VObj (fold_left collect ms acc), tl).
Proof.
  induction 1 as [|[k e] ms He Hms IH]; intros Hne fuel acc tl Hfuel Hf; [now elim Hne|].
  cbn [map snd weight fold_right] in Hfuel. fold (weight (map snd ms)) in Hfuel.
  cbn [snd] in He.
  destruct fuel as [|f]; [lia|].
  assert (Hkey : forall rest,
             parse_members (S f) (member_str (k, e) ++ rest) acc =
             match parse_value f (elem_str e ++ rest) with
             | None => None
             | Some (v, r2) =>
                 match skip_ws r2 with
                 | String c r3 =>
                     if (code c =? 44)%nat then parse_members f r3 (obj_set acc k v)
                     else if (code c =? 125)%nat then Some (VObj (obj_set acc k v), r3)
                     else None
                 | EmptyString => None
                 end
             end).
  { intros rest. unfold member_str, quote. cbn [fst snd]. rewrite !append_assoc.
    change (dq ++ quote_body k ++ dq ++ ":" ++ elem_str e ++ rest)
      with (String dquote (quote_body k ++ dq ++ ":" ++ elem_str e ++ rest)).
    cbn [parse_members skip_ws]. change (is_ws dquote) with false. cbv iota.
    change (code dquote =? 34)%nat with true. cbv iota.
    rewrite parse_chars_quote_body. reflexivity. }
  destruct ms as [|kv' ms'].
  - cbn [map join]. rewrite Hkey.
    rewrite (He f ("}" ++ tl)) by (try reflexivity; lia).
    rewrite members_after_brace. reflexivity.
  - change (join "," (map member_str ((k, e) :: kv' :: ms')))
      with (member_str (k, e) ++ "," ++ join "," (map member_str (kv' :: ms'))).
    rewrite !append_assoc, Hkey.
    rewrite (He f ("," ++ join "," (map member_str (kv' :: ms')) ++ "}" ++ tl))
      by (try reflexivity; lia).
    rewrite members_after_comma.
    rewrite IH by (try discriminate; try assumption; lia). reflexivity.
Qed.

Lemma defined_fields_Forall (P : value -> Prop) (fields : list (string * value)) :
  Forall (fun kv => P (snd kv)) fields ->
  Forall (fun kv => P (snd kv)) (defined_fields fields).
Proof.
  intros H. unfold defined_fields. apply Forall_forall. intros kv Hin.
  apply filter_In in Hin. rewrite Forall_forall in H. now apply H.
Qed.

Lemma reads_back_all (v : value) : reads_back v.
Proof.
  induction v as [| |b|n|s|l IH|fields IH] using value_induction;
    intros fuel tl Hfuel Hf; (destruct fuel as [|f]; [cbn [size] in Hfuel; lia|]).
  - reflexivity.
  - reflexivity.
  - destruct b; reflexivity.
  - destruct n as [| |neg ds pt]; try reflexivity.
    change (elem_str (VNum (Dec neg ds pt))) with (number_to_string (Dec neg ds pt)).
    destruct (number_to_string_head neg ds pt) as (c & s & E & Hc).
    rewrite E at 1. cbn [append]. rewrite parse_value_number by assumption.
    change (String c (s ++ tl)) with (String c s ++ tl). rewrite <- E.
    rewrite parse_number_to_string by assumption. reflexivity.
  - change (elem_str (VStr s)) with (quote s). unfold quote. rewrite !append_assoc.
    change (dq ++ quote_body s ++ dq ++ tl) with (String dquote (quote_body s ++ dq ++ tl)).
    cbn [parse_value skip_ws]. change (is_ws dquote) with false. cbv iota.
    change (code dquote =? 123)%nat with false. change (code dquote =? 91)%nat with false.
    change (code dquote =? 34)%nat with true. cbv iota.
    rewrite parse_chars_quote_body. reflexivity.
  - unfold elem_str. rewrite stringify_array. rewrite !append_assoc.
    destruct l as [|e l]; [reflexivity|].
    destruct (elem_str_head e) as (c & s & E & Hc).
    assert (Hj : exists s', join "," (map elem_str (e :: l)) = String c s').
    { destruct l; cbn [map join]; rewrite E; eexists; reflexivity. }
    destruct Hj as (s' & Hj). rewrite Hj at 1.
    change (String c s' ++ "]" ++ tl) with (String c (s' ++ "]" ++ tl)).
    rewrite parse_value_array by assumption.
    change (String c (s' ++ "]" ++ tl)) with (String c s' ++ "]" ++ tl). rewrite <- Hj.
    rewrite parse_elements_join; try assumption; try discriminate.
    + reflexivity.
    + cbn [size] in Hfuel. fold (weight (e :: l)) in Hfuel. lia.
  - unfold elem_str. rewrite stringify_object, sanitize_object. rewrite !append_assoc.
    rewrite size_object in Hfuel.
    apply defined_fields_Forall in IH.
    destruct (defined_fields fields) as [|[k e] ms] eqn:D; [reflexivity|].
    assert (Hj : exists s', join "," (map member_str ((k, e) :: ms)) = dq ++ s').
    { destruct ms; cbn [map join]; unfold member_str, quote; cbn [fst snd];
        rewrite !append_assoc; eexists; reflexivity. }
    destruct Hj as (s' & Hj). rewrite Hj at 1. rewrite append_assoc.
    rewrite parse_value_object. rewrite <- append_assoc, <- Hj.
    rewrite parse_members_join; try assumption; try discriminate.
    + reflexivity.
    + lia.
Qed.

Lemma weight_join (l : list value) :
  Forall (fun e => (size e <= String.length (elem_str e))%nat) l ->
  (weight l <= String.length (join "," (map elem_str l)) + 1)%nat.
Proof.
  induction 1 as [|e l He Hl IH]; [simpl; lia|].
  cbn [weight fold_right]. fold (weight l).
  destruct l as [|e' l'].
  - cbn [map join weight fold_right]. lia.
  - change (join "," (map elem_str (e :: e' :: l')))
      with (elem_str e ++ "," ++ join "," (map elem_str (e' :: l'))).
    rewrite !length_append. change (String.length ",") with 1%nat. lia.
Qed.

Lemma weight_join_members (ms : list (string * value)) :
  Forall (fun kv => (size (snd kv) <= String.length (elem_str (snd kv)))%nat) ms ->
  (weight (map snd ms) <= String.length (join "," (map member_str ms)) + 1)%nat.
Proof.
  induction 1 as [|[k e] ms He Hms IH]; [simpl; lia|].
  change (weight (map snd ((k, e) :: ms))) with (S (size e) + weight (map snd ms))%nat.
  cbn [snd] in He.
  assert (Hm : (String.length (elem_str e) <= String.length (member_str (k, e)))%nat).
  { change (member_str (k, e)) with (quote k ++ ":" ++ elem_str e).
    rewrite (length_append (quote k)), (length_append ":"). lia. }
  destruct ms as [|kv' ms'].
  - cbn [map join weight fold_right]. lia.
  - change (join "," (map member_str ((k, e) :: kv' :: ms')))
      with (member_str (k, e) ++ "," ++ join "," (map member_str (kv' :: ms'))).
    rewrite !length_append. change (String.length ",") with 1%nat. lia.
Qed.

Lemma size_le_length (v : value) : (size v <= String.length (elem_str v))%nat.
Proof.
  induction v as [| |b|n|s|l IH|fields IH] using value_induction.
  - simpl. lia.
  - simpl. lia.
  - destruct b; simpl; lia.
  - destruct (elem_str_head (VNum n)) as (c & s & -> & _). simpl. lia.
  - destruct (elem_str_head (VStr s)) as (c & s' & -> & _). simpl. lia.
  - unfold elem_str. rewrite stringify_array. cbn [size]. fold (weight l).
    rewrite !length_append. pose proof (weight_join l IH).
    change (String.length "[") with 1%nat. change (String.length "]") with 1%nat. lia.
  - unfold elem_str. rewrite stringify_object, size_object.
    rewrite !length_append.
    apply (defined_fields_Forall (fun e => (size e <= String.length (elem_str e))%nat)) in IH.
    pose proof (weight_join_members _ IH).
    change (String.length "{") with 1%nat. change (String.length "}") with 1%nat. lia.
Qed.

(** [JSON.parse] reads back what [JSON.stringify] writes: the value itself
    but for what the serialization does not keep, see [sanitize]. *)
Theorem JSON_parse_stringify (v : value) (s : string) :
  stringify v = Some s -> JSON_parse s = Some (sanitize v).
Proof.
  intros E. assert (Es : s = elem_str v) by (unfold elem_str; now rewrite E).
  unfold JSON_parse. pose proof (size_le_length v) as Hsize.
  rewrite <- (append_nil_r s) at 2. rewrite Es.
  rewrite (reads_back_all v (S (String.length (elem_str v))) "") by (try reflexivity; lia).
  reflexivity.
Qed.

(** ** Parsed values are stable under the round trip *)

Lemma obj_set_keys (fields : list (string * value)) (k : string) (v : value) :
  map fst (obj_set fields k v) =
  if existsb (String.eqb k) (map fst fields) then map fst fields
  else (map fst fields ++ [k])%list.
Proof.
  induction fields as [|[k' x] rest IH]; [reflexivity|].
  cbn [obj_set map fst existsb]. rewrite (String.eqb_sym k k').
  destruct (String.eqb k' k) eqn:E; cbn [map fst orb].
  - reflexivity.
  - rewrite IH. destruct (existsb _ _); reflexivity.
Qed.

Lemma existsb_eqb_In (k : string) (keys : list string) :
  existsb (String.eqb k) keys = false -> ~ In k keys.
Proof.
  intros H Hin. assert (existsb (String.eqb k) keys = true).
  { apply existsb_exists. exists k. split; [assumption|apply String.eqb_refl]. }
  congruence.
Qed.

Lemma obj_set_NoDup (fields : list (string * value)) (k : string) (v : value) :
  NoDup (map fst fields) -> NoDup (map fst (obj_set fields k v)).
Proof.
  intros H. rewrite obj_set_keys.
  destruct (existsb (String.eqb k) (map fst fields)) eqn:E; [assumption|].
  apply existsb_eqb_In in E.
  apply NoDup_rev in H. rewrite <- (rev_involutive (_ ++ _)%list).
  apply NoDup_rev. rewrite rev_app_distr. cbn [rev List.app].
  constructor; [rewrite <- in_rev; assumption|assumption].
Qed.

Lemma obj_set_clean (fields : list (string * value)) (k : string) (v : value) :
  clean v ->
  Forall (fun kv => clean (snd kv)) fields ->
  Forall (fun kv => clean (snd kv)) (obj_set fields k v).
Proof.
  intros Hv. induction 1 as [|[k' x] rest Hx Hrest IH]; cbn [obj_set].
  - repeat constructor. assumption.
  - destruct (String.eqb k' k); constructor; assumption.
Qed.

Lemma obj_set_fresh (fields : list (string * value)) (k : string) (v : value) :
  ~ In k (map fst fields) -> obj_set fields k v = (fields ++ [(k, v)])%list.
Proof.
  induction fields as [|[k' x] rest IH]; intros H; [reflexivity|].
  cbn [obj_set List.app]. cbn [map fst In] in H.
  destruct (String.eqb k' k) eqn:E.
  - apply String.eqb_eq in E. tauto.
  - rewrite IH by tauto. reflexivity.
Qed.

Lemma clean_defined (fields : list (string * value)) :
  Forall (fun kv => clean (snd kv)) fields -> defined_fields fields = fields.
Proof.
  induction 1 as [|[k e] rest He Hrest IH]; [reflexivity|].
  unfold defined_fields in *. cbn [filter snd] in *.
  inversion He; subst; cbn [is_undef negb]; now rewrite IH.
Qed.

Lemma collect_fresh (fields acc : list (string * value)) :
  Forall (fun kv => sanitize (snd kv) = snd kv) fields ->
  NoDup (map fst acc ++ map fst fields) ->
  fold_left collect fields acc = (acc ++ fields)%list.
Proof.
  revert acc. induction fields as [|[k e] rest IH]; intros acc Hs Hnd.
  - now rewrite app_nil_r.
  - inversion Hs as [|? ? He Hrest]; subst. cbn [snd] in He.
    cbn [fold_left]. unfold collect at 2. cbn [fst snd]. rewrite He.
    cbn [map fst] in Hnd.
    rewrite obj_set_fresh.
    + rewrite IH; [now rewrite <- app_assoc|assumption|].
      rewrite map_app. cbn [map fst]. now rewrite <- app_assoc.
    + apply NoDup_remove_2 in Hnd. intros Hin. apply Hnd.
      apply in_or_app. now left.
Qed.

Lemma map_sanitize_clean (l : list value) :
  Forall (fun e => clean e -> sanitize e = e) l -> Forall clean l -> map sanitize l = l.
Proof.
  induction 1 as [|e l He Hl IH]; intros Hall; [reflexivity|].
  inversion Hall; subst. cbn [map]. rewrite He, IH by assumption. reflexivity.
Qed.

Lemma clean_sanitize (v : value) : clean v -> sanitize v = v.
Proof.
  induction v as [| |b|n|s|l IH|fields IH] using value_induction; intros Hc;
    inversion Hc; subst; try reflexivity.
  - cbn [sanitize]. congruence.
  - cbn [sanitize]. f_equal. now apply map_sanitize_clean.
  - rewrite sanitize_object, clean_defined by assumption. f_equal.
    apply (collect_fresh fields []); [|assumption].
    rewrite Forall_forall in *. intros kv Hin. apply IH; auto.
Qed.

Lemma clean_stringify (v : value) : clean v -> stringify v = Some (elem_str v).
Proof. intros H. unfold elem_str. inversion H; subst; try reflexivity. now destruct b. Qed.

Lemma parse_number_clean (s r : string) (x : number) :
  parse_number s = Some (x, r) -> clean (VNum x).
Proof.
  unfold parse_number.
  destruct (match s with
            | String c s' => if (code c =? 45)%nat then (true, s') else (false, s)
            | EmptyString => (false, s)
            end) as [neg s1].
  destruct (parse_int s1) as [[ip s2]|]; [|discriminate].
  destruct (parse_frac s2) as [[fp s3]|]; [|discriminate].
  destruct (parse_exp s3) as [[e s4]|]; [|discriminate].
  intros H.
  assert (Hx : x = normalize (Dec neg (ip ++ fp) (Z.of_nat (List.length ip) + e)))
    by congruence.
  rewrite Hx. clear H Hx.
  destruct (normalize_cases neg (ip ++ fp) (Z.of_nat (List.length ip) + e))
    as [E|(ds' & pt' & E & Hc)]; rewrite E; constructor.
  - reflexivity.
  - now apply normalize_canonical.
Qed.

Lemma keyword_clean (k s r : string) (v x : value) :
  clean v -> keyword k v s = Some (x, r) -> clean x.
Proof.
  unfold keyword. destruct (strip_prefix k s); intros Hv H; inversion H; subst; assumption.
Qed.

(** Whatever [JSON.parse] returns is clean. *)
Lemma parse_clean (fuel : nat) :
  (forall s v r, parse_value fuel s = Some (v, r) -> clean v)
  /\ (forall s acc v r, Forall clean acc -> parse_elements fuel s acc = Some (v, r) -> clean v)
  /\ (forall s acc v r, clean_fields acc -> parse_members fuel s acc = Some (v, r) -> clean v).
Proof.
  induction fuel as [|f (IHv & IHe & IHm)]; [repeat split; intros; discriminate|].
  repeat split.
  - intros s v r. cbn [parse_value].
    destruct (skip_ws s) as [|c s1]; [discriminate|]. cbv zeta.
    destruct (code c =? 123)%nat.
    { destruct (skip_ws s1) as [|c' s2]; [discriminate|].
      destruct (code c' =? 125)%nat.
      - intros H. inversion H; subst. constructor; constructor.
      - apply IHm. split; constructor. }
    destruct (code c =? 91)%nat.
    { destruct (skip_ws s1) as [|c' s2]; [discriminate|].
      destruct (code c' =? 93)%nat.
      - intros H. inversion H; subst. constructor; constructor.
      - apply IHe. constructor. }
    destruct (code c =? 34)%nat.
    { destruct (parse_chars s1) as [[str r']|]; intros H; inversion H; subst. constructor. }
    destruct (code c =? 110)%nat; [apply keyword_clean; constructor|].
    destruct (code c =? 116)%nat; [apply keyword_clean; constructor|].
    destruct (code c =? 102)%nat; [apply keyword_clean; constructor|].
    destruct (parse_number (String c s1)) as [[x r']|] eqn:E; intros H; inversion H; subst.
    now apply parse_number_clean in E.
  - intros s acc v r Hacc. cbn [parse_elements].
    destruct (parse_value f s) as [[x r']|] eqn:E; [|discriminate].
    apply IHv in E.
    destruct (skip_ws r') as [|c r1]; [discriminate|].
    destruct (code c =? 44)%nat; [apply IHe; now constructor|].
    destruct (code c =? 93)%nat; [|discriminate].
    intros H. inversion H; subst. constructor.
    apply Forall_app. split; [now apply Forall_rev|now repeat constructor].
  - intros s acc v r [Hacc Hnd]. cbn [parse_members].
    destruct (skip_ws s) as [|q s1]; [discriminate|].
    destruct (code q =? 34)%nat; [|discriminate].
    destruct (parse_chars s1) as [[k r']|]; [|discriminate].
    destruct (skip_ws r') as [|colon r1]; [discriminate|].
    destruct (code colon =? 58)%nat; [|discriminate].
    destruct (parse_value f r1) as [[x r2]|] eqn:E; [|discriminate].
    apply IHv in E.
    assert (Hset : clean_fields (obj_set acc k x)).
    { split; [now apply obj_set_clean|now apply obj_set_NoDup]. }
    destruct (skip_ws r2) as [|c r3]; [discriminate|].
    destruct (code c =? 44)%nat; [now apply IHm|].
    destruct (code c =? 125)%nat; [|discriminate].
    intros H. inversion H; subst. destruct Hset. now constructor.
Qed.

Lemma JSON_parse_clean (s : string) (v : value) : JSON_parse s = Some v -> clean v.
Proof.
  unfold JSON_parse.
  destruct (parse_value (S (String.length s)) s) as [[x r]|] eqn:E; [|discriminate].
  destruct (skip_ws r); [|discriminate]. intros H. inversion H; subst.
  exact (proj1 (parse_clean _) _ _ _ E).
Qed.

(** A parsed value is unchanged by a further round trip. *)
Lemma JSON_parse_stable (s : string) (v : value) :
  JSON_parse s = Some v -> JSON_parse (AIService.JSON_stringify v) = Some v.
Proof.
  intros H. apply JSON_parse_clean in H.
  unfold AIService.JSON_stringify. rewrite (clean_stringify v H).
  rewrite (JSON_parse_stringify v (elem_str v) (clean_stringify v H)).
  now rewrite clean_sanitize.
Qed.

(** ** Model invocations *)

Lemma generate_run (request : value) (w : World) :
  run (AIService.model_generateContent request) w =
  if ai_initialized w then (model w (model_calls w) request, emit (EvGenerate request) w)
  else (Throw (TypeError "Cannot read properties of undefined (reading 'generateContent')"), w).
Proof.
  unfold AIService.model_generateContent. simpl.
  destruct (ai_initialized w); simpl; auto.
  destruct (model w (model_calls w) request); reflexivity.
Qed.

Lemma now_value_run (w : World) :
  run AIService.now_value w = (Ok (VNum (num_of_Z (clock w))), w).
Proof. reflexivity. Qed.

Lemma truthy_or_true (v : value) : truthy (js_or v (VBool true)) = true.
Proof. unfold js_or. destruct (truthy v) eqn:E; auto. Qed.

Lemma lookup_obj_set_other (fields : list (string * value)) (p k : string) (v : value) :
  String.eqb p k = false -> lookup k (obj_set fields p v) = lookup k fields.
Proof.
  intros Hpk. induction fields as [|[k' x] rest IH]; simpl.
  - rewrite Hpk. reflexivity.
  - destruct (String.eqb k' p) eqn:E; simpl.
    + apply String.eqb_eq in E. subst k'. now rewrite Hpk.
    + now rewrite IH.
Qed.

(** C10. Whatever the content and the options, the prompt that
    [translateText] sends contains the instruction to preserve formatting,
    because [options?.preserveFormatting || true] is always truthy; setting
    [preserveFormatting] to any value, [false] included, leaves the operation
    unchanged. *)
Theorem translate_always_preserves_formatting (content options : value) (w : World) :
  ai_initialized w = true ->
  trace (snd (run (AIService.translateText content options) w)) =
    EvGenerate
      (AIService.flash
         (VStr ("You are a professional translator. Translate the given text to " ++
                to_str (js_or (get_opt options "targetLanguage") (VStr "Spanish")) ++ ". " ++
                "Preserve the original formatting and structure." ++
                " Ensure accuracy and natural flow in the target language." ++ nl ++ nl ++
                "    Text to translate:" ++ nl ++
                "    " ++ to_str content))) :: trace w
  /\ forall (fields : list (string * value)) (flag : value),
       AIService.translateText content (VObj (obj_set fields "preserveFormatting" flag)) =
       AIService.translateText content (VObj fields).
Proof.
  intros Hinit. split.
  - unfold AIService.translateText. rewrite run_bind, generate_run, Hinit.
    unfold AIService.translatePrompt. rewrite truthy_or_true.
    destruct (model w _ _); reflexivity.
  - intros fields flag. unfold AIService.translateText, AIService.translatePrompt.
    rewrite !truthy_or_true. unfold get_opt, get.
    rewrite lookup_obj_set_other by reflexivity. reflexivity.
Qed.

Lemma translate_always_preserves_formatting_witness :
  trace (snd (run (AIService.translateText (VStr "Hello world!")
                     (VObj [("preserveFormatting", VBool false)])) Sample.offline)) =
  [EvGenerate
     (AIService.flash
        (VStr ("You are a professional translator. Translate the given text to Spanish. " ++
               "Preserve the original formatting and structure." ++
               " Ensure accuracy and natural flow in the target language." ++ nl ++ nl ++
               "    Text to translate:" ++ nl ++
               "    Hello world!")))].
Proof.
  exact (proj1 (translate_always_preserves_formatting (VStr "Hello world!")
                  (VObj [("preserveFormatting", VBool false)]) Sample.offline eq_refl)).
Defined.

(** ** Keyword extraction *)

(** C9 (the code departs from it). When the answer of the model does not
    parse, [extractKeywords] computes the empty list as [keywords] and then
    returns the payload [{response: {error: "Invalid result format"}}]: the
    list is not part of the result. *)
Theorem extractKeywords_discards_keywords :
  fst (run (AIService.extractKeywords (VStr "cats and dogs")) Sample.prose) =
    Ok (VObj [("type", VStr "extract-keywords");
              ("result", VObj [("response", VObj [("error", VStr "Invalid result format")])]);
              ("processingTime", VNum (num_of_Z 1000))])
  /\ AIService.keywords_of (formatResponse "not json") = VArr [].
Proof. split; vm_compute; reflexivity. Qed.

(** ** Validation at the boundary *)

Lemma get_non_nullish (v : value) (p : string) :
  is_nullish v = false -> get v p = Ok (get_opt v p).
Proof. unfold get_opt. destruct v; simpl; intros H; try discriminate; reflexivity. Qed.




(** ** Unsupported types *)

Lemma generateCacheKey_object (fields : list (string * value)) :
  AIService.generateCacheKey (VObj fields) = Ok (fingerprint (VObj fields)).
Proof. reflexivity. Qed.

Lemma valid_request_inv (request : value) :
  valid_request request = true ->
  exists fields, request = VObj fields
    /\ truthy (get_opt request "type") = true
    /\ truthy (get_opt request "content") = true.
Proof.
  destruct request; try discriminate. simpl. intros H.
  apply andb_prop in H. destruct H. eauto.
Qed.

Lemma truthy_non_nullish (v : value) : truthy v = true -> is_nullish v = false.
Proof. destruct v; simpl; auto; discriminate. Qed.

Lemma contentLength_run (request : value) (w : World) :
  valid_request request = true ->
  run (AIService.contentLength request) w =
    (Ok (get_opt (get_opt request "content") "length"), w).
Proof.
  intros H. destruct (valid_request_inv _ H) as (fields & -> & _ & Hc).
  unfold AIService.contentLength. rewrite run_bind.
  rewrite get_non_nullish by reflexivity. simpl.
  rewrite get_non_nullish by (apply truthy_non_nullish; exact Hc). reflexivity.
Qed.

Lemma dispatch_unsupported (fdiv : value -> value -> number) (request : value) (w : World) :
  is_nullish request = false ->
  supported (get_opt request "type") = false ->
  run (AIService.dispatch fdiv request) w =
    (Throw (AIService.unsupported (get_opt request "type")), w).
Proof.
  intros Hn Hs. unfold AIService.dispatch. rewrite run_bind.
  rewrite get_non_nullish by assumption. simpl.
  destruct (get_opt request "type") as [| |b|n|t|l|fs]; try reflexivity.
  simpl in Hs. repeat (apply Bool.orb_false_elim in Hs; destruct Hs as [Hs ?]).
  repeat match goal with H : String.eqb _ _ = false |- _ => rewrite H; clear H end.
  reflexivity.
Qed.

(** The [catch] block of [processContent]. *)
Lemma processContent_catch_run (request : value) (error : error) (w : World) :
  valid_request request = true ->
  run (processingType <- lift (get request "type") ;;
       len <- AIService.contentLength request ;;
       perform_ (Log "error" "AI processing failed"
                   (VObj [("error", VStr (err_message error));
                          ("processingType", processingType);
                          ("contentLength", len)])) ;;
       (Fail error : prog value)) w =
  (Throw error,
   emit (EvLog "error" "AI processing failed"
           (VObj [("error", VStr (err_message error));
                  ("processingType", get_opt request "type");
                  ("contentLength", get_opt (get_opt request "content") "length")])) w).
Proof.
  intros H. destruct (valid_request_inv _ H) as (fields & Hr & _ & _).
  rewrite run_bind, get_non_nullish by (subst; reflexivity). simpl.
  rewrite run_bind, contentLength_run by assumption. reflexivity.
Qed.

Lemma cache_get_effect (key : string) (w : World) :
  let w' := snd (run (CacheService.get key) w) in
  fst (run (CacheService.get key) w) = Ok (cache_answer w key)
  /\ count is_redis_set w' = count is_redis_set w
  /\ model_calls w' = model_calls w
  /\ count is_redis_get w' = (count is_redis_get w + if available w then 1 else 0)%nat
  /\ ai_initialized w' = ai_initialized w
  /\ clock w' = clock w.
Proof.
  rewrite cache_get_run. unfold cache_answer, count, model_calls, next_fault, faulty, redis_lookup.
  destruct (available w); simpl; [|repeat split; auto; lia].
  destruct (redis_faults w) as [|[] fs]; simpl; repeat split; auto; lia.
Qed.

Lemma processContent_unsupported_run
  (fdiv : value -> value -> number) (request : value) (w : World) :
  valid_request request = true ->
  supported (get_opt request "type") = false ->
  AIService.hit (cache_answer w (fingerprint request)) = false ->
  run (AIService.processContent fdiv request) w =
    (Throw (AIService.unsupported (get_opt request "type")),
     emit (EvLog "error" "AI processing failed"
             (VObj [("error", VStr (err_message (AIService.unsupported (get_opt request "type"))));
                    ("processingType", get_opt request "type");
                    ("contentLength", get_opt (get_opt request "content") "length")]))
       (snd (run (CacheService.get (fingerprint request)) w))).
Proof.
  intros Hv Hs Hmiss.
  destruct (valid_request_inv _ Hv) as (fields & Hr & _ & _).
  destruct (cache_get_effect (fingerprint request) w) as (Hg & _).
  unfold AIService.processContent.
  rewrite run_bind, now_run. cbv beta iota.
  rewrite run_bind. rewrite Hr at 1. rewrite generateCacheKey_object, <- Hr, run_lift.
  cbv beta iota. rewrite run_try_catch, run_bind.
  destruct (run (CacheService.get (fingerprint request)) w) as [o w1] eqn:Eg.
  simpl in Hg. subst o. cbv beta iota. rewrite Hmiss.
  rewrite run_bind, dispatch_unsupported by (subst; auto). cbv beta iota.
  rewrite processContent_catch_run by assumption. reflexivity.
Qed.

(** C3, as the code has it. A request that passed validation and whose
    type is none of the five operations: when the lookup of its key does not
    hit, [processContent] throws the error "Unsupported AI processing type"
    without writing to the cache and without invoking the model; it does look
    the key up in the cache first (one [get], when the backend is available). *)
Theorem unsupported_type_fails_after_lookup
  (fdiv : value -> value -> number) (request : value) (w : World) :
  valid_request request = true ->
  supported (get_opt request "type") = false ->
  AIService.hit (cache_answer w (fingerprint request)) = false ->
  let w' := snd (run (AIService.processContent fdiv request) w) in
  fst (run (AIService.processContent fdiv request) w) =
    Throw (Error ("Unsupported AI processing type: " ++ to_str (get_opt request "type")))
  /\ count is_redis_set w' = count is_redis_set w
  /\ model_calls w' = model_calls w
  /\ count is_redis_get w' = (count is_redis_get w + if available w then 1 else 0)%nat.
Proof.
  intros Hv Hs Hmiss.
  rewrite processContent_unsupported_run by assumption.
  destruct (cache_get_effect (fingerprint request) w) as (_ & Hset & Hgen & Hget & _).
  cbv zeta. unfold count, model_calls in *. simpl. auto.
Qed.

Lemma unsupported_type_fails_after_lookup_witness :
  fst (run (AIService.processContent Sample.fdiv (Sample.request "unknown" "x" [])) Sample.online) =
    Throw (Error "Unsupported AI processing type: unknown").
Proof.
  exact (proj1 (unsupported_type_fails_after_lookup Sample.fdiv
                  (Sample.request "unknown" "x" []) Sample.online eq_refl eq_refl eq_refl)).
Defined.

(** C3, as stated, fails: with a cache that can be reached, the request
    [{type: "unknown", content: "x", options: {}}] causes a [get] on the
    cache before it is refused. *)
Lemma unsupported_type_reads_cache :
  In (EvRedisGet "ai:unknown:b52a40d563d24bc2a71642515b66a5fd")
     (trace (snd (run (AIService.processContent Sample.fdiv (Sample.request "unknown" "x" []))
                    Sample.online))).
Proof. vm_compute. auto. Qed.

(** ** The cache key *)





(** ** Cached results *)

Lemma fp_weaken {A : Type} (P : A -> Prop) (n m : nat) (p : prog A) :
  footprint P n p -> (n <= m)%nat -> footprint P m p.
Proof.
  intros H. revert m. induction H as [n a Ha|n e|n X op k Hq _ IH|n request k _ IH];
    intros m Hle.
  - now constructor.
  - constructor.
  - constructor; auto.
  - destruct m as [|m]; [lia|]. apply fp_generate. intros x. apply IH. lia.
Qed.

Lemma fp_bind {A B : Type} (Q : A -> Prop) (P : B -> Prop) (n m : nat)
  (p : prog A) (f : A -> prog B) :
  footprint Q n p -> (forall a, Q a -> footprint P m (f a)) ->
  footprint P (n + m) (bind p f).
Proof.
  intros H Hf. induction H as [n a Ha|n e|n X op k Hq _ IH|n request k _ IH]; cbn [bind].
  - apply fp_weaken with (n := m); [auto|lia].
  - constructor.
  - constructor; auto.
  - cbn [Nat.add]. apply fp_generate. auto.
Qed.

Lemma fp_bind_quiet {A B : Type} (Q : A -> Prop) (P : B -> Prop) (n : nat)
  (p : prog A) (f : A -> prog B) :
  footprint Q 0 p -> (forall a, Q a -> footprint P n (f a)) -> footprint P n (bind p f).
Proof. intros H Hf. exact (fp_bind Q P 0 n p f H Hf). Qed.

Lemma fp_bind_after {A B : Type} (Q : A -> Prop) (P : B -> Prop) (n : nat)
  (p : prog A) (f : A -> prog B) :
  footprint Q n p -> (forall a, Q a -> footprint P 0 (f a)) -> footprint P n (bind p f).
Proof.
  intros H Hf. rewrite <- (Nat.add_0_r n). exact (fp_bind Q P n 0 p f H Hf).
Qed.

Lemma fp_try_catch {A : Type} (P : A -> Prop) (n : nat) (p : prog A) (h : error -> prog A) :
  footprint P n p -> (forall e, footprint P 0 (h e)) -> footprint P n (try_catch p h).
Proof.
  intros H Hh. induction H as [n a Ha|n e|n X op k Hq _ IH|n request k _ IH];
    cbn [try_catch].
  - now constructor.
  - apply fp_weaken with (n := 0%nat); [auto|lia].
  - constructor; auto.
  - apply fp_generate. auto.
Qed.

Lemma fp_lift {A : Type} (o : outcome A) : footprint (fun _ => True) 0 (lift o).
Proof. destruct o; now constructor. Qed.

Lemma fp_perform {X : Type} (op : eff X) :
  quiet op = true -> footprint (fun _ => True) 0 (perform_ op).
Proof. intros H. apply fp_quiet; [assumption|]. intros x. now constructor. Qed.

Lemma quiet_same_cache {X : Type} (op : eff X) (w : World) :
  quiet op = true ->
  same_cache w (snd (perform op w)) /\ model_calls (snd (perform op w)) = model_calls w.
Proof. destruct op; intros H; try discriminate H; repeat split. Qed.

Lemma same_cache_trans (w1 w2 w3 : World) :
  same_cache w1 w2 -> same_cache w2 w3 -> same_cache w1 w3.
Proof. unfold same_cache. intuition congruence. Qed.

Lemma fp_run {A : Type} (P : A -> Prop) (n : nat) (p : prog A)
  (w w' : World) (o : outcome A) :
  footprint P n p -> run p w = (o, w') ->
  same_cache w w' /\ (model_calls w' <= model_calls w + n)%nat
  /\ forall v, o = Ok v -> P v.
Proof.
  intros H. revert w. induction H as [n a Ha|n e|n X op k Hq _ IH|n request k _ IH];
    intros w Hrun; cbn [run] in Hrun.
  - inversion Hrun; subst. split; [repeat split|]. split; [lia|].
    intros v E. inversion E; subst; assumption.
  - inversion Hrun; subst. split; [repeat split|]. split; [lia|]. discriminate.
  - destruct (quiet_same_cache op w Hq) as [Hs Hm].
    destruct (perform op w) as [x w1]. cbn [snd] in *.
    destruct (IH x w1 Hrun) as (Hs' & Hm' & Hv).
    split; [eapply same_cache_trans; eassumption|]. split; [lia|assumption].
  - cbn [perform] in Hrun. destruct (IH _ _ Hrun) as (Hs' & Hm' & Hv).
    split; [exact Hs'|]. split; [|assumption].
    unfold model_calls in *. cbn [emit trace filter is_generate List.length] in Hm'. lia.
Qed.

Lemma fp_generateContent (request : value) :
  footprint (fun _ => True) 1 (AIService.model_generateContent request).
Proof.
  unfold AIService.model_generateContent. apply fp_bind_quiet with (Q := fun _ => True).
  - now apply fp_perform.
  - intros [|] _; [|constructor].
    apply fp_generate. intros [text|e]; now constructor.
Qed.

Lemma fp_now_value : footprint (fun _ => True) 0 AIService.now_value.
Proof.
  unfold AIService.now_value. apply fp_bind_quiet with (Q := fun _ => True).
  - now apply fp_perform.
  - intros t _. now constructor.
Qed.

Lemma fp_ensureInitialized : footprint (fun _ => True) 0 AIService.ensureInitialized.
Proof.
  unfold AIService.ensureInitialized, AIService.init.
  repeat first
    [ apply fp_ret; exact I
    | apply fp_fail
    | apply fp_perform; reflexivity
    | apply fp_bind_quiet with (Q := fun _ => True)
    | intros [|] _
    | intros ? _ ].
Qed.

Lemma fp_dispatch (fdiv : value -> value -> number) (request : value) :
  footprint is_object 1 (AIService.dispatch fdiv request).
Proof.
  unfold AIService.dispatch.
  apply fp_bind_quiet with (Q := fun _ => True); [apply fp_lift|]. intros type _.
  destruct type as [| |b|n|t|l|fs]; try apply fp_fail.
  repeat match goal with |- footprint _ _ (if ?c then _ else _) => destruct c end;
    try apply fp_fail;
    cbv beta delta [AIService.summarizeText AIService.analyzeSentiment
                    AIService.extractKeywords AIService.generateContent
                    AIService.translateText];
    repeat first
      [ apply fp_ret; eexists; reflexivity
      | apply fp_fail
      | apply fp_bind_quiet with (Q := fun _ => True);
          [first [apply fp_lift | apply fp_now_value | apply fp_ensureInitialized
                 | apply fp_perform; reflexivity]|]
      | apply fp_bind_after with (Q := fun _ => True); [apply fp_generateContent|]
      | apply fp_try_catch
      | intros ? _
      | intros ? ].
Qed.

(** ** The two paths of [processContent] *)

Lemma hit_inv (cachedResult : option string) :
  AIService.hit cachedResult = true ->
  exists cached, cachedResult = Some cached /\ cached <> "".
Proof.
  destruct cachedResult as [c|]; [|discriminate]. simpl. intros H.
  exists c. split; [reflexivity|]. intros ->. discriminate H.
Qed.

Lemma hit_non_empty (cached : string) :
  cached <> "" -> AIService.hit (Some cached) = true.
Proof.
  intros H. simpl. destruct (String.eqb_spec cached ""); [contradiction|reflexivity].
Qed.

Lemma cache_set_returns (key val : string) (ttl : Z) (w : World) :
  exists b, fst (run (CacheService.set key val ttl) w) = Ok b.
Proof.
  rewrite cache_set_run. destruct (available w), (faulty w); cbn [fst]; eauto.
Qed.

Lemma cache_get_reachable (key : string) (w : World) :
  available w = true -> redis_faults w = [] ->
  run (CacheService.get key) w = (Ok (redis_lookup w key), emit (EvRedisGet key) w).
Proof.
  intros Ha Hf. rewrite cache_get_run, Ha. unfold faulty, next_fault.
  cbn [emit redis_faults]. rewrite Hf. reflexivity.
Qed.

Lemma cache_set_reachable (key val : string) (ttl : Z) (w : World) :
  available w = true -> redis_faults w = [] ->
  run (CacheService.set key val ttl) w =
    (Ok true,
     set_redis (fun k => if String.eqb k key then Some (val, clock w + 1000 * ttl)
                         else redis w k) (emit (EvRedisSet key val ttl) w)).
Proof.
  intros Ha Hf. rewrite cache_set_run, Ha. unfold faulty, next_fault.
  cbn [emit redis_faults]. rewrite Hf. reflexivity.
Qed.

Lemma JSON_stringify_object (fields : list (string * value)) :
  AIService.JSON_stringify (VObj fields) <> "".
Proof. unfold AIService.JSON_stringify. rewrite stringify_object. discriminate. Qed.

Lemma cache_answer_reachable (key : string) (w : World) :
  available w = true -> redis_faults w = [] -> cache_answer w key = redis_lookup w key.
Proof. intros Ha Hf. unfold cache_answer, faulty. now rewrite Ha, Hf. Qed.

Lemma processContent_prologue_run
  (fdiv : value -> value -> number) (request : value) (w : World) :
  valid_request request = true ->
  run (AIService.processContent fdiv request) w =
  match run (CacheService.get (fingerprint request)) w with
  | (Ok cachedResult, wg) =>
      match
        run (if AIService.hit cachedResult then
               processingType <- lift (get request "type") ;;
               len <- AIService.contentLength request ;;
               perform_ (Log "info" "AI processing result served from cache"
                           (VObj [("processingType", processingType);
                                  ("contentLength", len);
                                  ("cacheHit", VBool true)])) ;;
               match JSON_parse (match cachedResult with Some c => c | None => "" end) with
               | Some parsed => Ret parsed
               | None => Fail (SyntaxError "Unexpected token in JSON")
               end
             else
               result <- AIService.dispatch fdiv request ;;
               CacheService.set (fingerprint request) (AIService.JSON_stringify result)
                 AIService.cacheTimeout ;;
               endTime <- perform_ Now ;;
               processingType <- lift (get request "type") ;;
               len <- AIService.contentLength request ;;
               tokensUsed <- lift (get result "tokensUsed") ;;
               perform_ (Log "info" "AI processing completed"
                           (VObj [("processingType", processingType);
                                  ("contentLength", len);
                                  ("processingTime", VNum (num_of_Z (endTime - clock w)));
                                  ("tokensUsed", tokensUsed)])) ;;
               Ret result) wg
      with
      | (Ok a, w') => (Ok a, w')
      | (Throw e, w') => (Throw e, emit (processing_failed request e) w')
      end
  | (Throw e, wg) => (Throw e, emit (processing_failed request e) wg)
  end.
Proof.
  intros Hv. destruct (valid_request_inv _ Hv) as (fields & Hr & _ & _).
  unfold AIService.processContent.
  rewrite run_bind, now_run. cbv beta iota.
  rewrite run_bind. rewrite Hr at 1. rewrite generateCacheKey_object, <- Hr, run_lift.
  cbv beta iota. rewrite run_try_catch, run_bind.
  destruct (run (CacheService.get (fingerprint request)) w) as [[cachedResult|e] wg].
  - match goal with |- context [run ?p wg] => destruct (run p wg) as [[a|e] w'] end.
    + reflexivity.
    + now rewrite processContent_catch_run.
  - now rewrite processContent_catch_run.
Qed.

Lemma processContent_hit_run
  (fdiv : value -> value -> number) (request : value) (w : World) (cached : string) :
  valid_request request = true ->
  cache_answer w (fingerprint request) = Some cached -> cached <> "" ->
  run (AIService.processContent fdiv request) w =
    let w1 := emit (served_from_cache request)
                (snd (run (CacheService.get (fingerprint request)) w)) in
    match JSON_parse cached with
    | Some parsed => (Ok parsed, w1)
    | None =>
        (Throw (SyntaxError "Unexpected token in JSON"),
         emit (processing_failed request (SyntaxError "Unexpected token in JSON")) w1)
    end.
Proof.
  intros Hv Hc Hne. destruct (valid_request_inv _ Hv) as (fields & Hr & _ & _).
  rewrite processContent_prologue_run by assumption.
  destruct (cache_get_effect (fingerprint request) w) as (Hg & _).
  destruct (run (CacheService.get (fingerprint request)) w) as [o wg].
  cbn [fst snd] in *. subst o. rewrite Hc, hit_non_empty by assumption.
  rewrite run_bind, get_non_nullish by (subst; reflexivity). rewrite run_lift.
  cbv beta iota. rewrite run_bind, contentLength_run by assumption. cbv beta iota.
  cbv zeta. destruct (JSON_parse cached) as [parsed|]; reflexivity.
Qed.

Lemma processContent_miss_run
  (fdiv : value -> value -> number) (request : value) (w : World) :
  valid_request request = true ->
  AIService.hit (cache_answer w (fingerprint request)) = false ->
  run (AIService.processContent fdiv request) w =
    match run (AIService.dispatch fdiv request)
            (snd (run (CacheService.get (fingerprint request)) w)) with
    | (Ok result, wd) =>
        let ws := snd (run (CacheService.set (fingerprint request)
                              (AIService.JSON_stringify result) AIService.cacheTimeout) wd) in
        (Ok result, emit (processing_completed request result (clock ws - clock w)) ws)
    | (Throw e, wd) => (Throw e, emit (processing_failed request e) wd)
    end.
Proof.
  intros Hv Hmiss. destruct (valid_request_inv _ Hv) as (fields & Hr & _ & _).
  rewrite processContent_prologue_run by assumption.
  destruct (cache_get_effect (fingerprint request) w) as (Hg & _).
  destruct (run (CacheService.get (fingerprint request)) w) as [o wg].
  cbn [fst snd] in *. subst o. rewrite Hmiss. rewrite run_bind.
  destruct (run (AIService.dispatch fdiv request) wg) as [[result|e] wd] eqn:Ed;
    [|reflexivity].
  destruct (fp_run _ _ _ _ _ _ (fp_dispatch fdiv request) Ed) as (_ & _ & Hobj).
  destruct (Hobj result eq_refl) as [rfields ->].
  rewrite run_bind.
  pose proof (cache_set_returns (fingerprint request)
     (AIService.JSON_stringify (VObj rfields)) AIService.cacheTimeout wd) as [b Hs].
  destruct (run (CacheService.set (fingerprint request)
              (AIService.JSON_stringify (VObj rfields)) AIService.cacheTimeout) wd) as [os ws].
  cbn [fst snd] in *. subst os. cbv beta iota.
  rewrite run_bind, now_run. cbv beta iota.
  rewrite run_bind, get_non_nullish by (subst; reflexivity). rewrite run_lift.
  cbv beta iota. rewrite run_bind, contentLength_run by assumption. cbv beta iota.
  reflexivity.
Qed.

Lemma redis_lookup_later (w : World) (key cached : string) (d : Z) (ev : list event) :
  redis_lookup w key = Some cached ->
  (forall s expiry, redis w key = Some (s, expiry) -> clock w < expiry -> clock w + d < expiry) ->
  redis_lookup
    (mkWorld (cache_client w) (cache_connected w) (redis w) (redis_faults w)
       (ai_initialized w) (import_ok w) (model w) (clock w + d) ev) key = Some cached.
Proof.
  unfold redis_lookup. cbn [redis clock]. intros H Hlive.
  destruct (redis w key) as [[s expiry]|]; [|discriminate].
  destruct (Z.ltb_spec (clock w) expiry) as [Hlt|]; [|discriminate].
  specialize (Hlive s expiry eq_refl Hlt).
  destruct (Z.ltb_spec (clock w + d) expiry); [assumption|lia].
Qed.

(** C1. A request that passed validation.  When the cache can be reached
    and holds, within its time to live, a text for the key of the request,
    [processContent] returns what [JSON.parse] makes of this text (and throws
    the [SyntaxError] of [JSON.parse] when the text is not JSON), and does not
    invoke the model.  Consequently, when the cache can be reached and no
    command fails, and a first call returns [v1], a second call [d]
    milliseconds later, within the time to live, returns
    [JSON.parse(JSON.stringify(v1))] without invoking the model: the two calls
    invoke it at most once. *)
Theorem cached_result_served_without_model
  (fdiv : value -> value -> number) (request : value) (w : World) :
  valid_request request = true ->
  (forall cached : string,
     cache_answer w (fingerprint request) = Some cached -> cached <> "" ->
     fst (run (AIService.processContent fdiv request) w) =
       match JSON_parse cached with
       | Some parsed => Ok parsed
       | None => Throw (SyntaxError "Unexpected token in JSON")
       end
     /\ model_calls (snd (run (AIService.processContent fdiv request) w)) = model_calls w)
  /\ (forall (v1 : value) (w1 : World) (d : Z),
        available w = true -> redis_faults w = [] ->
        run (AIService.processContent fdiv request) w = (Ok v1, w1) ->
        within_ttl w (fingerprint request) d ->
        exists (v2 : value) (w2 : World),
          run (AIService.processContent fdiv request) (elapse d w1) = (Ok v2, w2)
          /\ JSON_parse (AIService.JSON_stringify v1) = Some v2
          /\ model_calls w2 = model_calls w1
          /\ (model_calls w2 <= model_calls w + 1)%nat).
Proof.
  intros Hv.
  assert (Hhit : forall (w0 : World) (cached : string),
            cache_answer w0 (fingerprint request) = Some cached -> cached <> "" ->
            fst (run (AIService.processContent fdiv request) w0) =
              match JSON_parse cached with
              | Some parsed => Ok parsed
              | None => Throw (SyntaxError "Unexpected token in JSON")
              end
            /\ model_calls (snd (run (AIService.processContent fdiv request) w0)) =
               model_calls w0).
  { intros w0 cached Hc Hne. rewrite processContent_hit_run with (cached := cached) by assumption.
    destruct (cache_get_effect (fingerprint request) w0) as (_ & _ & Hm & _).
    cbv zeta in *. destruct (JSON_parse cached); split; try reflexivity; exact Hm. }
  split; [apply Hhit|].
  intros v1 w1 d Ha Hf Hrun [Hd Hlive].
  assert (Hsecond : forall cached v2,
            cache_answer (elapse d w1) (fingerprint request) = Some cached -> cached <> "" ->
            JSON_parse cached = Some v2 ->
            exists w2, run (AIService.processContent fdiv request) (elapse d w1) = (Ok v2, w2)
                       /\ model_calls w2 = model_calls w1).
  { intros cached v2 Hc Hne Hp. destruct (Hhit (elapse d w1) cached Hc Hne) as [Ho Hm].
    rewrite Hp in Ho.
    destruct (run (AIService.processContent fdiv request) (elapse d w1)) as [o w2].
    cbn [fst snd] in *. subst o. exists w2. split; [reflexivity|exact Hm]. }
  pose proof (cache_answer_reachable (fingerprint request) w Ha Hf) as Hans.
  destruct (AIService.hit (cache_answer w (fingerprint request))) eqn:Eh.
  - (* the first call is served from the cache *)
    destruct (hit_inv _ Eh) as (cached & Hc & Hne).
    rewrite processContent_hit_run with (cached := cached) in Hrun by assumption.
    rewrite cache_get_reachable in Hrun by assumption. cbv zeta in Hrun. cbn [snd] in Hrun.
    destruct (JSON_parse cached) as [parsed|] eqn:Ep; [|discriminate Hrun].
    inversion Hrun; subst v1 w1; clear Hrun.
    destruct (Hsecond cached parsed) as (w2 & Hrun2 & Hm2).
    + rewrite cache_answer_reachable; [|exact Ha|exact Hf].
      apply (redis_lookup_later w); [congruence|assumption].
    + assumption.
    + assumption.
    + exists parsed, w2. split; [exact Hrun2|]. split; [eapply JSON_parse_stable; eassumption|].
      split; [exact Hm2|]. rewrite Hm2. unfold model_calls. cbn. lia.
  - (* the first call invokes the model and stores its result *)
    rewrite processContent_miss_run in Hrun by assumption.
    rewrite cache_get_reachable in Hrun by assumption. cbn [snd] in Hrun.
    destruct (run (AIService.dispatch fdiv request) (emit (EvRedisGet (fingerprint request)) w))
      as [[result|e] wd] eqn:Ed; [|discriminate Hrun].
    destruct (fp_run _ _ _ _ _ _ (fp_dispatch fdiv request) Ed)
      as ((Hcc & Hcn & _ & Hfl & Hck) & Hcalls & Hobj).
    destruct (Hobj result eq_refl) as [rfields ->].
    cbn [emit cache_client cache_connected redis_faults clock] in Hcc, Hcn, Hfl, Hck.
    assert (Had : available wd = true) by (unfold available in *; congruence).
    assert (Hfd : redis_faults wd = []) by congruence.
    rewrite cache_set_reachable in Hrun by assumption. cbv zeta in Hrun. cbn [snd] in Hrun.
    inversion Hrun; subst v1 w1; clear Hrun.
    destruct (JSON_parse (AIService.JSON_stringify (VObj rfields))) as [v2|] eqn:Ep.
    2:{ unfold AIService.JSON_stringify in Ep. rewrite stringify_object in Ep.
        rewrite (JSON_parse_stringify (VObj rfields) _ (stringify_object rfields)) in Ep.
        discriminate Ep. }
    destruct (Hsecond (AIService.JSON_stringify (VObj rfields)) v2) as (w2 & Hrun2 & Hm2).
    + rewrite cache_answer_reachable; [|exact Had|exact Hfd].
      unfold redis_lookup. cbn [elapse emit set_redis redis clock]. rewrite String.eqb_refl.
      match goal with |- context [?a <? ?b] => destruct (Z.ltb_spec a b) end;
        [reflexivity|unfold AIService.cacheTimeout in *; lia].
    + apply JSON_stringify_object.
    + assumption.
    + exists v2, w2. split; [exact Hrun2|]. split; [reflexivity|].
      split; [exact Hm2|]. rewrite Hm2.
      unfold model_calls in *. cbn in *. lia.
Qed.

Lemma cached_result_served_without_model_witness :
  exists (v1 v2 : value) (w1 w2 : World),
    run (AIService.processContent Sample.fdiv (Sample.request "translate" "x" [])) Sample.online
      = (Ok v1, w1)
    /\ run (AIService.processContent Sample.fdiv (Sample.request "translate" "x" []))
         (elapse 60000 w1) = (Ok v2, w2)
    /\ JSON_parse (AIService.JSON_stringify v1) = Some v2
    /\ model_calls w2 = 1%nat.
Proof.
  destruct (run (AIService.processContent Sample.fdiv (Sample.request "translate" "x" []))
              Sample.online) as [[v1|e] w1] eqn:E.
  - assert (Hm : model_calls w1 = 1%nat).
    { vm_compute in E. inversion E. reflexivity. }
    destruct (proj2 (cached_result_served_without_model Sample.fdiv
                       (Sample.request "translate" "x" []) Sample.online eq_refl)
                v1 w1 60000 eq_refl eq_refl E) as (v2 & w2 & H2 & Hp & Hc & _).
    + split; [split; [discriminate|reflexivity]|]. intros s expiry H. discriminate H.
    + exists v1, v2, w1, w2. repeat split; try assumption. congruence.
  - vm_compute in E. discriminate E.
Defined.

(** ** Interleaved calls *)

Section Pool.

Variable W : World -> Prop.
Hypothesis W_stable : stable W.

Lemma run_ends {A : Type} (p : prog A) (w w' : World) (o : outcome A) :
  W w -> run p w = (o, w') -> ends W p o /\ W w'.
Proof.
  revert w. induction p as [a|e|X op k IH]; simpl; intros w Hw Hrun.
  - inversion Hrun; subst. split; [constructor|assumption].
  - inversion Hrun; subst. split; [constructor|assumption].
  - destruct (perform op w) as [x w1] eqn:E.
    assert (Hw1 : W w1).
    { replace w1 with (snd (perform op w)) by now rewrite E. now apply W_stable. }
    destruct (IH x w1 Hw1 Hrun) as [Hends Hw'].
    split; [|assumption]. apply ends_do with (w := w); [assumption|now rewrite E].
Qed.

Lemma step_ends {A : Type} (p p' : prog A) (w w' : World) :
  W w -> AIService.step p w = (p', w') ->
  W w' /\ forall o, ends W p' o -> ends W p o.
Proof.
  intros Hw Hstep. destruct p as [a|e|X op k]; simpl in Hstep.
  - inversion Hstep; subst. auto.
  - inversion Hstep; subst. auto.
  - destruct (perform op w) as [x w1] eqn:E. inversion Hstep; subst.
    split.
    + replace w' with (snd (perform op w)) by now rewrite E. now apply W_stable.
    + intros o Ho. apply ends_do with (w := w); [assumption|now rewrite E].
Qed.

Lemma step_at_ends {A : Type} (i : nat) (pool pool' : list (prog A)) (w w' : World) :
  W w -> AIService.step_at i pool w = (pool', w') ->
  W w'
  /\ (forall vs, fulfilled_by W pool' vs -> fulfilled_by W pool vs)
  /\ (forall e, rejected_by W pool' e -> rejected_by W pool e).
Proof.
  revert i pool' w'. induction pool as [|p rest IH]; intros i pool' w' Hw Hstep; simpl in Hstep.
  - inversion Hstep; subst. auto.
  - destruct i as [|i].
    + destruct (AIService.step p w) as [p1 w1] eqn:E. inversion Hstep; subst.
      destruct (step_ends _ _ _ _ Hw E) as [Hw' Hback].
      split; [assumption|]. split.
      * intros vs H. inversion H; subst. constructor; auto.
      * intros e H. inversion H; subst; [left|right]; auto.
    + destruct (AIService.step_at i rest w) as [rest1 w1] eqn:E. inversion Hstep; subst.
      destruct (IH _ _ _ Hw E) as (Hw' & Hf & Hr).
      split; [assumption|]. split.
      * intros vs H. inversion H; subst. constructor; auto. now apply Hf.
      * intros e H. inversion H; subst; [left|right]; auto. now apply Hr.
Qed.

Lemma first_rejection_ends {A : Type} (pool : list (prog A)) (e : error) :
  AIService.first_rejection pool = Some e -> rejected_by W pool e.
Proof.
  unfold rejected_by. induction pool as [|p rest IH]; simpl; [discriminate|].
  destruct p as [a|e'|X op k]; intros H.
  - right. now apply IH.
  - inversion H; subst. left. constructor.
  - right. now apply IH.
Qed.

Lemma finish_ends {A : Type} (pool : list (prog A)) (w w' : World) (o : outcome (list A)) :
  W w -> AIService.finish pool w = (o, w') -> W w' /\ settles W pool o.
Proof.
  revert w w' o. induction pool as [|p rest IH]; simpl; intros w w' o Hw Hfin.
  - inversion Hfin; subst. split; [assumption|constructor].
  - destruct (run p w) as [[v|e] w1] eqn:E.
    + destruct (run_ends _ _ _ _ Hw E) as [Hp Hw1].
      destruct (AIService.finish rest w1) as [[vs|e] w2] eqn:F;
        destruct (IH _ _ _ Hw1 F) as [Hw2 Hrest]; inversion Hfin; subst;
        (split; [assumption|]).
      * constructor; assumption.
      * right. assumption.
    + destruct (run_ends _ _ _ _ Hw E) as [Hp Hw1]. inversion Hfin; subst.
      split; [assumption|]. left. assumption.
Qed.

(** Whatever the interleaving, a fulfilled [Promise.all] gives the values of
    the calls in the order of the calls, and a rejected one the error of one
    of the calls. *)
Lemma promiseAll_ends {A : Type} (sched : list nat) (pool : list (prog A))
  (w w' : World) (o : outcome (list A)) :
  W w -> AIService.promiseAll sched pool w = (o, w') -> W w' /\ settles W pool o.
Proof.
  revert pool w. induction sched as [|i sched IH]; intros pool w Hw Hall; simpl in Hall.
  - destruct (AIService.first_rejection pool) as [e|] eqn:R.
    + inversion Hall; subst. split; [assumption|]. now apply first_rejection_ends.
    + now apply finish_ends with (w := w).
  - destruct (AIService.first_rejection pool) as [e|] eqn:R.
    + inversion Hall; subst. split; [assumption|]. now apply first_rejection_ends.
    + destruct (AIService.step_at i pool w) as [pool1 w1] eqn:E.
      destruct (step_at_ends _ _ _ _ _ Hw E) as (Hw1 & Hf & Hr).
      destruct (IH _ _ Hw1 Hall) as [Hw' Hs].
      split; [assumption|]. destruct o; simpl in *; auto.
Qed.

End Pool.

(** ** Batches *)

Section Batch.

Variable fdiv : value -> value -> number.
Variable scheds : nat -> list nat.
Variable requests : list value.

Variable W : World -> Prop.
Hypothesis W_stable : stable W.

(** The request [r] can be processed with the result [v]. *)
Let processed (r v : value) : Prop := ends W (AIService.processContent fdiv r) (Ok v).

(** The request [r] can fail with the error [e]. *)
Let failed (e : error) (r : value) : Prop := ends W (AIService.processContent fdiv r) (Throw e).

Lemma fulfilled_by_map (rs vs : list value) :
  fulfilled_by W (map (AIService.processContent fdiv) rs) vs -> Forall2 processed rs vs.
Proof.
  unfold fulfilled_by. revert vs. induction rs as [|r rs IH]; intros vs H; inversion H; subst.
  - constructor.
  - constructor; auto.
Qed.

Lemma rejected_by_map (rs : list value) (e : error) :
  rejected_by W (map (AIService.processContent fdiv) rs) e -> Exists (failed e) rs.
Proof.
  unfold rejected_by. induction rs as [|r rs IH]; intros H; inversion H; subst.
  - left. assumption.
  - right. auto.
Qed.

Lemma window_settles (k : nat) (w w' : World) (o : outcome (list value)) :
  W w -> window fdiv scheds requests k w = (o, w') ->
  W w' /\
  match o with
  | Ok vs => Forall2 processed (window_requests requests k) vs
  | Throw e => Exists (failed e) (window_requests requests k)
  end.
Proof.
  intros Hw Hwin. unfold window in Hwin.
  destruct (promiseAll_ends W W_stable _ _ _ _ _ Hw Hwin) as [Hw' Hs].
  split; [assumption|]. destruct o; simpl in Hs.
  - now apply fulfilled_by_map.
  - now apply rejected_by_map.
Qed.

Lemma cooldown_stable (k : nat) (w : World) : W w -> W (cooldown requests k w).
Proof.
  intros Hw. unfold cooldown.
  destruct (_ <? _)%nat; [now apply W_stable|assumption].
Qed.

(** One turn of the [for] loop, at the start of window [k]. *)
Lemma batchLoop_turn (fuel k : nat) (results : list value) (w : World) :
  AIService.batchLoop fdiv (S fuel) scheds requests (k * AIService.batchSize) results w =
  if (k * AIService.batchSize <? List.length requests)%nat then
    match window fdiv scheds requests k w with
    | (Throw e, w1) => (Throw e, emit (batch_failed k e) w1)
    | (Ok batchResults, w1) =>
        AIService.batchLoop fdiv fuel scheds requests (S k * AIService.batchSize)
          (results ++ batchResults)%list (cooldown requests k w1)
    end
  else (Ok results, w).
Proof.
  cbn [AIService.batchLoop]. unfold window, window_requests, cooldown.
  rewrite Nat.div_mul by (unfold AIService.batchSize; lia).
  replace (S k * AIService.batchSize)%nat with (k * AIService.batchSize + AIService.batchSize)%nat
    by (unfold AIService.batchSize; lia).
  destruct (_ <? _)%nat; [|reflexivity].
  destruct (AIService.promiseAll _ _ w) as [[batchResults|e] w1]; reflexivity.
Qed.

Lemma reaches_loop (k : nat) (results : list value) (w wk : World) :
  reaches fdiv scheds requests k results w wk ->
  (k <= List.length requests)%nat /\
  AIService.batchProcess fdiv scheds requests w =
  AIService.batchLoop fdiv (List.length requests - k) scheds requests
    (k * AIService.batchSize) results wk.
Proof.
  induction 1 as [w|k results batchResults w wk wk' _ [Hk IH] Hlt Hwin].
  - split; [lia|]. unfold AIService.batchProcess. now rewrite Nat.sub_0_r.
  - unfold AIService.batchSize in Hlt. split; [lia|].
    rewrite IH. replace (List.length requests - k)%nat with (S (List.length requests - S k)) by lia.
    rewrite batchLoop_turn, Hwin.
    unfold AIService.batchSize. destruct (Nat.ltb_spec (k * 5) (List.length requests)); [reflexivity|lia].
Qed.

Lemma reaches_stable (k : nat) (results : list value) (w wk : World) :
  W w -> reaches fdiv scheds requests k results w wk -> W wk.
Proof.
  intros Hw. induction 1 as [w|k results batchResults w wk wk' _ IH Hlt Hwin]; [assumption|].
  apply cooldown_stable. exact (proj1 (window_settles _ _ _ _ (IH Hw) Hwin)).
Qed.

(** C4, as the code has it. When the windows before window [k] have all
    been fulfilled and a request of window [k] fails, so that the
    [Promise.all] of the window is rejected with the error [e] of that
    request, [batchProcess] as a whole fails: it throws [e] itself, unchanged,
    and returns no result; the index [k] of the window and the message of
    [e] are written to the error log. *)
Theorem batch_fails_with_cause_of_first_failing_window
  (k : nat) (results : list value) (w wk wk' : World) (e : error) :
  W w ->
  reaches fdiv scheds requests k results w wk ->
  (k * AIService.batchSize < List.length requests)%nat ->
  window fdiv scheds requests k wk = (Throw e, wk') ->
  AIService.batchProcess fdiv scheds requests w =
    (Throw e,
     emit (EvLog "error" "Batch processing failed"
             (VObj [("batchIndex", VNum (num_of_nat k)); ("error", VStr (err_message e))])) wk')
  /\ Exists (fun r => ends W (AIService.processContent fdiv r) (Throw e))
       (window_requests requests k).
Proof.
  intros Hw Hreach Hlt Hwin. split.
  - destruct (reaches_loop _ _ _ _ Hreach) as [Hk ->].
    replace (List.length requests - k)%nat with (S (List.length requests - S k))
      by (unfold AIService.batchSize in Hlt; lia).
    rewrite batchLoop_turn, Hwin.
    destruct (Nat.ltb_spec (k * AIService.batchSize) (List.length requests));
      [reflexivity|unfold AIService.batchSize in *; lia].
  - exact (proj2 (window_settles _ _ _ _ (reaches_stable _ _ _ _ Hw Hreach) Hwin)).
Qed.

Lemma firstn_plus {T : Type} (n m : nat) (l : list T) :
  firstn (n + m) l = (firstn n l ++ firstn m (skipn n l))%list.
Proof.
  revert l. induction n as [|n IH]; intros l; simpl; [reflexivity|].
  destruct l as [|x l]; simpl.
  - now destruct m.
  - now rewrite IH.
Qed.

Lemma firstn_next_window (k : nat) :
  firstn (S k * AIService.batchSize) requests =
  (firstn (k * AIService.batchSize) requests ++ window_requests requests k)%list.
Proof.
  unfold window_requests.
  replace (S k * AIService.batchSize)%nat
    with (k * AIService.batchSize + AIService.batchSize)%nat
    by (unfold AIService.batchSize; lia).
  apply firstn_plus.
Qed.

Lemma batchLoop_fulfilled (fuel k : nat) (results final : list value) (w0 w w' : World) :
  W w ->
  (List.length requests <= (k + fuel) * AIService.batchSize)%nat ->
  Forall2 processed (firstn (k * AIService.batchSize) requests) results ->
  reaches fdiv scheds requests k results w0 w ->
  AIService.batchLoop fdiv fuel scheds requests (k * AIService.batchSize) results w =
    (Ok final, w') ->
  Forall2 processed requests final
  /\ exists n : nat,
       reaches fdiv scheds requests n final w0 w'
       /\ (List.length requests <= n * AIService.batchSize)%nat.
Proof.
  revert k results w.
  induction fuel as [|fuel IH]; intros k results w Hw Hfuel Hres Hreach Hloop.
  - simpl in Hloop. inversion Hloop; subst. rewrite Nat.add_0_r in Hfuel.
    rewrite firstn_all2 in Hres by exact Hfuel. eauto.
  - rewrite batchLoop_turn in Hloop.
    destruct (Nat.ltb_spec (k * AIService.batchSize) (List.length requests)) as [Hlt|Hge].
    + destruct (window fdiv scheds requests k w) as [[batchResults|e] w1] eqn:Hwin;
        [|discriminate].
      destruct (window_settles _ _ _ _ Hw Hwin) as [Hw1 Hbatch].
      apply (IH (S k) _ _ (cooldown_stable k _ Hw1)) in Hloop; [assumption| | |].
      * unfold AIService.batchSize in *; lia.
      * rewrite firstn_next_window. now apply Forall2_app.
      * now apply reaches_next with (wk := w).
    + inversion Hloop; subst. rewrite firstn_all2 in Hres by exact Hge. eauto.
Qed.


End Batch.

Lemma unavailable_stable : stable (fun w => available w = false).
Proof.
  intros X op w Hw. unfold available in *.
  destruct op; simpl; try assumption;
    unfold next_fault; simpl; destruct (redis_faults w) as [|[] fs]; simpl; assumption.
Qed.

Lemma batch_fails_with_cause_of_first_failing_window_witness :
  exists (e : error) (wk' : World),
    window Sample.fdiv Sample.shuffled Sample.second_fails 0 Sample.offline = (Throw e, wk')
    /\ AIService.batchProcess Sample.fdiv Sample.shuffled Sample.second_fails Sample.offline =
         (Throw e,
          emit (EvLog "error" "Batch processing failed"
                  (VObj [("batchIndex", VNum (num_of_nat 0));
                         ("error", VStr (err_message e))])) wk').
Proof.
  destruct (window Sample.fdiv Sample.shuffled Sample.second_fails 0 Sample.offline)
    as [[vs|e] wk'] eqn:E.
  - vm_compute in E. discriminate E.
  - exists e, wk'. split; [reflexivity|].
    refine (proj1 (batch_fails_with_cause_of_first_failing_window
                     Sample.fdiv Sample.shuffled Sample.second_fails
                     (fun w => available w = false) unavailable_stable
                     0 [] Sample.offline Sample.offline wk' e eq_refl _ _ E)).
    + constructor.
    + vm_compute. lia.
Defined.

(** C4, as stated, fails: the error that [batchProcess] throws is the error
    of the failing request itself and carries no window index; it is the
    same error when the failing request is in window 0 and when it is in
    window 1. *)
Lemma batch_error_carries_no_window_index :
  fst (AIService.batchProcess Sample.fdiv (fun _ => []) Sample.second_fails Sample.offline) =
    Throw (mkError "Error" "Unsupported AI processing type: unknown")
  /\ fst (AIService.batchProcess Sample.fdiv (fun _ => []) Sample.last_fails Sample.offline) =
    Throw (mkError "Error" "Unsupported AI processing type: unknown").
Proof. split; vm_compute; reflexivity. Qed.

(** * Further properties of the code *)

(** ** [processContent] and the cache *)

Lemma fp_run_commands {A : Type} (P : A -> Prop) (n : nat) (p : prog A)
  (w w' : World) (o : outcome A) :
  footprint P n p -> run p w = (o, w') ->
  count is_redis_get w' = count is_redis_get w
  /\ count is_redis_set w' = count is_redis_set w.
Proof.
  intros H. revert w. induction H as [n a Ha|n e|n X op k Hq _ IH|n request k _ IH];
    intros w Hrun; cbn [run] in Hrun.
  - inversion Hrun; subst. split; reflexivity.
  - inversion Hrun; subst. split; reflexivity.
  - destruct (perform op w) as [x w1] eqn:Ep.
    destruct (IH x w1 Hrun) as [Hg Hs]. rewrite Hg, Hs.
    destruct op; try discriminate Hq; cbn [perform] in Ep; inversion Ep; subst;
      split; reflexivity.
  - cbn [perform] in Hrun. destruct (IH _ _ Hrun) as [Hg Hs]. rewrite Hg, Hs.
    split; reflexivity.
Qed.

Lemma cache_get_unavailable (key : string) (w : World) :
  available w = false -> run (CacheService.get key) w = (Ok None, w).
Proof. intros H. now rewrite cache_get_run, H. Qed.

Lemma cache_set_unavailable (key val : string) (ttl : Z) (w : World) :
  available w = false -> run (CacheService.set key val ttl) w = (Ok false, w).
Proof. intros H. now rewrite cache_set_run, H. Qed.

Lemma cache_set_effect (key val : string) (ttl : Z) (w : World) :
  let w' := snd (run (CacheService.set key val ttl) w) in
  model_calls w' = model_calls w /\ clock w' = clock w.
Proof.
  rewrite cache_set_run. unfold model_calls, next_fault, faulty.
  destruct (available w); [|split; reflexivity].
  cbn [emit redis_faults]. destruct (redis_faults w) as [|[] fs]; split; reflexivity.
Qed.

(** X1. When the lookup of a validated request does not hit (no entry, an
    empty entry, a cache that cannot be reached, or a lookup that fails),
    [processContent] returns, or throws, exactly what the operation selected
    by the type returns or throws after the lookup: storing the result, and a
    failure to store it, do not change the outcome, nor the number of
    invocations of the model. *)
Theorem miss_returns_what_the_operation_returns
  (fdiv : value -> value -> number) (request : value) (w : World) :
  valid_request request = true ->
  AIService.hit (cache_answer w (fingerprint request)) = false ->
  let wg := snd (run (CacheService.get (fingerprint request)) w) in
  fst (run (AIService.processContent fdiv request) w) =
    fst (run (AIService.dispatch fdiv request) wg)
  /\ model_calls (snd (run (AIService.processContent fdiv request) w)) =
     model_calls (snd (run (AIService.dispatch fdiv request) wg)).
Proof.
  intros Hv Hmiss wg. rewrite processContent_miss_run by assumption. fold wg.
  destruct (run (AIService.dispatch fdiv request) wg) as [[result|e] wd]; cbn [fst snd].
  - split; [reflexivity|].
    destruct (cache_set_effect (fingerprint request) (AIService.JSON_stringify result)
                AIService.cacheTimeout wd) as [Hm _].
    cbv zeta in *. unfold model_calls in *. cbn [emit trace filter is_generate]. exact Hm.
  - split; reflexivity.
Qed.

Lemma cache_get_entries (key : string) (w : World) :
  let w' := snd (run (CacheService.get key) w) in
  redis w' = redis w /\ cache_client w' = cache_client w
  /\ cache_connected w' = cache_connected w.
Proof.
  rewrite cache_get_run. unfold next_fault, faulty.
  destruct (available w); [|repeat split].
  cbn [emit redis_faults]. destruct (redis_faults w) as [|[] fs]; repeat split.
Qed.

(** X2. When the lookup does not hit and the operation throws [e],
    [processContent] throws [e] itself after writing it to the error log, sends
    no [SET] and leaves the entries of the cache as they were: a failure is
    never cached. *)
Theorem failed_operation_is_not_cached
  (fdiv : value -> value -> number) (request : value) (w wd : World) (e : error) :
  valid_request request = true ->
  AIService.hit (cache_answer w (fingerprint request)) = false ->
  run (AIService.dispatch fdiv request) (snd (run (CacheService.get (fingerprint request)) w))
    = (Throw e, wd) ->
  let w' := snd (run (AIService.processContent fdiv request) w) in
  run (AIService.processContent fdiv request) w = (Throw e, emit (processing_failed request e) wd)
  /\ redis w' = redis w
  /\ count is_redis_set w' = count is_redis_set w.
Proof.
  intros Hv Hmiss Hd. rewrite processContent_miss_run by assumption. rewrite Hd.
  cbv zeta. cbn [snd]. split; [reflexivity|].
  destruct (fp_run _ _ _ _ _ _ (fp_dispatch fdiv request) Hd) as ((_ & _ & Hr & _) & _).
  destruct (fp_run_commands _ _ _ _ _ _ (fp_dispatch fdiv request) Hd) as [_ Hs].
  destruct (cache_get_entries (fingerprint request) w) as (Hr' & _).
  destruct (cache_get_effect (fingerprint request) w) as (_ & Hs' & _).
  cbv zeta in *. split.
  - cbn [emit redis]. congruence.
  - unfold count, processing_failed in *. cbn [emit trace filter is_redis_set]. congruence.
Qed.

(** X3. When the cache cannot be reached (no client, or not
    connected), [processContent] sends no command to it, neither [GET] nor
    [SET], and returns or throws what the operation does. *)
Theorem unavailable_cache_is_bypassed
  (fdiv : value -> value -> number) (request : value) (w : World) :
  valid_request request = true ->
  available w = false ->
  let w' := snd (run (AIService.processContent fdiv request) w) in
  fst (run (AIService.processContent fdiv request) w) =
    fst (run (AIService.dispatch fdiv request) w)
  /\ count is_redis_get w' = count is_redis_get w
  /\ count is_redis_set w' = count is_redis_set w
  /\ redis w' = redis w.
Proof.
  intros Hv Ha.
  assert (Hmiss : AIService.hit (cache_answer w (fingerprint request)) = false).
  { unfold cache_answer. now rewrite Ha. }
  rewrite processContent_miss_run by assumption.
  rewrite cache_get_unavailable by assumption. cbn [snd].
  destruct (run (AIService.dispatch fdiv request) w) as [[result|e] wd] eqn:Hd.
  - destruct (fp_run _ _ _ _ _ _ (fp_dispatch fdiv request) Hd)
      as ((Hcc & Hcn & Hr & _) & _).
    destruct (fp_run_commands _ _ _ _ _ _ (fp_dispatch fdiv request) Hd) as [Hg Hs].
    assert (Had : available wd = false) by (unfold available in *; congruence).
    rewrite cache_set_unavailable by assumption. cbv zeta. cbn [fst snd].
    unfold count, processing_failed, processing_completed in *.
    cbn [emit trace filter is_redis_get is_redis_set redis].
    repeat split; assumption.
  - destruct (fp_run _ _ _ _ _ _ (fp_dispatch fdiv request) Hd) as ((_ & _ & Hr & _) & _).
    destruct (fp_run_commands _ _ _ _ _ _ (fp_dispatch fdiv request) Hd) as [Hg Hs].
    cbv zeta. cbn [fst snd].
    unfold count, processing_failed, processing_completed in *.
    cbn [emit trace filter is_redis_get is_redis_set redis].
    repeat split; assumption.
Qed.

(** X4. When the cache can be reached, no command fails and the lookup
    does not hit, the result that [processContent] returns is stored under the
    key of the request as its [JSON.stringify] text, with a time to live of
    3600 seconds: a lookup [d] milliseconds after the call answers this text
    for [d < 3600000] and nothing from then on. *)
Theorem result_is_cached_for_one_hour
  (fdiv : value -> value -> number) (request result : value) (w w' : World) (d : Z) :
  valid_request request = true ->
  available w = true -> redis_faults w = [] ->
  AIService.hit (cache_answer w (fingerprint request)) = false ->
  run (AIService.processContent fdiv request) w = (Ok result, w') ->
  cache_answer (elapse d w') (fingerprint request) =
    if d <? 3600000 then Some (AIService.JSON_stringify result) else None.
Proof.
  intros Hv Ha Hf Hmiss Hrun.
  rewrite processContent_miss_run in Hrun by assumption.
  rewrite cache_get_reachable in Hrun by assumption. cbn [snd] in Hrun.
  destruct (run (AIService.dispatch fdiv request) (emit (EvRedisGet (fingerprint request)) w))
    as [[r|e] wd] eqn:Ed; [|discriminate Hrun].
  destruct (fp_run _ _ _ _ _ _ (fp_dispatch fdiv request) Ed)
    as ((Hcc & Hcn & _ & Hfl & Hck) & _).
  cbn [emit cache_client cache_connected redis_faults clock] in Hcc, Hcn, Hfl, Hck.
  assert (Had : available wd = true) by (unfold available in *; congruence).
  assert (Hfd : redis_faults wd = []) by congruence.
  rewrite cache_set_reachable in Hrun by assumption. cbv zeta in Hrun. cbn [snd] in Hrun.
  inversion Hrun; subst result w'; clear Hrun.
  rewrite cache_answer_reachable; [|exact Had|exact Hfd].
  unfold redis_lookup. cbn [elapse emit set_redis redis clock]. rewrite String.eqb_refl.
  unfold AIService.cacheTimeout.
  destruct (Z.ltb_spec d 3600000);
    match goal with |- context [?a <? ?b] => destruct (Z.ltb_spec a b) end;
    try reflexivity; lia.
Qed.

(** ** Initialization of the model client *)

Lemma ensureInitialized_effect (w : World) :
  let w' := snd (run AIService.ensureInitialized w) in
  fst (run AIService.ensureInitialized w) =
    (if ai_initialized w || import_ok w then Ok tt else Throw not_initialized)
  /\ ai_initialized w' = (ai_initialized w || import_ok w)
  /\ model_calls w' = model_calls w
  /\ count is_import w' = (count is_import w + if ai_initialized w then 0 else 1)%nat.
Proof.
  unfold AIService.ensureInitialized, AIService.init, count, model_calls.
  cbn [run bind perform_ perform]. destruct (ai_initialized w) eqn:Ei; cbn [negb].
  - cbn [run snd fst orb]. rewrite Ei. repeat split. now rewrite Nat.add_0_r.
  - cbn [run bind perform]. destruct (import_ok w) eqn:Eo;
      cbn [run bind perform set_initialized emit ai_initialized negb snd fst orb trace
           filter is_generate is_import List.length];
      repeat split; now rewrite Nat.add_1_r.
Qed.

Lemma ensureInitialized_ready (w : World) :
  ai_initialized w = true -> run AIService.ensureInitialized w = (Ok tt, w).
Proof.
  intros Hi. unfold AIService.ensureInitialized. cbn [run bind perform_ perform].
  now rewrite Hi.
Qed.

(** X5. [ensureInitialized] returns when the client is initialized or the
    import of the client library succeeds, and throws "Failed to initialize
    Google GenAI client" otherwise; it imports the library only when the client
    is not initialized, never invokes the model, and leaves the client
    initialized exactly in the cases where it returns; once the client is
    initialized a further call does nothing. *)
Theorem ensureInitialized_initializes_once (w : World) :
  let w' := snd (run AIService.ensureInitialized w) in
  fst (run AIService.ensureInitialized w) =
    (if ai_initialized w || import_ok w then Ok tt else Throw not_initialized)
  /\ ai_initialized w' = (ai_initialized w || import_ok w)
  /\ model_calls w' = model_calls w
  /\ count is_import w' = (count is_import w + if ai_initialized w then 0 else 1)%nat
  /\ (ai_initialized w' = true -> run AIService.ensureInitialized w' = (Ok tt, w')).
Proof.
  destruct (ensureInitialized_effect w) as (Ho & Hi & Hm & Hc). cbv zeta in *.
  repeat split; try assumption. apply ensureInitialized_ready.
Qed.

Lemma get_opt_object (fields : list (string * value)) (p : string) :
  get (VObj fields) p = Ok (get_opt (VObj fields) p).
Proof. reflexivity. Qed.

(** X6. On a service whose client is not initialized yet, the
    operations summarize, extract-keywords, generate-content and translate
    throw the [TypeError] of reading [generateContent] of [undefined], without
    any effect: they do not call [ensureInitialized].  Only analyze-sentiment
    initializes the client first: it invokes the model once when the import
    succeeds, and throws "Failed to initialize Google GenAI client" without
    invoking it when the import fails. *)
Theorem only_sentiment_analysis_initializes
  (fdiv : value -> value -> number) (request : value) (t : string) (w : World) :
  valid_request request = true ->
  get_opt request "type" = VStr t ->
  ai_initialized w = false ->
  (In t ["summarize"; "extract-keywords"; "generate-content"; "translate"] ->
   get_opt request "options" <> VNull ->
   run (AIService.dispatch fdiv request) w = (Throw no_model, w))
  /\ (t = "analyze-sentiment" ->
      let w' := snd (run (AIService.dispatch fdiv request) w) in
      ai_initialized w' = import_ok w
      /\ model_calls w' = (model_calls w + if import_ok w then 1 else 0)%nat
      /\ (import_ok w = false ->
          fst (run (AIService.dispatch fdiv request) w) = Throw not_initialized)).
Proof.
  intros Hv Ht Hi. destruct (valid_request_inv _ Hv) as (fields & -> & _ & Hc).
  unfold AIService.dispatch. rewrite run_bind, get_opt_object, run_lift, Ht.
  cbv beta iota. split.
  - intros Hin Hopt.
    assert (Hrun : forall request, run (AIService.model_generateContent request) w =
                                   (Throw no_model, w)).
    { intros r. now rewrite generate_run, Hi. }
    cbn [In] in Hin.
    destruct Hin as [<-|[<-|[<-|[<-|[]]]]]; cbn [String.eqb Ascii.eqb Bool.eqb andb];
      rewrite run_bind, get_opt_object, run_lift; cbv beta iota.
    + rewrite run_bind, get_opt_object, run_lift. cbv beta iota.
      unfold AIService.summarizeText.
      destruct (get_opt (VObj fields) "options") as [| |b|n|s|l|fs] eqn:Eo;
        try contradiction; cbv beta iota zeta;
        rewrite run_bind; cbn [get lift run]; rewrite run_bind; cbn [get lift run];
        rewrite run_bind, Hrun; reflexivity.
    + unfold AIService.extractKeywords. now rewrite run_bind, Hrun.
    + rewrite run_bind, get_opt_object, run_lift. cbv beta iota.
      unfold AIService.generateContent. cbv zeta. now rewrite run_bind, Hrun.
    + rewrite run_bind, get_opt_object, run_lift. cbv beta iota.
      unfold AIService.translateText. cbv zeta. now rewrite run_bind, Hrun.
  - intros ->. cbn [String.eqb Ascii.eqb Bool.eqb andb].
    rewrite run_bind, get_opt_object, run_lift. cbv beta iota.
    unfold AIService.analyzeSentiment. rewrite run_bind.
    pose proof (ensureInitialized_effect w) as He. cbv zeta in He.
    destruct (run AIService.ensureInitialized w) as [o w1].
    cbn [fst snd] in He. destruct He as (Ho & Hi1 & Hm1 & _).
    rewrite Hi in Ho, Hi1. cbn [orb] in Ho, Hi1. subst o.
    destruct (import_ok w) eqn:Eo.
    + cbv beta iota. rewrite run_try_catch, run_bind, generate_run, Hi1.
      destruct (model w1 (model_calls w1) _) as [text|e]; cbv beta iota.
      * rewrite run_bind, now_value_run. cbn [run snd].
        unfold model_calls in *. cbn [emit ai_initialized trace filter is_generate List.length].
        rewrite Hm1, Nat.add_1_r. repeat split; try assumption. discriminate.
      * cbn [run bind perform_ perform snd].
        unfold model_calls in *. cbn [emit ai_initialized trace filter is_generate List.length].
        rewrite Hm1, Nat.add_1_r. repeat split; try assumption. discriminate.
    + cbv beta iota. cbn [snd fst]. rewrite Hm1, Nat.add_0_r. repeat split; assumption.
Qed.

(** ** Options and their defaults *)

(** X7. [generateContent] computes the temperature as
    [options?.temperature || 0.7]: whenever the option is falsy (absent, [null],
    [0], [NaN], the empty string, [false]), and in particular when the caller
    asks for the temperature 0, the request sent to the model carries the
    temperature 0.7. *)
Theorem falsy_temperature_becomes_default (prompt options : value) (w : World) :
  truthy (get_opt options "temperature") = false ->
  ai_initialized w = true ->
  exists request : value,
    trace (snd (run (AIService.generateContent prompt options) w)) =
      EvGenerate request :: trace w
    /\ get_opt (get_opt request "generationConfig") "temperature" = VNum (Dec false [D7] 0).
Proof.
  intros Ht Hi. unfold AIService.generateContent. cbv zeta.
  unfold js_or at 2. rewrite Ht.
  eexists. rewrite run_bind, generate_run, Hi. split.
  - destruct (model w (model_calls w) _) as [text|e]; cbv beta iota.
    + rewrite run_bind, now_value_run. reflexivity.
    + reflexivity.
  - reflexivity.
Qed.

(** ** The controller *)

Lemma controller_processContent_run
  (fdiv : value -> value -> number) (body : value) (w : World) :
  is_nullish body = false -> lacks_field body = false ->
  run (AIController.processContent fdiv body) w =
  match run (AIService.processContent fdiv (service_request body)) w with
  | (Ok result, w') => (Ok (AIController.mkResponse 200 result), w')
  | (Throw e, w') =>
      (Ok (processing_error_response e),
       emit (EvLog "error" "Error in AI content processing"
               (VObj [("error", VStr (err_message e))])) w')
  end.
Proof.
  intros Hbody Hlack. unfold AIController.processContent.
  rewrite run_try_catch, !run_bind.
  rewrite (get_non_nullish body "type") by assumption. rewrite run_lift. cbv beta iota.
  rewrite !run_bind, (get_non_nullish body "content") by assumption. rewrite run_lift.
  cbv beta iota.
  rewrite !run_bind, (get_non_nullish body "options") by assumption. rewrite run_lift.
  cbv beta iota. unfold lacks_field in Hlack. rewrite Hlack. rewrite run_bind.
  fold (service_request body).
  destruct (run (AIService.processContent fdiv (service_request body)) w) as [[result|e] w'].
  - reflexivity.
  - cbn [run bind perform_ perform]. unfold processing_error_response.
    destruct (AIController.includes _ _); reflexivity.
Qed.

(** X8. For every body that is neither [undefined] nor [null], the
    controller of the single endpoint answers: [processContent] never throws,
    and the status of its response is 200, 400 or 500. *)
Theorem controller_always_responds
  (fdiv : value -> value -> number) (body : value) (w : World) :
  is_nullish body = false ->
  exists (response : AIController.response) (w' : World),
    run (AIController.processContent fdiv body) w = (Ok response, w')
    /\ In (AIController.status response) [200; 400; 500].
Proof.
  intros Hbody. destruct (lacks_field body) eqn:Hlack.
  - unfold AIController.processContent.
    rewrite run_try_catch, !run_bind.
    rewrite (get_non_nullish body "type") by assumption. rewrite run_lift. cbv beta iota.
    rewrite !run_bind, (get_non_nullish body "content") by assumption. rewrite run_lift.
    cbv beta iota.
    rewrite !run_bind, (get_non_nullish body "options") by assumption. rewrite run_lift.
    cbv beta iota. unfold lacks_field in Hlack. rewrite Hlack.
    eexists. eexists. split; [reflexivity|]. cbn. auto.
  - rewrite controller_processContent_run by assumption.
    destruct (run (AIService.processContent fdiv (service_request body)) w) as [[result|e] w'].
    + eexists. eexists. split; [reflexivity|]. cbn. auto.
    + eexists. eexists. split; [reflexivity|]. unfold processing_error_response.
      destruct (AIController.includes _ _); cbn; auto.
Qed.

Lemma includes_prefix (p s r : string) :
  strip_prefix p s = Some r -> AIController.includes p s = true.
Proof. destruct s; cbn [AIController.includes]; intros ->; reflexivity. Qed.

Lemma service_request_valid (body : value) :
  lacks_field body = false -> valid_request (service_request body) = true.
Proof.
  unfold lacks_field, valid_request, service_request. intros H.
  apply Bool.orb_false_elim in H. destruct H as [Ht Hc].
  apply Bool.negb_false_iff in Ht, Hc.
  change (get_opt (VObj _) "type") with (get_opt body "type").
  change (get_opt (VObj _) "content") with (get_opt body "content").
  now rewrite Ht, Hc.
Qed.

(** X9. A body with a type and a content whose type is none of the
    five operations is answered, when the lookup of its key does not hit, with
    status 400 and the message "Unsupported AI processing type: " followed by
    the type; the model is not invoked. *)
Theorem unsupported_type_is_a_bad_request
  (fdiv : value -> value -> number) (body : value) (w : World) :
  is_nullish body = false -> lacks_field body = false ->
  supported (get_opt body "type") = false ->
  AIService.hit (cache_answer w (fingerprint (service_request body))) = false ->
  fst (run (AIController.processContent fdiv body) w) =
    Ok (AIController.mkResponse 400
          (VObj [("message",
                  VStr ("Unsupported AI processing type: " ++ to_str (get_opt body "type")))]))
  /\ model_calls (snd (run (AIController.processContent fdiv body) w)) = model_calls w.
Proof.
  intros Hbody Hlack Hs Hmiss.
  rewrite controller_processContent_run by assumption.
  rewrite processContent_unsupported_run; [|now apply service_request_valid|exact Hs|exact Hmiss].
  change (get_opt (service_request body) "type") with (get_opt body "type").
  unfold processing_error_response, AIService.unsupported, Error. cbn [err_message].
  rewrite (includes_prefix _ _ (": " ++ to_str (get_opt body "type")))
    by apply (strip_prefix_append "Unsupported AI processing type").
  cbn [fst snd]. split; [reflexivity|].
  destruct (cache_get_effect (fingerprint (service_request body)) w) as (_ & _ & Hm & _).
  cbv zeta in Hm. unfold model_calls in *. cbn [emit trace filter is_generate]. exact Hm.
Qed.

Lemma validate_valid (requests : list value) :
  Forall (fun r => valid_request r = true) requests ->
  AIController.validate requests = Ok true.
Proof.
  induction 1 as [|r rest Hr _ IH]; [reflexivity|].
  destruct (valid_request_inv _ Hr) as (fields & -> & Ht & Hc).
  cbn [AIController.validate]. rewrite !get_opt_object, Ht, Hc. exact IH.
Qed.

Lemma everything_stable : stable (fun _ : World => True).
Proof. intros X op w _. exact I. Qed.

(** X10. For a body whose [requests] is a non-empty array of requests
    that each have a type and a content, the batch controller answers with
    status 200, the results and a [count] equal to the number of requests when
    the service returns, and with status 500, the message "AI batch processing
    failed" and the message of the error when the service throws (and logs the
    error): whatever the error, never 400. *)
Theorem batch_response_counts_the_requests
  (fdiv : value -> value -> number) (scheds : nat -> list nat)
  (body : value) (requests : list value) (w : World) :
  get body "requests" = Ok (VArr requests) ->
  requests <> [] ->
  Forall (fun r => valid_request r = true) requests ->
  AIController.batchProcess fdiv scheds body w =
    match AIService.batchProcess fdiv scheds requests w with
    | (Ok results, w') =>
        (AIController.mkResponse 200
           (VObj [("results", VArr results);
                  ("count", VNum (num_of_nat (List.length requests)))]), w')
    | (Throw e, w') =>
        (AIController.mkResponse 500
           (VObj [("message", VStr "AI batch processing failed");
                  ("error", VStr (err_message e))]),
         emit (EvLog "error" "Error in AI batch processing"
                 (VObj [("error", VStr (err_message e))])) w')
    end.
Proof.
  intros Hget Hne Hall. unfold AIController.batchProcess. rewrite Hget.
  destruct requests as [|first others]; [contradiction|].
  rewrite validate_valid by assumption.
  destruct (AIService.batchProcess fdiv scheds (first :: others) w) as [[results|e] w'] eqn:Hb.
  - unfold AIService.batchProcess in Hb.
    destruct (batchLoop_fulfilled fdiv scheds (first :: others) (fun _ => True)
                everything_stable (List.length (first :: others)) 0 [] results w w w' I)
      as [Hres _].
    + unfold AIService.batchSize. lia.
    + constructor.
    + constructor.
    + exact Hb.
    + now rewrite (Forall2_length Hres).
  - reflexivity.
Qed.

(** X11. A body whose [requests] is missing, is not an array, or is the
    empty array is answered with status 400 and the message "Valid requests
    array is required", before any effect. *)
Theorem batch_without_requests_is_rejected
  (fdiv : value -> value -> number) (scheds : nat -> list nat) (body : value) (w : World) :
  is_nullish body = false ->
  (forall first others, get_opt body "requests" <> VArr (first :: others)) ->
  AIController.batchProcess fdiv scheds body w =
    (AIController.mkResponse 400 (VObj [("message", VStr "Valid requests array is required")]),
     w).
Proof.
  intros Hbody Hno. unfold AIController.batchProcess.
  rewrite get_non_nullish by assumption.
  destruct (get_opt body "requests") as [| |b|n|s|[|first others]|fs]; try reflexivity.
  now destruct (Hno first others).
Qed.

(** X12. The controller passes to the service the type, the content and
    the options of the body and nothing else, the options being replaced by
    the empty object when they are falsy: two bodies that agree on these are
    answered alike, in particular a body without options and the same body with
    [options: {}], and a body with further fields. *)
Theorem controller_reads_three_fields_only
  (fdiv : value -> value -> number) (body body' : value) (w : World) :
  is_nullish body = false -> is_nullish body' = false ->
  get_opt body' "type" = get_opt body "type" ->
  get_opt body' "content" = get_opt body "content" ->
  (get_opt body' "options" = get_opt body "options"
   \/ (truthy (get_opt body "options") = false /\ get_opt body' "options" = VObj [])) ->
  run (AIController.processContent fdiv body') w = run (AIController.processContent fdiv body) w.
Proof.
  intros Hb Hb' Ht Hc Ho.
  assert (Hl : lacks_field body' = lacks_field body).
  { unfold lacks_field. now rewrite Ht, Hc. }
  assert (Hs : service_request body' = service_request body).
  { unfold service_request. rewrite Ht, Hc. destruct Ho as [->|[Hf ->]]; [reflexivity|].
    unfold js_or. now rewrite Hf. }
  destruct (lacks_field body) eqn:E.
  - unfold AIController.processContent.
    rewrite !run_try_catch, !run_bind.
    rewrite (get_non_nullish body "type"), (get_non_nullish body' "type") by assumption.
    rewrite !run_lift. cbv beta iota.
    rewrite !run_bind.
    rewrite (get_non_nullish body "content"), (get_non_nullish body' "content") by assumption.
    rewrite !run_lift. cbv beta iota.
    rewrite !run_bind.
    rewrite (get_non_nullish body "options"), (get_non_nullish body' "options") by assumption.
    rewrite !run_lift. cbv beta iota.
    unfold lacks_field in Hl, E. rewrite Hl, E. reflexivity.
  - rewrite !controller_processContent_run by assumption. now rewrite Hs.
Qed.

(** ** The cache service: entries and their time to live *)

Lemma healthy_elapse (d : Z) (w : World) : healthy w -> healthy (elapse d w).
Proof. intros H. exact H. Qed.

Lemma healthy_set (key val : string) (ttl : Z) (w : World) :
  healthy w -> healthy (snd (run (CacheService.set key val ttl) w)).
Proof.
  intros [Ha Hf]. rewrite cache_set_reachable by assumption. split; assumption.
Qed.

Lemma get_healthy (key : string) (w : World) :
  healthy w -> fst (run (CacheService.get key) w) = Ok (redis_lookup w key).
Proof. intros [Ha Hf]. now rewrite cache_get_reachable. Qed.

Lemma get_answer (key : string) (w : World) :
  fst (run (CacheService.get key) w) = Ok (cache_answer w key).
Proof. now destruct (cache_get_effect key w) as (Hg & _). Qed.

Lemma set_then_answer (key val : string) (ttl d : Z) (w : World) :
  healthy w ->
  let w' := elapse d (snd (run (CacheService.set key val ttl) w)) in
  fst (run (CacheService.set key val ttl) w) = Ok true
  /\ cache_answer w' key = (if d <? 1000 * ttl then Some val else None)
  /\ forall other : string,
       other <> key -> cache_answer w' other = cache_answer (elapse d w) other.
Proof.
  intros Hw w'.
  assert (Hw' : healthy w') by (apply healthy_elapse, healthy_set, Hw).
  destruct Hw' as [Ha' Hf']. rewrite !(cache_answer_reachable _ w') by assumption.
  subst w'. destruct Hw as [Ha Hf].
  rewrite cache_set_reachable in * by assumption. cbn [fst snd].
  split; [reflexivity|]. split.
  - unfold redis_lookup. cbn [elapse emit set_redis redis clock]. rewrite String.eqb_refl.
    destruct (Z.ltb_spec d (1000 * ttl));
      match goal with |- context [?a <? ?b] => destruct (Z.ltb_spec a b) end;
      try reflexivity; lia.
  - intros other Hother. cbn [snd] in Ha', Hf'.
    rewrite (cache_answer_reachable other (elapse d w) Ha Hf).
    rewrite (cache_answer_reachable other _ Ha' Hf').
    unfold redis_lookup. cbn [elapse emit set_redis redis clock].
    destruct (String.eqb_spec other key); [contradiction|reflexivity].
Qed.

(** X13. After [set(key, val, ttl)] on a cache that can be reached and does
    not fail, [set] has returned [true] and a [get] of the key [d]
    milliseconds later returns [val] as long as [d < 1000 * ttl], and [null]
    from then on; the [get] of any other key returns what it would have
    returned without the [set]. *)
Theorem set_then_get (key val : string) (ttl d : Z) (w : World) :
  healthy w -> 0 < ttl -> 0 <= d ->
  let w' := elapse d (snd (run (CacheService.set key val ttl) w)) in
  fst (run (CacheService.set key val ttl) w) = Ok true
  /\ fst (run (CacheService.get key) w') = Ok (if d <? 1000 * ttl then Some val else None)
  /\ forall other : string,
       other <> key ->
       fst (run (CacheService.get other) w') = fst (run (CacheService.get other) (elapse d w)).
Proof.
  intros Hw _ _ w'. destruct (set_then_answer key val ttl d w Hw) as (Hset & Hkey & Hother).
  fold w' in Hkey, Hother. split; [exact Hset|]. split.
  - now rewrite get_answer, Hkey.
  - intros other Hne. now rewrite !get_answer, Hother.
Qed.

Lemma JSON_parse_empty : JSON_parse "" = None.
Proof. reflexivity. Qed.

Lemma stringify_non_empty (v : value) (s : string) : stringify v = Some s -> s <> "".
Proof.
  intros E ->. apply JSON_parse_stringify in E. rewrite JSON_parse_empty in E. discriminate E.
Qed.

Lemma absent_hit (value : option string) : CacheStore.absent value = negb (AIService.hit value).
Proof. destruct value as [s|]; [|reflexivity]. simpl. now rewrite Bool.negb_involutive. Qed.

Lemma getJSON_run (key : string) (w : World) :
  fst (run (CacheStore.getJSON key) w) =
    Ok (match cache_answer w key with
        | Some serialized =>
            match JSON_parse serialized with
            | Some parsed => parsed
            | None => VNull
            end
        | None => VNull
        end).
Proof.
  unfold CacheStore.getJSON. rewrite run_try_catch, run_bind.
  destruct (cache_get_effect key w) as (Hg & _).
  destruct (run (CacheService.get key) w) as [o wg]. cbn [fst] in Hg. subst o.
  cbv beta iota. destruct (cache_answer w key) as [s|]; [|reflexivity].
  cbn [CacheStore.absent]. destruct (String.eqb_spec s "") as [->|Hne].
  - rewrite JSON_parse_empty. reflexivity.
  - destruct (JSON_parse s); reflexivity.
Qed.

Lemma setJSON_run (key : string) (v : value) (ttl : Z) (w : World) :
  run (CacheStore.setJSON key v ttl) w =
    match stringify v with
    | Some serialized => run (CacheService.set key serialized ttl) w
    | None =>
        if available w then
          (Ok false,
           emit (EvLog "error" "Error setting value in cache"
                   (CacheService.error_meta key CacheStore.invalid_argument)) w)
        else (Ok false, w)
    end.
Proof.
  unfold CacheStore.setJSON. rewrite run_try_catch.
  destruct (stringify v) as [s|]; cbn [CacheStore.set_serialized].
  - rewrite cache_set_run. destruct (available w); [|reflexivity].
    cbv zeta. destruct (faulty w); reflexivity.
  - rewrite run_try_catch. unfold available. cbn [run bind perform_ perform fst snd].
    destruct (cache_client w), (cache_connected w); reflexivity.
Qed.

(** X14. After [setJSON(key, v, ttl)] of a value that has a JSON text, on a
    cache that can be reached and does not fail, [getJSON(key)] within the time
    to live returns [JSON.parse(JSON.stringify(v))]: the value [v] itself
    when [v] is made of what [JSON.parse] builds (no [undefined], [NaN] or
    infinity inside, no duplicate key). *)
Theorem setJSON_then_getJSON (key : string) (v : value) (ttl d : Z) (w : World) :
  healthy w -> 0 <= d < 1000 * ttl ->
  stringify v <> None ->
  let w' := elapse d (snd (run (CacheStore.setJSON key v ttl) w)) in
  fst (run (CacheStore.setJSON key v ttl) w) = Ok true
  /\ fst (run (CacheStore.getJSON key) w') = Ok (sanitize v)
  /\ (clean v -> fst (run (CacheStore.getJSON key) w') = Ok v).
Proof.
  intros Hw Hd Hs w'. destruct (stringify v) as [s|] eqn:E; [clear Hs|contradiction].
  destruct (set_then_answer key s ttl d w Hw) as (Hset & Hkey & _).
  assert (Hget : fst (run (CacheStore.getJSON key) w') = Ok (sanitize v)).
  { subst w'. rewrite getJSON_run, setJSON_run, E, Hkey.
    destruct (Z.ltb_spec d (1000 * ttl)); [|lia].
    now rewrite (JSON_parse_stringify v s E). }
  split; [now rewrite setJSON_run, E|]. split; [exact Hget|].
  intros Hc. now rewrite Hget, clean_sanitize.
Qed.

(** X15. [getJSON] never throws: it returns what [JSON.parse] makes of the
    entry, and [null] when there is no entry, when the cache cannot be reached
    or fails, and when the entry is not JSON.  [setJSON] never throws: it
    returns [true] when the value has a JSON text and the cache can be reached
    and does not fail, and [false] otherwise, in particular for [undefined]. *)
Theorem getJSON_and_setJSON_never_throw (key : string) (v : value) (ttl : Z) (w : World) :
  fst (run (CacheStore.getJSON key) w) =
    Ok (match cache_answer w key with
        | Some serialized =>
            match JSON_parse serialized with
            | Some parsed => parsed
            | None => VNull
            end
        | None => VNull
        end)
  /\ fst (run (CacheStore.setJSON key v ttl) w) =
       Ok (match stringify v with
           | Some _ => available w && negb (faulty w)
           | None => false
           end).
Proof.
  split; [apply getJSON_run|]. rewrite setJSON_run.
  destruct (stringify v) as [s|].
  - rewrite cache_set_run. destruct (available w); [|reflexivity].
    cbv zeta. destruct (faulty w); reflexivity.
  - destruct (available w); reflexivity.
Qed.

(** ** The cache service: deleting, testing and clearing *)

Lemma unavailable_available (w : World) : CacheStore.unavailable w = negb (available w).
Proof. unfold CacheStore.unavailable, available. now destruct (cache_client w), (cache_connected w). Qed.

Lemma command_healthy {A : Type} (reply : World -> A * World) (w : World) :
  redis_faults w = [] ->
  CacheStore.command reply w = (Ok (fst (reply w)), snd (reply w)).
Proof.
  intros Hf. unfold CacheStore.command, next_fault. rewrite Hf.
  now destruct (reply w).
Qed.

Lemma healthy_unavailable (w : World) : healthy w -> CacheStore.unavailable w = false.
Proof. intros [Ha _]. now rewrite unavailable_available, Ha. Qed.

Lemma delete_healthy (key : string) (w : World) :
  healthy w ->
  CacheStore.delete key w =
    (Ok (0 <? fst (CacheStore.DEL key w)), snd (CacheStore.DEL key w)).
Proof.
  intros Hw. unfold CacheStore.delete. rewrite healthy_unavailable by assumption.
  now rewrite command_healthy by apply Hw.
Qed.

Lemma exists_healthy (key : string) (w : World) :
  healthy w ->
  CacheStore.exists_ key w =
    (Ok (match redis_lookup w key with Some _ => true | None => false end), w).
Proof.
  intros Hw. unfold CacheStore.exists_. rewrite healthy_unavailable by assumption.
  rewrite command_healthy by apply Hw. unfold CacheStore.EXISTS.
  now destruct (redis_lookup w key).
Qed.

Lemma healthy_delete (key : string) (w : World) :
  healthy w -> healthy (snd (CacheStore.delete key w)).
Proof.
  intros Hw. rewrite delete_healthy by assumption. cbn [snd]. unfold CacheStore.DEL.
  destruct (redis_lookup w key); exact Hw.
Qed.

Lemma redis_lookup_delete (key other : string) (w : World) :
  redis_lookup (snd (CacheStore.DEL key w)) other =
    if String.eqb other key then None else redis_lookup w other.
Proof.
  unfold CacheStore.DEL. destruct (redis_lookup w key) eqn:E; cbn [snd].
  - unfold redis_lookup. cbn [set_redis redis clock]. now destruct (String.eqb other key).
  - destruct (String.eqb_spec other key) as [->|]; [exact E|reflexivity].
Qed.

(** X16. On a cache that can be reached and does not fail, [delete(key)]
    returns [true] exactly when [exists(key)] would have; after it,
    [exists(key)] is [false], [get(key)] is [null], a second [delete(key)]
    returns [false], and the [get] of every other key is unchanged. *)
Theorem delete_removes_the_entry (key : string) (w : World) :
  healthy w ->
  let w' := snd (CacheStore.delete key w) in
  fst (CacheStore.delete key w) = fst (CacheStore.exists_ key w)
  /\ fst (CacheStore.exists_ key w') = Ok false
  /\ fst (run (CacheService.get key) w') = Ok None
  /\ fst (CacheStore.delete key w') = Ok false
  /\ forall other : string,
       other <> key ->
       fst (run (CacheService.get other) w') = fst (run (CacheService.get other) w).
Proof.
  intros Hw w'. pose proof (healthy_delete key w Hw) as Hw'. fold w' in Hw'.
  pose proof (redis_lookup_delete key) as Hl.
  rewrite (delete_healthy key w') by assumption.
  rewrite (exists_healthy key w'), (exists_healthy key w) by assumption.
  rewrite !get_answer. destruct Hw' as [Ha' Hf'].
  rewrite (cache_answer_reachable key w') by assumption.
  subst w'. rewrite delete_healthy in * by assumption. cbn [fst snd] in *.
  rewrite (Hl key w), String.eqb_refl. repeat split.
  - unfold CacheStore.DEL. now destruct (redis_lookup w key).
  - unfold CacheStore.DEL at 1. now rewrite (Hl key w), String.eqb_refl.
  - intros other Hother. rewrite !get_answer.
    rewrite (cache_answer_reachable other _ Ha' Hf').
    rewrite (cache_answer_reachable other w (proj1 Hw) (proj2 Hw)).
    rewrite (Hl other w). now destruct (String.eqb_spec other key).
Qed.

Lemma next_fault_faulty (w : World) : fst (next_fault w) = faulty w.
Proof. unfold next_fault, faulty. now destruct (redis_faults w). Qed.

Lemma next_fault_lookup (w : World) (key : string) :
  redis_lookup (snd (next_fault w)) key = redis_lookup w key.
Proof. unfold next_fault. now destruct (redis_faults w). Qed.

(** X17. In every state, [exists(key)] returns [true] exactly when
    [get(key)] in the same state returns an entry; both answer as if there
    were no entry when the cache cannot be reached or the command fails. *)
Theorem exists_agrees_with_get (key : string) (w : World) (entry : option string) :
  fst (run (CacheService.get key) w) = Ok entry ->
  fst (CacheStore.exists_ key w) = Ok (match entry with Some _ => true | None => false end).
Proof.
  rewrite get_answer. intros H. inversion H; subst entry; clear H.
  unfold CacheStore.exists_, cache_answer. rewrite unavailable_available.
  destruct (available w); [|reflexivity]. cbn [negb andb].
  unfold CacheStore.command. pose proof (next_fault_faulty w) as Hf.
  pose proof (next_fault_lookup w key) as Hl.
  destruct (next_fault w) as [fault w1]. cbn [fst snd] in Hf, Hl. subst fault.
  destruct (faulty w); [reflexivity|]. cbn [negb].
  unfold CacheStore.EXISTS. rewrite Hl. now destruct (redis_lookup w key).
Qed.

Lemma clear_healthy (w : World) :
  healthy w -> CacheStore.clear w = (Ok true, set_redis (fun _ => None) w).
Proof.
  intros Hw. unfold CacheStore.clear. rewrite healthy_unavailable by assumption.
  now rewrite command_healthy by apply Hw.
Qed.

(** X18. On a cache that can be reached and does not fail, [clear] returns
    [true], and afterwards, at any time, [get] returns [null], [exists]
    [false] and [getJSON] [null] for every key. *)
Theorem clear_empties_the_cache (w : World) (d : Z) (key : string) :
  healthy w ->
  let w' := elapse d (snd (CacheStore.clear w)) in
  fst (CacheStore.clear w) = Ok true
  /\ fst (run (CacheService.get key) w') = Ok None
  /\ fst (CacheStore.exists_ key w') = Ok false
  /\ fst (run (CacheStore.getJSON key) w') = Ok VNull.
Proof.
  intros Hw w'. subst w'. rewrite clear_healthy by assumption. cbn [fst snd].
  assert (Hans : cache_answer (elapse d (set_redis (fun _ => None) w)) key = None).
  { rewrite cache_answer_reachable; [reflexivity|apply Hw|apply Hw]. }
  split; [reflexivity|]. split; [now rewrite get_answer, Hans|].
  split.
  - unfold CacheStore.exists_. rewrite healthy_unavailable by exact Hw.
    rewrite command_healthy by apply Hw. reflexivity.
  - now rewrite getJSON_run, Hans.
Qed.

Lemma expire_healthy (key : string) (ttl : Z) (w : World) :
  healthy w ->
  CacheStore.expire key ttl w =
    (Ok (fst (CacheStore.EXPIRE key ttl w) =? 1), snd (CacheStore.EXPIRE key ttl w)).
Proof.
  intros Hw. unfold CacheStore.expire. rewrite healthy_unavailable by assumption.
  now rewrite command_healthy by apply Hw.
Qed.

(** X19. On a cache that can be reached and does not fail,
    [expire(key, ttl)] on a key that holds an entry returns [true] and replaces
    the time to live of the entry: a [get] [d] milliseconds later returns the
    entry as long as [d < 1000 * ttl] and [null] from then on; on a key
    without an entry it returns [false] and changes nothing. *)
Theorem expire_sets_the_time_to_live (key : string) (ttl d : Z) (w : World) :
  healthy w -> 0 < ttl -> 0 <= d ->
  let w' := elapse d (snd (CacheStore.expire key ttl w)) in
  match cache_answer w key with
  | Some val =>
      fst (CacheStore.expire key ttl w) = Ok true
      /\ fst (run (CacheService.get key) w') =
         Ok (if d <? 1000 * ttl then Some val else None)
  | None =>
      CacheStore.expire key ttl w = (Ok false, w)
  end.
Proof.
  intros Hw _ _ w'. subst w'. rewrite expire_healthy by assumption.
  rewrite (cache_answer_reachable key w) by apply Hw.
  unfold CacheStore.EXPIRE. destruct (redis_lookup w key) as [val|] eqn:E; cbn [fst snd].
  - split; [reflexivity|]. rewrite get_answer.
    rewrite cache_answer_reachable; [|apply Hw|apply Hw].
    unfold redis_lookup. cbn [elapse set_redis redis clock]. rewrite String.eqb_refl.
    destruct (Z.ltb_spec d (1000 * ttl));
      match goal with |- context [?a <? ?b] => destruct (Z.ltb_spec a b) end;
      try reflexivity; lia.
  - reflexivity.
Qed.

(** ** The cache service: failures *)

Lemma delete_outcome (key : string) (w : World) :
  fst (CacheStore.delete key w) =
    Ok (available w && negb (faulty w)
        && (0 <? fst (CacheStore.DEL key (snd (next_fault w))))).
Proof.
  unfold CacheStore.delete, CacheStore.command. rewrite unavailable_available.
  destruct (available w); [|reflexivity]. pose proof (next_fault_faulty w) as Hf.
  destruct (next_fault w) as [fault w1]. cbn [fst snd] in *. subst fault.
  destruct (faulty w); [reflexivity|]. now destruct (CacheStore.DEL key w1).
Qed.

Lemma exists_outcome (key : string) (w : World) :
  fst (CacheStore.exists_ key w) =
    Ok (available w && negb (faulty w)
        && (fst (CacheStore.EXISTS key (snd (next_fault w))) =? 1)).
Proof.
  unfold CacheStore.exists_, CacheStore.command. rewrite unavailable_available.
  destruct (available w); [|reflexivity]. pose proof (next_fault_faulty w) as Hf.
  destruct (next_fault w) as [fault w1]. cbn [fst snd] in *. subst fault.
  destruct (faulty w); [reflexivity|]. now destruct (CacheStore.EXISTS key w1).
Qed.

Lemma expire_outcome (key : string) (ttl : Z) (w : World) :
  fst (CacheStore.expire key ttl w) =
    Ok (available w && negb (faulty w)
        && (fst (CacheStore.EXPIRE key ttl (snd (next_fault w))) =? 1)).
Proof.
  unfold CacheStore.expire, CacheStore.command. rewrite unavailable_available.
  destruct (available w); [|reflexivity]. pose proof (next_fault_faulty w) as Hf.
  destruct (next_fault w) as [fault w1]. cbn [fst snd] in *. subst fault.
  destruct (faulty w); [reflexivity|]. now destruct (CacheStore.EXPIRE key ttl w1).
Qed.

Lemma clear_outcome (w : World) :
  fst (CacheStore.clear w) = Ok (available w && negb (faulty w)).
Proof.
  unfold CacheStore.clear, CacheStore.command. rewrite unavailable_available.
  destruct (available w); [|reflexivity]. pose proof (next_fault_faulty w) as Hf.
  destruct (next_fault w) as [fault w1]. cbn [fst snd] in *. subst fault.
  now destruct (faulty w).
Qed.

(** X20. [delete], [exists], [expire] and [clear] never throw: each
    returns a boolean, [false] when the cache cannot be reached or the command
    fails; when the cache cannot be reached they return [false] at once,
    without sending a command or writing to the log. *)
Theorem cache_methods_never_throw (key : string) (ttl : Z) (w : World) :
  (exists deleted found extended cleared : bool,
     fst (CacheStore.delete key w) = Ok deleted
     /\ fst (CacheStore.exists_ key w) = Ok found
     /\ fst (CacheStore.expire key ttl w) = Ok extended
     /\ fst (CacheStore.clear w) = Ok cleared
     /\ (available w && negb (faulty w) = false ->
         deleted = false /\ found = false /\ extended = false /\ cleared = false))
  /\ (available w = false ->
      CacheStore.delete key w = (Ok false, w)
      /\ CacheStore.exists_ key w = (Ok false, w)
      /\ CacheStore.expire key ttl w = (Ok false, w)
      /\ CacheStore.clear w = (Ok false, w)).
Proof.
  split.
  - do 4 eexists.
    split; [apply delete_outcome|]. split; [apply exists_outcome|].
    split; [apply expire_outcome|]. split; [apply clear_outcome|].
    intros ->. repeat split.
  - intros Ha.
    unfold CacheStore.delete, CacheStore.exists_, CacheStore.expire, CacheStore.clear.
    rewrite unavailable_available, Ha. repeat split.
Qed.

(** X21. After a [close] that returns, the service is not connected:
    [get] returns [null], [set] and [exists] return [false], without sending
    a command, while the entries on the server are left as they were. *)
Theorem closed_cache_answers_nothing (key val : string) (ttl : Z) (w w' : World) :
  CacheStore.close w = (Ok tt, w') ->
  available w' = false
  /\ redis w' = redis w
  /\ run (CacheService.get key) w' = (Ok None, w')
  /\ run (CacheService.set key val ttl) w' = (Ok false, w')
  /\ CacheStore.exists_ key w' = (Ok false, w').
Proof.
  intros Hclose.
  assert (H : available w' = false /\ redis w' = redis w).
  { unfold CacheStore.close in Hclose. destruct (cache_client w) eqn:Ec.
    - unfold CacheStore.command, CacheStore.QUIT, next_fault in Hclose.
      destruct (redis_faults w) as [|[] fs]; try discriminate Hclose;
        inversion Hclose; subst w'; unfold available; cbn; split;
        try reflexivity; apply Bool.andb_false_r.
    - inversion Hclose; subst w'. unfold available. now rewrite Ec. }
  destruct H as [Ha Hr]. split; [exact Ha|]. split; [exact Hr|].
  split; [now apply cache_get_unavailable|]. split; [now apply cache_set_unavailable|].
  unfold CacheStore.exists_. now rewrite unavailable_available, Ha.
Qed.

(** ** Entries that are not JSON *)

(** X22. When the entry of a request is a text that is not JSON,
    [processContent] throws the [SyntaxError] of [JSON.parse] and does not
    replace the entry: a second call, as long as the entry lives, throws it
    again, and the model is never invoked; [getJSON] on the same entry returns
    [null]. *)
Theorem corrupt_entry_fails_every_call
  (fdiv : value -> value -> number) (request : value) (cached : string) (d : Z) (w : World) :
  valid_request request = true ->
  healthy w ->
  cache_answer w (fingerprint request) = Some cached ->
  cached <> "" -> JSON_parse cached = None ->
  cache_answer (elapse d w) (fingerprint request) = Some cached ->
  let w' := snd (run (AIService.processContent fdiv request) w) in
  let w'' := snd (run (AIService.processContent fdiv request) (elapse d w')) in
  fst (run (AIService.processContent fdiv request) w) =
    Throw (SyntaxError "Unexpected token in JSON")
  /\ fst (run (AIService.processContent fdiv request) (elapse d w')) =
    Throw (SyntaxError "Unexpected token in JSON")
  /\ model_calls w'' = model_calls w
  /\ fst (run (CacheStore.getJSON (fingerprint request)) w) = Ok VNull.
Proof.
  intros Hv [Ha Hf] Hc Hne Hp Hlater. cbv zeta.
  rewrite (processContent_hit_run fdiv request w cached) by assumption.
  rewrite Hp. cbv zeta. cbn [fst snd].
  rewrite cache_get_reachable by assumption. cbn [snd].
  set (w' := emit _ (emit _ (emit _ w))).
  assert (Hc' : cache_answer (elapse d w') (fingerprint request) = Some cached).
  { rewrite cache_answer_reachable; [|exact Ha|exact Hf].
    rewrite cache_answer_reachable in Hlater; [|exact Ha|exact Hf]. exact Hlater. }
  rewrite (processContent_hit_run fdiv request (elapse d w') cached) by assumption.
  rewrite Hp. cbv zeta. cbn [fst snd].
  rewrite cache_get_reachable; [|exact Ha|exact Hf]. cbn [snd].
  repeat split. rewrite getJSON_run, Hc, Hp. reflexivity.
Qed.

(** ** Pauses of a batch *)

Lemma no_pause_refl (w : World) : no_pause w w.
Proof. reflexivity. Qed.

Lemma no_pause_trans (w1 w2 w3 : World) : no_pause w1 w2 -> no_pause w2 w3 -> no_pause w1 w3.
Proof. unfold no_pause. congruence. Qed.

Lemma perform_no_pause {X : Type} (op : eff X) (w : World) :
  is_pause op = false -> no_pause w (snd (perform op w)).
Proof.
  destruct op; intros H; try discriminate H; unfold no_pause, delays; cbn [perform];
    try reflexivity;
    unfold next_fault; cbn [emit redis_faults];
    destruct (redis_faults w) as [|[] fs]; reflexivity.
Qed.

Lemma calm_bind {A B : Type} (p : prog A) (f : A -> prog B) :
  calm p -> (forall a, calm (f a)) -> calm (bind p f).
Proof.
  intros H Hf. induction H as [a|e|X op k Hop _ IH]; cbn [bind]; auto.
  - constructor.
  - constructor; auto.
Qed.

Lemma calm_try_catch {A : Type} (p : prog A) (h : error -> prog A) :
  calm p -> (forall e, calm (h e)) -> calm (try_catch p h).
Proof.
  intros H Hh. induction H as [a|e|X op k Hop _ IH]; cbn [try_catch]; auto.
  - constructor.
  - constructor; auto.
Qed.

Lemma calm_lift {A : Type} (o : outcome A) : calm (lift o).
Proof. destruct o; constructor. Qed.

Lemma calm_perform {X : Type} (op : eff X) : is_pause op = false -> calm (perform_ op).
Proof. intros H. constructor; [assumption|]. intros x. constructor. Qed.

Lemma calm_await {X : Type} (op : eff (outcome X)) : is_pause op = false -> calm (await op).
Proof. intros H. constructor; [assumption|]. intros [x|e]; constructor. Qed.

Lemma footprint_calm {A : Type} (P : A -> Prop) (n : nat) (p : prog A) :
  footprint P n p -> calm p.
Proof.
  induction 1 as [n a Ha|n e|n X op k Hq _ IH|n request k _ IH].
  - constructor.
  - constructor.
  - constructor; [|assumption]. destruct op; try reflexivity; discriminate Hq.
  - constructor; [reflexivity|assumption].
Qed.

Lemma calm_cache_get (key : string) : calm (CacheService.get key).
Proof.
  unfold CacheService.get. apply calm_try_catch.
  - apply calm_bind; [now apply calm_perform|]. intros st.
    destruct (negb (fst st) || negb (snd st)); [constructor|].
    apply calm_bind; [now apply calm_await|]. intros v. constructor.
  - intros e. apply calm_bind; [now apply calm_perform|]. intros _. constructor.
Qed.

Lemma calm_cache_set (key val : string) (ttl : Z) : calm (CacheService.set key val ttl).
Proof.
  unfold CacheService.set. apply calm_try_catch.
  - apply calm_bind; [now apply calm_perform|]. intros st.
    destruct (negb (fst st) || negb (snd st)); [constructor|].
    apply calm_bind; [now apply calm_await|]. intros v. constructor.
  - intros e. apply calm_bind; [now apply calm_perform|]. intros _. constructor.
Qed.

Lemma calm_contentLength (request : value) : calm (AIService.contentLength request).
Proof.
  unfold AIService.contentLength. apply calm_bind; [apply calm_lift|].
  intros c. apply calm_lift.
Qed.

Lemma calm_processContent (fdiv : value -> value -> number) (request : value) :
  calm (AIService.processContent fdiv request).
Proof.
  unfold AIService.processContent.
  apply calm_bind; [now apply calm_perform|]. intros startTime.
  apply calm_bind; [apply calm_lift|]. intros cacheKey.
  apply calm_try_catch.
  - apply calm_bind; [apply calm_cache_get|]. intros cachedResult.
    destruct (AIService.hit cachedResult).
    + apply calm_bind; [apply calm_lift|]. intros processingType.
      apply calm_bind; [apply calm_contentLength|]. intros len.
      apply calm_bind; [now apply calm_perform|]. intros _.
      destruct (JSON_parse _); constructor.
    + apply calm_bind; [exact (footprint_calm _ _ _ (fp_dispatch fdiv request))|].
      intros result.
      apply calm_bind; [apply calm_cache_set|]. intros _.
      apply calm_bind; [now apply calm_perform|]. intros endTime.
      apply calm_bind; [apply calm_lift|]. intros processingType.
      apply calm_bind; [apply calm_contentLength|]. intros len.
      apply calm_bind; [apply calm_lift|]. intros tokensUsed.
      apply calm_bind; [now apply calm_perform|]. intros _. constructor.
  - intros error.
    apply calm_bind; [apply calm_lift|]. intros processingType.
    apply calm_bind; [apply calm_contentLength|]. intros len.
    apply calm_bind; [now apply calm_perform|]. intros _. constructor.
Qed.

Lemma run_no_pause {A : Type} (p : prog A) (w : World) :
  calm p -> no_pause w (snd (run p w)).
Proof.
  intros H. revert w. induction H as [a|e|X op k Hop _ IH]; intros w; cbn [run].
  - apply no_pause_refl.
  - apply no_pause_refl.
  - pose proof (perform_no_pause op w Hop) as Hp.
    destruct (perform op w) as [x w1]. cbn [snd] in Hp.
    exact (no_pause_trans _ _ _ Hp (IH x w1)).
Qed.

Lemma step_no_pause {A : Type} (p : prog A) (w : World) :
  calm p -> calm (fst (AIService.step p w)) /\ no_pause w (snd (AIService.step p w)).
Proof.
  intros H. destruct H as [a|e|X op k Hop Hk]; cbn [AIService.step fst snd].
  - split; [constructor|apply no_pause_refl].
  - split; [constructor|apply no_pause_refl].
  - pose proof (perform_no_pause op w Hop) as Hp.
    destruct (perform op w) as [x w1]. cbn [fst snd] in *. split; [apply Hk|exact Hp].
Qed.

Lemma step_at_no_pause {A : Type} (i : nat) (pool : list (prog A)) (w : World) :
  Forall calm pool ->
  Forall calm (fst (AIService.step_at i pool w))
  /\ no_pause w (snd (AIService.step_at i pool w)).
Proof.
  intros H. revert i. induction H as [|p rest Hp Hrest IH]; intros i;
    cbn [AIService.step_at].
  - split; [constructor|apply no_pause_refl].
  - destruct i as [|i].
    + destruct (step_no_pause p w Hp) as [Hc Hn].
      destruct (AIService.step p w) as [p' w']. cbn [fst snd] in *.
      split; [constructor; assumption|exact Hn].
    + destruct (IH i) as [Hc Hn].
      destruct (AIService.step_at i rest w) as [rest' w']. cbn [fst snd] in *.
      split; [constructor; assumption|exact Hn].
Qed.

Lemma finish_no_pause {A : Type} (pool : list (prog A)) (w : World) :
  Forall calm pool -> no_pause w (snd (AIService.finish pool w)).
Proof.
  intros H. revert w. induction H as [|p rest Hp Hrest IH]; intros w;
    cbn [AIService.finish].
  - apply no_pause_refl.
  - pose proof (run_no_pause p w Hp) as Hr.
    destruct (run p w) as [[v|e] w1]; cbn [snd] in Hr; [|exact Hr].
    pose proof (IH w1) as Hf.
    destruct (AIService.finish rest w1) as [[vs|e] w2]; cbn [snd] in *;
      exact (no_pause_trans _ _ _ Hr Hf).
Qed.

Lemma promiseAll_no_pause {A : Type} (sched : list nat) (pool : list (prog A)) (w : World) :
  Forall calm pool -> no_pause w (snd (AIService.promiseAll sched pool w)).
Proof.
  revert pool w. induction sched as [|i sched IH]; intros pool w Hpool;
    cbn [AIService.promiseAll]; destruct (AIService.first_rejection pool);
    try apply no_pause_refl.
  - now apply finish_no_pause.
  - destruct (step_at_no_pause i pool w Hpool) as [Hc Hn].
    destruct (AIService.step_at i pool w) as [pool' w']. cbn [fst snd] in *.
    exact (no_pause_trans _ _ _ Hn (IH pool' w' Hc)).
Qed.

Lemma window_no_pause (fdiv : value -> value -> number) (scheds : nat -> list nat)
  (requests : list value) (k : nat) (w : World) :
  no_pause w (snd (window fdiv scheds requests k w)).
Proof.
  unfold window. apply promiseAll_no_pause.
  apply Forall_map. apply Forall_forall. intros r _. apply calm_processContent.
Qed.

Lemma intervals_spec (n : nat) :
  (AIService.batchSize * intervals n <= n - 1
   /\ n - 1 < AIService.batchSize * intervals n + AIService.batchSize)%nat.
Proof.
  unfold intervals, AIService.batchSize.
  pose proof (Nat.div_mod_eq (n - 1) 5) as E.
  pose proof (Nat.mod_upper_bound (n - 1) 5) as U. lia.
Qed.

Lemma cooldown_pause (requests : list value) (k : nat) (w : World) :
  (k * AIService.batchSize < List.length requests)%nat ->
  delays (cooldown requests k w) =
    ((if (S k <=? intervals (List.length requests))%nat then [EvDelay 1000] else [])
     ++ delays w)%list.
Proof.
  intros Hk. unfold cooldown.
  pose proof (intervals_spec (List.length requests)) as [Hlo Hhi].
  unfold AIService.batchSize in *.
  destruct (Nat.ltb_spec (k * 5 + 5) (List.length requests));
    destruct (Nat.leb_spec (S k) (intervals (List.length requests))); try lia;
    reflexivity.
Qed.

Lemma reaches_pauses (fdiv : value -> value -> number) (scheds : nat -> list nat)
  (requests : list value) (k : nat) (results : list value) (w wk : World) :
  reaches fdiv scheds requests k results w wk ->
  delays wk =
    (repeat (EvDelay 1000) (Nat.min k (intervals (List.length requests))) ++ delays w)%list.
Proof.
  induction 1 as [w|k results batchResults w wk wk' _ IH Hlt Hwin].
  - reflexivity.
  - pose proof (window_no_pause fdiv scheds requests k wk) as Hn.
    rewrite Hwin in Hn. cbn [snd] in Hn. unfold no_pause in Hn.
    rewrite (cooldown_pause requests k wk' Hlt), Hn, IH.
    pose proof (intervals_spec (List.length requests)) as [Hlo Hhi].
    unfold AIService.batchSize in *.
    destruct (Nat.leb_spec (S k) (intervals (List.length requests))).
    + rewrite Nat.min_l, (Nat.min_l (S k)) by lia. reflexivity.
    + rewrite Nat.min_r, (Nat.min_r (S k)) by lia. reflexivity.
Qed.


(** X24. A batch whose windows before window [k] are fulfilled and whose
    window [k] is rejected has paused [k] times, 1000 milliseconds each: it
    throws without the pause that follows a window. *)
Theorem failing_batch_stops_at_once
  (fdiv : value -> value -> number) (scheds : nat -> list nat) (requests : list value)
  (k : nat) (results : list value) (w wk wk' : World) (e : error) :
  reaches fdiv scheds requests k results w wk ->
  (k * AIService.batchSize < List.length requests)%nat ->
  window fdiv scheds requests k wk = (Throw e, wk') ->
  delays (snd (AIService.batchProcess fdiv scheds requests w)) =
    (repeat (EvDelay 1000) k ++ delays w)%list.
Proof.
  intros Hreach Hlt Hwin.
  destruct (reaches_loop _ _ _ _ _ _ _ Hreach) as [Hk ->].
  replace (List.length requests - k)%nat with (S (List.length requests - S k))
    by (unfold AIService.batchSize in Hlt; lia).
  rewrite batchLoop_turn, Hwin.
  destruct (Nat.ltb_spec (k * AIService.batchSize) (List.length requests)); [|lia].
  cbn [snd].
  pose proof (window_no_pause fdiv scheds requests k wk) as Hn.
  rewrite Hwin in Hn. cbn [snd] in Hn. unfold no_pause in Hn.
  pose proof (reaches_pauses _ _ _ _ _ _ _ Hreach) as Hp.
  pose proof (intervals_spec (List.length requests)) as [Hlo Hhi].
  unfold AIService.batchSize in *.
  rewrite Nat.min_l in Hp by lia.
  unfold delays, batch_failed in *. cbn [emit trace filter is_delay]. congruence.
Qed.

(** ** Word count of generated content *)





(** ** Instances *)

Lemma miss_returns_what_the_operation_returns_witness :
  fst (run (AIService.processContent Sample.fdiv Scenario.translate) Sample.online) =
    fst (run (AIService.dispatch Sample.fdiv Scenario.translate)
           (snd (run (CacheService.get (fingerprint Scenario.translate)) Sample.online))).
Proof.
  exact (proj1 (miss_returns_what_the_operation_returns
                  Sample.fdiv Scenario.translate Sample.online eq_refl eq_refl)).
Defined.

Lemma failed_operation_is_not_cached_witness :
  exists (e : error) (wd : World),
    run (AIService.processContent Sample.fdiv Scenario.translate) Scenario.failing =
      (Throw e, emit (processing_failed Scenario.translate e) wd).
Proof.
  destruct (run (AIService.dispatch Sample.fdiv Scenario.translate)
              (snd (run (CacheService.get (fingerprint Scenario.translate)) Scenario.failing)))
    as [[v|e] wd] eqn:E.
  - vm_compute in E. discriminate E.
  - exists e, wd.
    exact (proj1 (failed_operation_is_not_cached
                    Sample.fdiv Scenario.translate Scenario.failing wd e eq_refl eq_refl E)).
Defined.

Lemma unavailable_cache_is_bypassed_witness :
  fst (run (AIService.processContent Sample.fdiv Scenario.translate) Sample.offline) =
    fst (run (AIService.dispatch Sample.fdiv Scenario.translate) Sample.offline).
Proof.
  exact (proj1 (unavailable_cache_is_bypassed
                  Sample.fdiv Scenario.translate Sample.offline eq_refl eq_refl)).
Defined.

Lemma result_is_cached_for_one_hour_witness :
  exists (result : value) (w' : World),
    run (AIService.processContent Sample.fdiv Scenario.translate) Sample.online = (Ok result, w')
    /\ cache_answer (elapse 3599999 w') (fingerprint Scenario.translate) =
         Some (AIService.JSON_stringify result)
    /\ cache_answer (elapse 3600000 w') (fingerprint Scenario.translate) = None.
Proof.
  destruct (run (AIService.processContent Sample.fdiv Scenario.translate) Sample.online)
    as [[result|e] w'] eqn:E.
  - exists result, w'. split; [reflexivity|]. split.
    + exact (result_is_cached_for_one_hour Sample.fdiv Scenario.translate result
               Sample.online w' 3599999 eq_refl eq_refl eq_refl eq_refl E).
    + exact (result_is_cached_for_one_hour Sample.fdiv Scenario.translate result
               Sample.online w' 3600000 eq_refl eq_refl eq_refl eq_refl E).
  - vm_compute in E. discriminate E.
Defined.

Lemma only_sentiment_analysis_initializes_witness :
  run (AIService.dispatch Sample.fdiv Scenario.translate) Scenario.cold =
    (Throw no_model, Scenario.cold)
  /\ ai_initialized
       (snd (run (AIService.dispatch Sample.fdiv (Sample.request "analyze-sentiment" "x" []))
               Scenario.cold)) = true.
Proof.
  split.
  - apply (proj1 (only_sentiment_analysis_initializes
                    Sample.fdiv Scenario.translate "translate" Scenario.cold
                    eq_refl eq_refl eq_refl)).
    + cbn [In]. auto.
    + discriminate.
  - exact (proj1 (proj2 (only_sentiment_analysis_initializes
                           Sample.fdiv (Sample.request "analyze-sentiment" "x" [])
                           "analyze-sentiment" Scenario.cold eq_refl eq_refl eq_refl)
                    eq_refl)).
Defined.

Lemma falsy_temperature_becomes_default_witness :
  exists request : value,
    trace (snd (run (AIService.generateContent (VStr "a poem")
                       (VObj [("temperature", Scenario.zero)]) ) Sample.online)) =
      [EvGenerate request]
    /\ get_opt (get_opt request "generationConfig") "temperature" = VNum (Dec false [D7] 0).
Proof.
  exact (falsy_temperature_becomes_default (VStr "a poem")
           (VObj [("temperature", Scenario.zero)]) Sample.online eq_refl eq_refl).
Defined.

Lemma controller_always_responds_witness :
  exists (response : AIController.response) (w' : World),
    run (AIController.processContent Sample.fdiv (VObj [])) Sample.online = (Ok response, w')
    /\ In (AIController.status response) [200; 400; 500].
Proof. exact (controller_always_responds Sample.fdiv (VObj []) Sample.online eq_refl). Defined.

Lemma unsupported_type_is_a_bad_request_witness :
  fst (run (AIController.processContent Sample.fdiv (Sample.request "unknown" "x" []))
         Sample.online) =
    Ok (AIController.mkResponse 400
          (VObj [("message", VStr "Unsupported AI processing type: unknown")])).
Proof.
  exact (proj1 (unsupported_type_is_a_bad_request
                  Sample.fdiv (Sample.request "unknown" "x" []) Sample.online
                  eq_refl eq_refl eq_refl eq_refl)).
Defined.

Lemma batch_response_counts_the_requests_witness :
  exists (results : list value) (w' : World),
    AIController.batchProcess Sample.fdiv Sample.shuffled
      (VObj [("requests", VArr Sample.three)]) Sample.offline =
    (AIController.mkResponse 200
       (VObj [("results", VArr results); ("count", VNum (num_of_nat 3))]), w').
Proof.
  pose proof (batch_response_counts_the_requests
                Sample.fdiv Sample.shuffled (VObj [("requests", VArr Sample.three)])
                Sample.three Sample.offline eq_refl) as H.
  destruct (AIService.batchProcess Sample.fdiv Sample.shuffled Sample.three Sample.offline)
    as [[results|e] w'] eqn:E.
  - exists results, w'. apply H.
    + discriminate.
    + repeat constructor.
  - vm_compute in E. discriminate E.
Defined.

Lemma batch_without_requests_is_rejected_witness :
  AIController.batchProcess Sample.fdiv Sample.shuffled (VObj [("requests", VArr [])])
    Sample.online =
  (AIController.mkResponse 400 (VObj [("message", VStr "Valid requests array is required")]),
   Sample.online).
Proof.
  apply (batch_without_requests_is_rejected Sample.fdiv Sample.shuffled
           (VObj [("requests", VArr [])]) Sample.online eq_refl).
  intros first others. discriminate.
Defined.

Lemma controller_reads_three_fields_only_witness :
  run (AIController.processContent Sample.fdiv
         (VObj [("requestId", VStr "r1"); ("type", VStr "translate"); ("content", VStr "x")]))
    Sample.online =
  run (AIController.processContent Sample.fdiv Scenario.translate) Sample.online.
Proof.
  symmetry.
  apply (controller_reads_three_fields_only Sample.fdiv
           (VObj [("requestId", VStr "r1"); ("type", VStr "translate"); ("content", VStr "x")])
           Scenario.translate Sample.online eq_refl eq_refl eq_refl eq_refl).
  right. split; reflexivity.
Defined.

Lemma online_healthy : healthy Sample.online.
Proof. split; reflexivity. Qed.

Lemma stocked_healthy : healthy Scenario.stocked.
Proof. split; reflexivity. Qed.

Lemma set_then_get_witness :
  fst (run (CacheService.get "k")
         (elapse 59999 (snd (run (CacheService.set "k" "v" 60) Sample.online)))) = Ok (Some "v")
  /\ fst (run (CacheService.get "k")
            (elapse 60000 (snd (run (CacheService.set "k" "v" 60) Sample.online)))) = Ok None.
Proof.
  split.
  - refine (proj1 (proj2 (set_then_get "k" "v" 60 59999 Sample.online online_healthy _ _)));
      lia.
  - refine (proj1 (proj2 (set_then_get "k" "v" 60 60000 Sample.online online_healthy _ _)));
      lia.
Defined.

Lemma setJSON_then_getJSON_witness :
  fst (run (CacheStore.getJSON "k")
         (elapse 1000 (snd (run (CacheStore.setJSON "k" Scenario.translate 60) Sample.online))))
    = Ok Scenario.translate.
Proof.
  refine (proj2 (proj2 (setJSON_then_getJSON "k" Scenario.translate 60 1000 Sample.online
                          online_healthy _ _)) _).
  - lia.
  - discriminate.
  - repeat constructor; cbn; intuition discriminate.
Defined.

Lemma delete_removes_the_entry_witness :
  fst (CacheStore.delete "greeting" Scenario.stocked) = Ok true
  /\ fst (run (CacheService.get "greeting")
            (snd (CacheStore.delete "greeting" Scenario.stocked))) = Ok None.
Proof.
  destruct (delete_removes_the_entry "greeting" Scenario.stocked stocked_healthy)
    as (Hd & _ & Hg & _).
  split; [exact Hd|exact Hg].
Defined.

Lemma exists_agrees_with_get_witness :
  fst (CacheStore.exists_ "greeting" Scenario.stocked) = Ok true.
Proof.
  exact (exists_agrees_with_get "greeting" Scenario.stocked (Some "hello") eq_refl).
Defined.

Lemma clear_empties_the_cache_witness :
  fst (CacheStore.clear Scenario.stocked) = Ok true
  /\ fst (run (CacheService.get "greeting") (elapse 0 (snd (CacheStore.clear Scenario.stocked))))
     = Ok None.
Proof.
  destruct (clear_empties_the_cache Scenario.stocked 0 "greeting" stocked_healthy)
    as (Hc & Hg & _).
  split; [exact Hc|exact Hg].
Defined.

Lemma expire_sets_the_time_to_live_witness :
  fst (CacheStore.expire "greeting" 10 Scenario.stocked) = Ok true
  /\ fst (run (CacheService.get "greeting")
            (elapse 10000 (snd (CacheStore.expire "greeting" 10 Scenario.stocked)))) = Ok None.
Proof.
  refine (expire_sets_the_time_to_live "greeting" 10 10000 Scenario.stocked stocked_healthy _ _);
    lia.
Defined.

Lemma cache_methods_never_throw_witness :
  CacheStore.delete "greeting" Sample.offline = (Ok false, Sample.offline)
  /\ CacheStore.clear Sample.offline = (Ok false, Sample.offline).
Proof.
  destruct (proj2 (cache_methods_never_throw "greeting" 10 Sample.offline) eq_refl)
    as (Hd & _ & _ & Hc).
  split; [exact Hd|exact Hc].
Defined.

Lemma closed_cache_answers_nothing_witness :
  exists w' : World,
    CacheStore.close Scenario.stocked = (Ok tt, w')
    /\ run (CacheService.get "greeting") w' = (Ok None, w')
    /\ redis w' = redis Scenario.stocked.
Proof.
  eexists. split; [reflexivity|].
  destruct (closed_cache_answers_nothing "greeting" "v" 10 Scenario.stocked _ eq_refl)
    as (_ & Hr & Hg & _).
  split; [exact Hg|exact Hr].
Defined.

Lemma corrupt_entry_fails_every_call_witness :
  fst (run (AIService.processContent Sample.fdiv Scenario.translate) Scenario.poisoned) =
    Throw (SyntaxError "Unexpected token in JSON")
  /\ fst (run (CacheStore.getJSON (fingerprint Scenario.translate)) Scenario.poisoned) = Ok VNull.
Proof.
  assert (Hparse : JSON_parse "not json" = None) by (vm_compute; reflexivity).
  assert (Hne : "not json" <> "") by discriminate.
  destruct (corrupt_entry_fails_every_call Sample.fdiv Scenario.translate "not json" 1000
              Scenario.poisoned eq_refl (conj eq_refl eq_refl) eq_refl Hne Hparse eq_refl)
    as (H1 & _ & _ & H4).
  split; [exact H1|exact H4].
Defined.


Lemma failing_batch_stops_at_once_witness :
  delays (snd (AIService.batchProcess Sample.fdiv Sample.shuffled Sample.second_fails
                 Sample.offline)) = [].
Proof.
  destruct (window Sample.fdiv Sample.shuffled Sample.second_fails 0 Sample.offline)
    as [[vs|e] wk'] eqn:E.
  - vm_compute in E. discriminate E.
  - refine (failing_batch_stops_at_once
              Sample.fdiv Sample.shuffled Sample.second_fails 0 [] Sample.offline
              Sample.offline wk' e _ _ E).
    + constructor.
    + vm_compute. lia.
Defined.


(** ** Requests that the controller would have refused *)

Lemma validate_nullish (before after : list value) (r : value) :
  Forall (fun r => valid_request r = true) before ->
  is_nullish r = true ->
  AIController.validate (before ++ r :: after) = Throw (TypeError
    ("Cannot read properties of " ++ to_str r ++ " (reading 'type')")).
Proof.
  intros Hb Hr. induction Hb as [|x before Hx _ IH]; cbn [app AIController.validate].
  - destruct r; try discriminate Hr; reflexivity.
  - destruct (valid_request_inv _ Hx) as (fields & -> & Ht & Hc).
    rewrite !get_opt_object, Ht, Hc. exact IH.
Qed.

(** X26. A batch whose requests before some element have a type and a
    content, and whose element is [null] or [undefined], is answered with
    status 500 and the message of the [TypeError] of reading [type] of that
    element, which is written to the log: the validation loop throws, and
    the service is not called. *)
Theorem batch_with_a_null_request_is_a_server_error
  (fdiv : value -> value -> number) (scheds : nat -> list nat)
  (body : value) (before after : list value) (r : value) (w : World) :
  get body "requests" = Ok (VArr (before ++ r :: after)) ->
  Forall (fun r => valid_request r = true) before ->
  is_nullish r = true ->
  let message := "Cannot read properties of " ++ to_str r ++ " (reading 'type')" in
  AIController.batchProcess fdiv scheds body w =
    (AIController.mkResponse 500
       (VObj [("message", VStr "AI batch processing failed"); ("error", VStr message)]),
     emit (EvLog "error" "Error in AI batch processing" (VObj [("error", VStr message)])) w).
Proof.
  intros Hget Hb Hr. cbv zeta. unfold AIController.batchProcess. rewrite Hget.
  destruct (before ++ r :: after)%list as [|first others] eqn:E.
  - now destruct before.
  - rewrite <- E, (validate_nullish before after r Hb Hr). reflexivity.
Qed.

Lemma batch_with_a_null_request_is_a_server_error_witness :
  AIController.status
    (fst (AIController.batchProcess Sample.fdiv Sample.shuffled
            (VObj [("requests", VArr [Scenario.translate; VNull])]) Sample.online)) = 500.
Proof.
  rewrite (batch_with_a_null_request_is_a_server_error Sample.fdiv Sample.shuffled
             (VObj [("requests", VArr [Scenario.translate; VNull])])
             [Scenario.translate] [] VNull Sample.online eq_refl).
  - reflexivity.
  - repeat constructor.
  - reflexivity.
Defined.

Lemma contentLength_missing (fields : list (string * value)) (w : World) :
  get_opt (VObj fields) "content" = VUndef ->
  run (AIService.contentLength (VObj fields)) w = (Throw no_length, w).
Proof.
  intros Hc. unfold AIService.contentLength.
  rewrite run_bind, get_opt_object, run_lift, Hc. reflexivity.
Qed.

(** X27. [processContent] called with a request object that has no
    content (the controller refuses such a request): when the lookup does not
    hit and the operation returns, the result is written to the cache as
    usual, and the call then throws the [TypeError] of reading [length] of
    [undefined], raised by the log statement and again in the [catch] block;
    nothing is written to the log. *)
Theorem missing_content_fails_after_the_model_call
  (fdiv : value -> value -> number) (fields : list (string * value)) (w wd : World)
  (result : value) :
  let request := VObj fields in
  get_opt request "content" = VUndef ->
  AIService.hit (cache_answer w (fingerprint request)) = false ->
  run (AIService.dispatch fdiv request) (snd (run (CacheService.get (fingerprint request)) w))
    = (Ok result, wd) ->
  run (AIService.processContent fdiv request) w =
    (Throw no_length,
     snd (run (CacheService.set (fingerprint request) (AIService.JSON_stringify result)
                 AIService.cacheTimeout) wd)).
Proof.
  intros request Hc Hmiss Hd. subst request.
  unfold AIService.processContent.
  rewrite run_bind, now_run. cbv beta iota.
  rewrite run_bind, generateCacheKey_object, run_lift. cbv beta iota.
  rewrite run_try_catch, run_bind.
  destruct (cache_get_effect (fingerprint (VObj fields)) w) as (Hg & _).
  destruct (run (CacheService.get (fingerprint (VObj fields))) w) as [o wg].
  cbn [fst snd] in *. subst o. cbv beta iota. rewrite Hmiss.
  rewrite run_bind, Hd. cbv beta iota. rewrite run_bind.
  destruct (cache_set_returns (fingerprint (VObj fields)) (AIService.JSON_stringify result)
              AIService.cacheTimeout wd) as [b Hs].
  destruct (run (CacheService.set (fingerprint (VObj fields)) (AIService.JSON_stringify result)
                   AIService.cacheTimeout) wd) as [os ws].
  cbn [fst snd] in *. subst os. cbv beta iota.
  rewrite run_bind, now_run. cbv beta iota.
  rewrite run_bind, get_opt_object, run_lift. cbv beta iota.
  rewrite run_bind, contentLength_missing by assumption. cbv beta iota.
  rewrite run_bind, run_lift. cbv beta iota.
  rewrite run_bind, contentLength_missing by assumption. reflexivity.
Qed.

Lemma missing_content_fails_after_the_model_call_witness :
  exists w' : World,
    run (AIService.processContent Sample.fdiv (VObj [("type", VStr "translate")]))
      Sample.online = (Throw no_length, w')
    /\ model_calls w' = 1%nat
    /\ cache_answer w' (fingerprint (VObj [("type", VStr "translate")])) <> None.
Proof.
  destruct (run (AIService.dispatch Sample.fdiv (VObj [("type", VStr "translate")]))
              (snd (run (CacheService.get (fingerprint (VObj [("type", VStr "translate")])))
                      Sample.online))) as [[result|e] wd] eqn:E.
  - eexists. split.
    + exact (missing_content_fails_after_the_model_call
               Sample.fdiv [("type", VStr "translate")] Sample.online wd result
               eq_refl eq_refl E).
    + vm_compute in E. inversion E; subst. split; [reflexivity|].
      vm_compute. discriminate.
  - vm_compute in E. discriminate E.
Defined.
